(** * web_network.py: the table-to-graph pipeline of [create_web_network]

    A shallow embedding of [src/docs/web_network.py].  The function reads a
    table of (gene, tissue, PCC) rows, keeps the rows with [PCC >= 0.8],
    builds a three-tier [networkx.Graph] (central node, tissue nodes, gene
    nodes), lays the nodes out in the plane, and serialises nodes and edges
    into an HTML document.

    Numbers.  A PCC score is a rational ([Q]): the filter, the sort and the
    edge weight [pcc * 3] are exact on it.  Coordinates are real numbers
    ([R]), the idealisation of the floating-point results of [math.cos],
    [np.sin] and friends.

    Dictionaries.  Python dictionaries keep insertion order and the code
    iterates over them ([G.nodes()], [G.edges()]), so they are association
    lists with update in place. *)

From Stdlib Require Import List String Ascii Bool Arith PeanoNat Lia.
From Stdlib Require Import QArith Qreals Reals Lra Permutation Sorted.
From Stdlib Require Import DecimalString.
Import ListNotations.

Close Scope Q_scope.
Close Scope R_scope.
Open Scope string_scope.
Open Scope list_scope.
Open Scope nat_scope.

(* ================================================================== *)
(** ** Insertion-ordered dictionaries *)

Module Dict.

Abbreviation t V := (list (string * V)) (only parsing).

Section Ops.
Context {V : Type}.

(** [d.get(k)] *)
Fixpoint get (k : string) (d : t V) : option V :=
    match d with
    | [] => None
    | (k', v) :: rest => if String.eqb k k' then Some v else get k rest
    end.

(** [k in d] *)
Definition mem (k : string) (d : t V) : bool :=
    match get k d with Some _ => true | None => false end.

(** [d[k] = v]: an existing key keeps its place, a new key goes last. *)
Fixpoint set (k : string) (v : V) (d : t V) : t V :=
    match d with
    | [] => [(k, v)]
    | (k', v') :: rest =>
        if String.eqb k k' then (k', v) :: rest else (k', v') :: set k v rest
    end.

Definition keys (d : t V) : list string := map fst d.

(** [d.get(k, default)] *)
Definition get_default (k : string) (default : V) (d : t V) : V :=
    match get k d with Some v => v | None => default end.
End Ops.

End Dict.

(* ================================================================== *)
(** ** The part of [networkx.Graph] the script uses *)

Inductive NodeType : Type := Central | Tissue | Gene.

Definition NodeType_eqb (a b : NodeType) : bool :=
  match a, b with
  | Central, Central | Tissue, Tissue | Gene, Gene => true
  | _, _ => false
  end.

(** The attribute dictionary of a node: the four keys the script ever
    writes, each present or absent. *)
Record NodeAttrs : Type := mkAttrs {
  node_type  : option NodeType;
  gene_count : option nat;
  attr_pcc   : option Q;
  attr_tissue : option string
}.

Definition no_attrs : NodeAttrs := mkAttrs None None None None.

Definition override {A : Type} (old new : option A) : option A :=
  match new with Some _ => new | None => old end.

(** [old.update(new)] *)
Definition update_attrs (old new : NodeAttrs) : NodeAttrs :=
  mkAttrs (override (node_type old) (node_type new))
          (override (gene_count old) (gene_count new))
          (override (attr_pcc old) (attr_pcc new))
          (override (attr_tissue old) (attr_tissue new)).

(** [_node] maps a node to its attributes, [_adj] maps a node to its
    neighbours, each neighbour to the edge's [weight]. *)
Record Graph : Type := mkGraph {
  g_node : Dict.t NodeAttrs;
  g_adj  : Dict.t (Dict.t Q)
}.

Definition empty_graph : Graph := mkGraph [] [].

(** [n in G] *)
Definition has_node (n : string) (G : Graph) : bool := Dict.mem n (g_node G).

(** [G.add_node(n, **attrs)] *)
Definition add_node (n : string) (attrs : NodeAttrs) (G : Graph) : Graph :=
  match Dict.get n (g_node G) with
  | None =>
      mkGraph (Dict.set n (update_attrs no_attrs attrs) (g_node G))
              (Dict.set n [] (g_adj G))
  | Some old =>
      mkGraph (Dict.set n (update_attrs old attrs) (g_node G)) (g_adj G)
  end.

Definition neighbours (n : string) (adj : Dict.t (Dict.t Q)) : Dict.t Q :=
  Dict.get_default n [] adj.

(** [G.add_edge(u, v, weight=w)]: missing end points are created without
    attributes; the edge is stored under both end points; an existing edge
    has its weight overwritten. *)
Definition add_edge (u v : string) (w : Q) (G : Graph) : Graph :=
  let G1 := if has_node u G then G
            else mkGraph (Dict.set u no_attrs (g_node G)) (Dict.set u [] (g_adj G)) in
  let G2 := if has_node v G1 then G1
            else mkGraph (Dict.set v no_attrs (g_node G1)) (Dict.set v [] (g_adj G1)) in
  let adj1 := Dict.set u (Dict.set v w (neighbours u (g_adj G2))) (g_adj G2) in
  let adj2 := Dict.set v (Dict.set u w (neighbours v adj1)) adj1 in
  mkGraph (g_node G2) adj2.

(** [G.nodes()] *)
Definition nodes (G : Graph) : list string := Dict.keys (g_node G).

(** [G.nodes[n]] *)
Definition node_attrs (n : string) (G : Graph) : NodeAttrs :=
  Dict.get_default n no_attrs (g_node G).

(** [G.edges[(u, v)].get('weight', 1)], and whether the edge is there. *)
Definition edge_weight (u v : string) (G : Graph) : option Q :=
  Dict.get v (neighbours u (g_adj G)).

Definition has_edge (u v : string) (G : Graph) : bool :=
  match edge_weight u v G with Some _ => true | None => false end.

(** [G.edges()]: every node in turn, each of its neighbours that has not
    been visited as a node before. *)
Fixpoint edges_from (seen : list string) (adj : Dict.t (Dict.t Q))
  : list (string * string) :=
  match adj with
  | [] => []
  | (n, nbrs) :: rest =>
      map (fun nbr => (n, nbr))
          (filter (fun nbr => negb (existsb (String.eqb nbr) seen)) (Dict.keys nbrs))
      ++ edges_from (n :: seen) rest
  end.

Definition edges (G : Graph) : list (string * string) := edges_from [] (g_adj G).

(* ================================================================== *)
(** ** The input table *)

(** One row of the table as [iterrows] yields it: the index label [idx]
    (the row's number in the file, kept by filtering, sorting and [head])
    and the three columns the script reads. *)
Record Row : Type := mkRow {
  idx         : nat;
  gene_symbol : string;
  tumor       : string;
  pcc         : Q
}.

(** What [pd.read_csv] returns: the column names found in the file and the
    rows.  A field of a row is read only after its column has been found. *)
Record DataFrame : Type := mkDataFrame {
  columns : list string;
  rows    : list Row
}.

(** [read_csv] labels the rows 0, 1, 2, ... *)
Fixpoint range_index (start : nat) (l : list (string * string * Q)) : list Row :=
  match l with
  | [] => []
  | (g, t, p) :: rest => mkRow start g t p :: range_index (S start) rest
  end.

Definition has_column (c : string) (df : DataFrame) : bool :=
  existsb (String.eqb c) (columns df).

Definition threshold : Q := 0.8%Q.

(** [df[df['PCC'] >= 0.8]] *)
Definition filter_pcc (l : list Row) : list Row :=
  filter (fun r => Qle_bool threshold (pcc r)) l.

(** [Series.unique()]: the distinct values in order of first appearance. *)
Fixpoint unique_from (seen : list string) (l : list string) : list string :=
  match l with
  | [] => []
  | x :: rest =>
      if existsb (String.eqb x) seen then unique_from seen rest
      else x :: unique_from (x :: seen) rest
  end.

Definition unique (l : list string) : list string := unique_from [] l.

(** [Counter(values)[k]] *)
Definition Counter (values : list string) (k : string) : nat :=
  count_occ string_dec values k.

(** [filtered_df[filtered_df['Tumor'] == tissue]] *)
Definition rows_of_tissue (tissue : string) (l : list Row) : list Row :=
  filter (fun r => String.eqb (tumor r) tissue) l.

(** [DataFrame.sort_values('PCC', ascending=False)].  The call leaves the
    sort kind at pandas' default, which promises a rearrangement of the rows
    in descending PCC and nothing about the order of rows of equal PCC. *)
Class SortValues : Type := mkSortValues {
  sort_values : list Row -> list Row;
  sort_values_perm : forall l, Permutation (sort_values l) l;
  sort_values_sorted :
    forall l, StronglySorted (fun a b => (pcc b <= pcc a)%Q) (sort_values l)
}.

(** A stable instance: insertion of each row, from the last to the first,
    before the first row whose PCC is not larger. *)
Fixpoint insert_desc (r : Row) (l : list Row) : list Row :=
  match l with
  | [] => [r]
  | h :: rest =>
      if Qle_bool (pcc h) (pcc r)
      then r :: h :: rest
      else h :: insert_desc r rest
  end.

Fixpoint stable_sort_desc (l : list Row) : list Row :=
  match l with
  | [] => []
  | r :: rest => insert_desc r (stable_sort_desc rest)
  end.

(** [sort_values(..., kind='stable')]: the insertion sort rearranges its
    rows and leaves them in descending PCC. *)
Definition stable_sorter : SortValues.
Proof.
  assert (Hinsert : forall r l, Permutation (insert_desc r l) (r :: l)).
  { intros r l. induction l as [|h l IH]; simpl; auto.
    destruct (Qle_bool (pcc h) (pcc r)); auto.
    rewrite IH. apply perm_swap. }
  assert (Hperm : forall l, Permutation (stable_sort_desc l) l).
  { induction l as [|r l IH]; simpl; auto.
    rewrite Hinsert. now constructor. }
  assert (Hsorted : forall l,
             StronglySorted (fun a b => (pcc b <= pcc a)%Q) (stable_sort_desc l)).
  { induction l as [|r l IH]; simpl; [constructor|].
    induction IH as [|h l' Hs IHs Hh]; simpl.
    - repeat constructor.
    - destruct (Qle_bool (pcc h) (pcc r)) eqn:E.
      + apply Qle_bool_iff in E.
        constructor; [now constructor|].
        constructor; auto.
        eapply Forall_impl; [|exact Hh]. intros a Ha.
        now apply Qle_trans with (pcc h).
      + constructor; auto.
        eapply Permutation_Forall; [symmetry; apply Hinsert|].
        constructor; auto.
        apply Qlt_le_weak, Qnot_le_lt.
        intros H. apply Qle_bool_iff in H. congruence. }
  exact (mkSortValues stable_sort_desc Hperm Hsorted).
Defined.

(** Another sort the default kind allows: descending PCC, rows of equal
    PCC in the reverse of their original order. *)
Definition reverse_tie_sorter : SortValues :=
  mkSortValues
    (fun l => @sort_values stable_sorter (rev l))
    (fun l => perm_trans (@sort_values_perm stable_sorter (rev l))
                         (Permutation_sym (Permutation_rev l)))
    (fun l => @sort_values_sorted stable_sorter (rev l)).

(* ================================================================== *)
(** ** Layout constants and the random source *)

Definition Positions : Type := Dict.t (R * R).

Definition radius : R := 400%R.
Definition golden_angle : R := (PI * (3 - sqrt 5))%R.

(** [fixed_positions[k]].  Every key the script looks up has been written
    before (lemmas [tissue_position_present], [gene_step_keeps_positions]
    and [node_position_present]); the default stands for the [KeyError]
    that cannot happen. *)
Definition position (k : string) (pos : Positions) : R * R :=
  Dict.get_default k (0%R, 0%R) pos.

(** The process-wide random source: [normal k loc scale] is what the
    [k]-th call of [np.random.normal] returns when asked for location [loc]
    and scale [scale]. *)
Definition RandomSource : Type := nat -> R -> R -> R.

Definition color_list : list string :=
  [ "#4daf4a"; "#f781bf"; "#a65628"; "#984ea3"; "#999999"; "#e41a1c"; "#377eb8";
    "#ff7f00"; "#ffff33"; "#a6cee3"; "#1f78b4"; "#b2df8a"; "#33a02c"; "#fb9a99";
    "#e31a1c"; "#fdbf6f"; "#ff7f00"; "#cab2d6"; "#6a3d9a"; "#ffff99"; "#b15928"; "#00ffff" ].

(** [enumerate(l)] *)
Definition enumerate {A : Type} (l : list A) : list (nat * A) :=
  combine (seq 0 (List.length l)) l.

Definition tissue_colors_of (tissue_types : list string) : Dict.t string :=
  fold_left
    (fun colors it => Dict.set (snd it) (nth (fst it mod List.length color_list) color_list "") colors)
    (enumerate tissue_types) [].

Definition max_genes_per_tissue : nat := 150.
Definition central_weight : Q := 5%Q.

(* ================================================================== *)
(** ** Building the graph and the positions *)

Definition tissue_position (i : nat) : R * R :=
  let angle := (INR i * golden_angle)%R in
  ((radius * cos angle)%R, (radius * sin angle)%R).

(** Lines 61-62: the tissue node and its edge to the central node. *)
Definition add_tissue (central_node : string) (counts : string -> nat)
    (G : Graph) (tissue : string) : Graph :=
  let G := add_node tissue (mkAttrs (Some Tissue) (Some (counts tissue)) None None) G in
  add_edge central_node tissue central_weight G.

(** Body of the loop over [enumerate(tissue_types)] (lines 54-62). *)
Definition tissue_step (central_node : string) (counts : string -> nat)
    (st : Graph * Positions) (it : nat * string) : Graph * Positions :=
  (add_tissue central_node counts (fst st) (snd it),
   Dict.set (snd it) (tissue_position (fst it)) (snd st)).

(** Lines 22-62: the central node and the tissue nodes, placed. *)
Definition place_tissues (filtered_df : list Row) (central_node : string)
  : Graph * Positions :=
  let tissue_types := unique (map tumor filtered_df) in
  let tissue_gene_counts := Counter (map tumor filtered_df) in
  let G := add_node central_node (mkAttrs (Some Central) None None None) empty_graph in
  let fixed_positions := Dict.set central_node (0%R, 0%R) [] in
  fold_left (tissue_step central_node tissue_gene_counts)
            (enumerate tissue_types) (G, fixed_positions).

(** The state the loop over the genes threads: the graph, the positions,
    the counter [genes_added] and the number of random draws made so far. *)
Record BuildState : Type := mkState {
  st_G         : Graph;
  st_positions : Positions;
  genes_added  : nat;
  draws        : nat
}.

(** The position a gene row receives (lines 91-106): [n] is
    [len(tissue_genes)], [centre] is [fixed_positions[tissue]], [k] the
    number of draws made before. *)
Definition cloud_position (normal : RandomSource) (k : nat) (centre : R * R)
    (n : nat) (row : Row) : R * R :=
  let p := Q2R (pcc row) in
  let angle := (INR (idx row) / INR n * 2 * PI)%R in
  let distance := (50 + (1 - p) * 150)%R in
  let noise_scale := (0.3 + 0.6 * (1 - p))%R in
  let angle_noise := (normal k 0 noise_scale * 0.5)%R in
  let distance_noise := (normal (S k) 0 noise_scale * 50)%R in
  let cloud_angle := (angle + angle_noise)%R in
  let cloud_distance := (distance + distance_noise)%R in
  ((fst centre + cloud_distance * cos cloud_angle)%R,
   (snd centre + cloud_distance * sin cloud_angle)%R).

(** Lines 79-86: the gene node, unless a node of that name is in the graph
    already, and the edge to the tissue. *)
Definition add_gene (tissue : string) (G : Graph) (row : Row) : Graph :=
  let gene := gene_symbol row in
  let G := if has_node gene G then G
           else add_node gene (mkAttrs (Some Gene) None (Some (pcc row)) (Some tissue)) G in
  add_edge gene tissue (pcc row * 3)%Q G.

(** Body of the loop over [tissue_genes.iterrows()] (lines 78-107). *)
Definition gene_step (normal : RandomSource) (tissue : string) (n : nat)
    (st : BuildState) (row : Row) : BuildState :=
  let gene := gene_symbol row in
  let xy := cloud_position normal (draws st) (position tissue (st_positions st)) n row in
  mkState (add_gene tissue (st_G st) row)
          (Dict.set gene xy (st_positions st))
          (if has_node gene (st_G st) then genes_added st else S (genes_added st))
          (S (S (draws st))).

(** [tissue_genes.head(max_genes_per_tissue)] when there are more rows. *)
Definition limit_genes (tissue_genes : list Row) : list Row :=
  if max_genes_per_tissue <? List.length tissue_genes
  then firstn max_genes_per_tissue tissue_genes
  else tissue_genes.

Section Build.
Context {sorter : SortValues}.
Variable normal : RandomSource.

(** The rows of one tissue that reach the graph (lines 70-75). *)
Definition tissue_genes_of (filtered_df : list Row) (tissue : string) : list Row :=
  limit_genes (sort_values (rows_of_tissue tissue filtered_df)).

(** Body of the loop over [tissue_types] (lines 68-107). *)
Definition genes_of_tissue_step (filtered_df : list Row) (st : BuildState)
    (tissue : string) : BuildState :=
  let tissue_genes := tissue_genes_of filtered_df tissue in
  fold_left (gene_step normal tissue (List.length tissue_genes)) tissue_genes st.

(** The rows the loop over the genes visits, in the order it visits them. *)
Definition visited_rows (filtered_df : list Row) : list Row :=
  flat_map (tissue_genes_of filtered_df) (unique (map tumor filtered_df)).

(** Lines 22-107: from the filtered rows to the graph and the positions. *)
Definition build_graph (filtered_df : list Row) (central_node : string) : BuildState :=
  let tissue_types := unique (map tumor filtered_df) in
  let st := place_tissues filtered_df central_node in
  fold_left (genes_of_tissue_step filtered_df) tissue_types
            (mkState (fst st) (snd st) 0 0).

End Build.

(* ================================================================== *)
(** ** Serialisation (lines 112-166) *)

(** A record of [nodes_data]; the keys a node type does not carry are
    [None]. *)
Record NodeData : Type := mkNodeData {
  nd_id         : string;
  nd_name       : string;
  nd_node_type  : NodeType;
  nd_size       : nat;
  nd_color      : string;
  nd_x          : R;
  nd_y          : R;
  nd_label      : option string;
  nd_gene_count : option nat;
  nd_pcc        : option Q;
  nd_tissue     : option string
}.

(** A record of [links_data]. *)
Record LinkData : Type := mkLinkData {
  source : string;
  target : string;
  value  : Q
}.

Definition string_of_nat (n : nat) : string :=
  NilEmpty.string_of_uint (Nat.to_uint n).

Definition central_data (central_node : string) (pos : Positions) : NodeData :=
  mkNodeData central_node central_node Central 50 "red"
             (fst (position central_node pos)) (snd (position central_node pos))
             (Some (central_node ++ " (central)")%string) None None None.

(** What one turn of the loop over [G.nodes()] appends to [nodes_data]. *)
Definition node_data (central_node : string) (tissue_colors : Dict.t string)
    (G : Graph) (pos : Positions) (node : string) : list NodeData :=
  if String.eqb node central_node then []
  else
    let attrs := node_attrs node G in
    match node_type attrs with
    | Some Tissue =>
        let count := match gene_count attrs with Some c => c | None => 0 end in
        [ mkNodeData node node Tissue 25
            (Dict.get_default node "#999999" tissue_colors)
            (fst (position node pos)) (snd (position node pos))
            (Some (node ++ " (n=" ++ string_of_nat count ++ ")")%string)
            (Some count) None None ]
    | Some Gene =>
        let tissue := attr_tissue attrs in
        [ mkNodeData node node Gene 3
            (match tissue with
             | Some t => Dict.get_default t "#999999" tissue_colors
             | None => "#999999"
             end)
            (fst (position node pos)) (snd (position node pos))
            None None
            (Some (match attr_pcc attrs with Some p => p | None => 0%Q end))
            tissue ]
    | _ => []
    end.

Definition nodes_data_of (central_node : string) (tissue_colors : Dict.t string)
    (G : Graph) (pos : Positions) : list NodeData :=
  central_data central_node pos
  :: flat_map (node_data central_node tissue_colors G pos) (nodes G).

Definition links_data_of (G : Graph) : list LinkData :=
  map (fun e => mkLinkData (fst e) (snd e)
                  (match edge_weight (fst e) (snd e) G with
                   | Some w => w
                   | None => 1%Q
                   end))
      (edges G).

(* ================================================================== *)
(** ** The procedure with its effects *)

Inductive Exn : Type :=
| FileNotFoundError
| KeyError (key : string)
| ValueError (message : string)
| OSError (call : string).

(** Lines printed on the console. *)
Inductive Msg : Type :=
| Loading
| Found (tissues genes : nat)
| Limiting (tissue : string) (from to : nat)
| Added (genes : nat)
| Saved
| Error (e : Exn)
| Traceback (e : Exn).

(** The file at [output_file]: untouched so far, opened for writing but
    not completely written, or holding the document with its payload. *)
Inductive FileState : Type :=
| Untouched
| Incomplete
| Document (nodes_data : list NodeData) (links_data : list LinkData).

Record World : Type := mkWorld {
  console           : list Msg;
  output_dir_exists : bool;
  output_file       : FileState;
  browser_opened    : bool
}.

(** What the operating system refuses during the run. *)
Record Faults : Type := mkFaults {
  makedirs_fails : bool;
  open_fails     : bool;
  write_fails    : bool
}.

Definition no_faults : Faults := mkFaults false false false.

(** Computations that print, touch the file system and may raise. *)
Definition M (A : Type) : Type := World -> (Exn + A) * World.

Definition ret {A : Type} (a : A) : M A := fun w => (inr a, w).
Definition raise {A : Type} (e : Exn) : M A := fun w => (inl e, w).
Definition bind {A B : Type} (m : M A) (k : A -> M B) : M B :=
  fun w => match m w with
           | (inl e, w') => (inl e, w')
           | (inr a, w') => k a w'
           end.

Notation "x <- m ;; k" := (bind m (fun x => k))
  (at level 61, m at next level, right associativity).
Notation "m ;;; k" := (bind m (fun _ => k))
  (at level 61, right associativity).

Definition print (m : Msg) : M unit :=
  fun w => (inr tt, mkWorld (console w ++ [m]) (output_dir_exists w)
                            (output_file w) (browser_opened w)).

Definition read_csv (csv : option DataFrame) : M DataFrame :=
  match csv with Some df => ret df | None => raise FileNotFoundError end.

(** [df[c]] *)
Definition require_column (c : string) (df : DataFrame) : M unit :=
  if has_column c df then ret tt else raise (KeyError c).

Definition makedirs (faults : Faults) : M unit :=
  fun w => if makedirs_fails faults then (inl (OSError "makedirs"), w)
           else (inr tt, mkWorld (console w) true (output_file w) (browser_opened w)).

(** [open(output_file, 'w')] creates or empties the file. *)
Definition open_w (faults : Faults) : M unit :=
  fun w => if open_fails faults then (inl (OSError "open"), w)
           else (inr tt, mkWorld (console w) (output_dir_exists w) Incomplete
                                 (browser_opened w)).

Definition write (faults : Faults) (nd : list NodeData) (ld : list LinkData) : M unit :=
  fun w => if write_fails faults then (inl (OSError "write"), w)
           else (inr tt, mkWorld (console w) (output_dir_exists w) (Document nd ld)
                                 (browser_opened w)).

Definition webbrowser_open : M unit :=
  fun w => (inr tt, mkWorld (console w) (output_dir_exists w) (output_file w) true).

Section Procedure.
Context {sorter : SortValues}.
Variable normal : RandomSource.

(** [np.random.normal(0, noise_scale)] on line 98 refuses a negative
    scale: it raises [ValueError] when [0.3 + 0.6 * (1 - pcc)] is below 0,
    that is when the PCC of the row is above 1.5. *)
Definition scale_refused (row : Row) : bool :=
  negb (Qle_bool 0 (0.3 + 0.6 * (1 - pcc row))%Q).

(** What the turns of the rows of one tissue can raise (lines 78-107):
    [row['Gene Symbol']] when the table has no such column, then the
    random source when the row's scale is negative; a row is reached only
    when the rows before it raised nothing. *)
Fixpoint row_loop_effects (has_gene : bool) (tissue_genes : list Row) : M unit :=
  match tissue_genes with
  | [] => ret tt
  | row :: rest =>
      (if has_gene then ret tt else raise (KeyError "Gene Symbol")) ;;;
      (if scale_refused row then raise (ValueError "scale < 0") else ret tt) ;;;
      row_loop_effects has_gene rest
  end.

(** The console and the exceptions of the loop over the genes: a notice
    for a tissue that is cut down, then the turns of its rows. *)
Fixpoint gene_loop_effects (has_gene : bool) (filtered_df : list Row)
    (tissue_types : list string) : M unit :=
  match tissue_types with
  | [] => ret tt
  | tissue :: rest =>
      let sorted := sort_values (rows_of_tissue tissue filtered_df) in
      (if max_genes_per_tissue <? List.length sorted
       then print (Limiting tissue (List.length sorted) max_genes_per_tissue)
       else ret tt) ;;;
      row_loop_effects has_gene (limit_genes sorted) ;;;
      gene_loop_effects has_gene filtered_df rest
  end.

(** The body of the [try] (lines 17-866); [output_dir] is
    [os.path.dirname(output_file)]. *)
Definition try_body (csv : option DataFrame) (central_node : string)
    (output_dir : string) (faults : Faults) : M (Graph * Positions) :=
  df <- read_csv csv ;;
  require_column "PCC" df ;;;
  let filtered_df := filter_pcc (rows df) in
  require_column "Tumor" df ;;;
  let tissue_types := unique (map tumor filtered_df) in
  print (Found (List.length tissue_types) (List.length filtered_df)) ;;;
  gene_loop_effects (has_column "Gene Symbol" df) filtered_df tissue_types ;;;
  let st := build_graph normal filtered_df central_node in
  print (Added (genes_added st)) ;;;
  let tissue_colors := tissue_colors_of tissue_types in
  let nodes_data := nodes_data_of central_node tissue_colors (st_G st) (st_positions st) in
  let links_data := links_data_of (st_G st) in
  (fun w => if negb (String.eqb output_dir "") && negb (output_dir_exists w)
            then makedirs faults w else ret tt w) ;;;
  open_w faults ;;;
  write faults nodes_data links_data ;;;
  print Saved ;;;
  webbrowser_open ;;;
  ret (st_G st, st_positions st).

(** [create_web_network]: [Some (G, fixed_positions)] is the pair the
    function returns, [None] is [(None, None)]. *)
Definition create_web_network (csv : option DataFrame) (central_node : string)
    (output_dir : string) (faults : Faults) (w : World)
  : option (Graph * Positions) * World :=
  match (print Loading ;;; try_body csv central_node output_dir faults) w with
  | (inr result, w') => (Some result, w')
  | (inl e, w') =>
      (None, mkWorld (console w' ++ [Error e; Traceback e]) (output_dir_exists w')
                     (output_file w') (browser_opened w'))
  end.

(** The payload the document receives when the run reaches the write: on
    a table that has its columns and no visited row whose scale the random
    source refuses. *)
Definition nodes_data (df : list Row) (central_node : string) : list NodeData :=
  let filtered_df := filter_pcc df in
  let st := build_graph normal filtered_df central_node in
  nodes_data_of central_node (tissue_colors_of (unique (map tumor filtered_df)))
                (st_G st) (st_positions st).

Definition links_data (df : list Row) (central_node : string) : list LinkData :=
  links_data_of (st_G (build_graph normal (filter_pcc df) central_node)).

(** The graph and the positions the function returns. *)
Definition graph_of (df : list Row) (central_node : string) : Graph :=
  st_G (build_graph normal (filter_pcc df) central_node).

Definition fixed_positions_of (df : list Row) (central_node : string) : Positions :=
  st_positions (build_graph normal (filter_pcc df) central_node).

End Procedure.

(* ================================================================== *)
(** ** Observations on the result *)

(** Whether node [n] of [G] carries the given [node_type]. *)
Definition is_node_type (ty : NodeType) (G : Graph) (n : string) : bool :=
  match node_type (node_attrs n G) with
  | Some ty' => NodeType_eqb ty ty'
  | None => false
  end.

(** The tissue nodes of a graph. *)
Definition tissue_nodes (G : Graph) : list string :=
  filter (is_node_type Tissue G) (nodes G).

(** The gene nodes of a graph that have an edge to [tissue]. *)
Definition attached_genes (G : Graph) (tissue : string) : list string :=
  filter (fun n => is_node_type Gene G n && has_edge n tissue G) (nodes G).

(** [networkx] keeps [_node] and [_adj] on the same keys. *)
Definition wf_graph (G : Graph) : Prop :=
  forall n, Dict.mem n (g_node G) = Dict.mem n (g_adj G).

(** No node is listed twice in [_adj]. *)
Definition adj_ok (G : Graph) : Prop := NoDup (Dict.keys (g_adj G)).

(** The attributes the script gives the three kinds of node. *)
Definition central_attrs : NodeAttrs := mkAttrs (Some Central) None None None.

Definition tissue_attrs (count : nat) : NodeAttrs :=
  mkAttrs (Some Tissue) (Some count) None None.

Definition gene_attrs (r : Row) : NodeAttrs :=
  mkAttrs (Some Gene) None (Some (pcc r)) (Some (tumor r)).

(** The two end points of an edge, in either order. *)
Definition joins (a b u v : string) : bool :=
  (String.eqb a u && String.eqb b v) || (String.eqb a v && String.eqb b u).

(** A row's turn in the loop over the genes: its tissue is its own. *)
Definition add_gene_row (G : Graph) (r : Row) : Graph := add_gene (tumor r) G r.

(** Row [r] bears the gene name [n]. *)
Definition names (r : Row) (n : string) : bool := String.eqb (gene_symbol r) n.

(** Descending PCC. *)
Definition desc (a b : Row) : Prop := (pcc b <= pcc a)%Q.

(** [w'] is [w] with more lines on the console. *)
Definition only_prints (w w' : World) : Prop :=
  (exists msgs, console w' = console w ++ msgs)
  /\ output_dir_exists w' = output_dir_exists w
  /\ output_file w' = output_file w
  /\ browser_opened w' = browser_opened w.

(** The records of [nodes_data] of one node type. *)
Definition records_of_type (ty : NodeType) (l : list NodeData) : list NodeData :=
  filter (fun nd => NodeType_eqb ty (nd_node_type nd)) l.

(* ================================================================== *)
(** ** Tables used as examples *)

(** A random source that always returns its location. *)
Definition no_noise : RandomSource := fun _ loc _ => loc.

(** The central gene among the rows, and a gene listed twice for a tissue. *)
Definition table_clash : list Row :=
  range_index 0 [ ("GCH1", "Liver", 0.9%Q); ("A", "Liver", 0.95%Q);
                  ("A", "Liver", 0.85%Q) ].

(** No name clashes with the central node or a tissue. *)
Definition table_plain : list Row :=
  range_index 0 [ ("A", "T", 0.95%Q); ("A", "T", 0.85%Q); ("B", "U", 0.9%Q) ].

(** 151 rows of one tissue with falling scores 1.000, 0.999, ..., 0.850;
    the first two rows bear the same gene name, so the tissue has 150
    distinct gene names. *)
Definition table_151 : list Row :=
  range_index 0
    (map (fun i => (("g" ++ string_of_nat (if Nat.eqb i 1 then 0 else i))%string, "T",
                    Qmake (Z.of_nat (1000 - i)) 1000))
         (seq 0 151)).

(** 151 rows of one tissue, all of score 0.9, with distinct gene names. *)
Definition table_ties : list Row :=
  range_index 0
    (map (fun i => (("g" ++ string_of_nat i)%string, "T", 0.9%Q)) (seq 0 151)).

(** The central gene as the only row. *)
Definition table_central_row : list Row :=
  range_index 0 [ ("GCH1", "Liver", 1%Q) ].

(** Two rows of one tissue, the second with the higher score. *)
Definition table_two : list Row :=
  range_index 0 [ ("A", "T", 0.9%Q); ("B", "T", 0.95%Q) ].

(** The position of a gene as the specification words it: [i] is the place
    of the gene in its tissue's list sorted by score, [n] the length of that
    list, [k] the number of random draws made before. *)
Definition spec_cloud_position (normal : RandomSource) (k : nat) (centre : R * R)
    (n : nat) (i : nat) (score : Q) : R * R :=
  let s := Q2R score in
  let base_angle := (INR i / INR n * 2 * PI)%R in
  let base_distance := (50 + (1 - s) * 150)%R in
  let noise_scale := (0.3 + 0.6 * (1 - s))%R in
  let angle := (base_angle + normal k 0%R noise_scale * 0.5)%R in
  let distance := (base_distance + normal (S k) 0%R noise_scale * 50)%R in
  ((fst centre + distance * cos angle)%R, (snd centre + distance * sin angle)%R).

(** A table without the [Gene Symbol] column whose only row is below the
    threshold (the gene field of its row is never read). *)
Definition frame_no_gene_column : DataFrame :=
  mkDataFrame ["Tumor"; "PCC"] [ mkRow 0 "" "Liver" 0.5%Q ].

(** A table with its three columns and one row. *)
Definition frame_one_row : DataFrame :=
  mkDataFrame ["Gene Symbol"; "Tumor"; "PCC"] [ mkRow 0 "A" "Liver" 0.9%Q ].

(** Before the run: nothing printed, the output directory there, no file. *)
Definition fresh_world : World := mkWorld [] true Untouched false.

(** The table cannot be read, or a column is missing where the code looks
    for it: [PCC], [Tumor], or [Gene Symbol] with a row to visit. *)
Definition raises_before_output (csv : option DataFrame) : Prop :=
  match csv with
  | None => True
  | Some df =>
      has_column "PCC" df = false
      \/ has_column "Tumor" df = false
      \/ (has_column "Gene Symbol" df = false /\ filter_pcc (rows df) <> [])
  end.

(** The gene nodes of a graph. *)
Definition gene_nodes (G : Graph) : list string :=
  filter (is_node_type Gene G) (nodes G).

(** No neighbour is listed twice under a node of [_adj]. *)
Definition nbrs_ok (G : Graph) : Prop :=
  Forall (fun e => NoDup (Dict.keys (snd e))) (g_adj G).

(** The two end points of a record of [links_data]. *)
Definition link_ends (ld : LinkData) : string * string := (source ld, target ld).

(** The notices the loop over the tissues prints (line 73): one for every
    tissue with more than 150 rows, in the order of the tissues. *)
Definition limiting_notices (filtered_df : list Row) (tissue_types : list string)
  : list Msg :=
  flat_map (fun t =>
              let n := List.length (rows_of_tissue t filtered_df) in
              if max_genes_per_tissue <? n
              then [Limiting t n max_genes_per_tissue] else [])
           tissue_types.

(** Seventeen rows of seventeen tissues. *)
Definition table_17_tissues : list Row :=
  map (fun t => mkRow 0 "A" t 0.9%Q)
      [ "T00"; "T01"; "T02"; "T03"; "T04"; "T05"; "T06"; "T07"; "T08";
        "T09"; "T10"; "T11"; "T12"; "T13"; "T14"; "T15"; "T16" ].

(* ================================================================== *)
(** ** The client in the document (lines 347-846)

    The script of the document holds the payload in [nodesData] and the
    view in a handful of variables, and changes them in its event
    handlers.  JavaScript numbers are taken as real numbers.  The records
    of [nodesData] are objects changed in place: [dragNode], the elements
    of the filtered arrays and the values of [nodeMap] are references to
    them, so a reference is the index of the record in [nodesData].  The
    payload is taken to be the list the script dumped: [json.dumps], the
    substitution into the template and the reading of the literal are
    not modelled. *)

Module Client.

Inductive Cursor : Type := CursorDefault | CursorGrabbing | CursorPointer.

(** The variables of the script (lines 348-378), the cursor of the canvas,
    the tooltip (the record it shows and where; [None] when hidden) and
    the number of calls of [Math.random] made so far. *)
Record State : Type := mkClient {
  nodesData        : list NodeData;
  width            : R;
  height           : R;
  scale            : R;
  offsetX          : R;
  offsetY          : R;
  dragNode         : option nat;
  dragOffsetX      : R;
  dragOffsetY      : R;
  isDraggingCanvas : bool;
  startX           : R;
  startY           : R;
  cursor           : Cursor;
  tooltip          : option (nat * R * R);
  random_calls     : nat
}.

Definition MIN_SCALE : R := 0.1%R.
Definition MAX_SCALE : R := 5%R.

(** [node.x = x; node.y = y] *)
Definition set_xy (node : NodeData) (x y : R) : NodeData :=
  mkNodeData (nd_id node) (nd_name node) (nd_node_type node) (nd_size node)
             (nd_color node) x y (nd_label node) (nd_gene_count node)
             (nd_pcc node) (nd_tissue node).

(** Writing through a reference: the record at index [i] is replaced. *)
Fixpoint update_at (i : nat) (f : NodeData -> NodeData) (l : list NodeData)
  : list NodeData :=
  match l, i with
  | [], _ => []
  | node :: rest, 0 => f node :: rest
  | node :: rest, S j => node :: update_at j f rest
  end.

Definition with_nodes (st : State) (nodes : list NodeData) (calls : nat) : State :=
  mkClient nodes (width st) (height st) (scale st) (offsetX st) (offsetY st)
           (dragNode st) (dragOffsetX st) (dragOffsetY st) (isDraggingCanvas st)
           (startX st) (startY st) (cursor st) (tooltip st) calls.

(** The test of lines 804-811: the point is on the disc of the record as
    the view shows it. *)
Definition on_disc (st : State) (x y : R) (node : NodeData) : bool :=
  let nodeScreenX := (nd_x node * scale st + offsetX st)%R in
  let nodeScreenY := (nd_y node * scale st + offsetY st)%R in
  let size := (INR (nd_size node) * scale st)%R in
  let distance := sqrt ((x - nodeScreenX) ^ 2 + (y - nodeScreenY) ^ 2)%R in
  if Rle_dec distance size then true else false.

(** The loop of [getNodeAtPosition] (lines 802-813), from index [n - 1]
    down to 0. *)
Fixpoint scan_down (hit : NodeData -> bool) (nodes : list NodeData) (n : nat)
  : option (nat * NodeData) :=
  match n with
  | 0 => None
  | S i =>
      match nth_error nodes i with
      | Some node => if hit node then Some (i, node) else scan_down hit nodes i
      | None => scan_down hit nodes i
      end
  end.

(** The record found, with its index. *)
Definition getNodeAtPosition (st : State) (x y : R) : option (nat * NodeData) :=
  scan_down (on_disc st x y) (nodesData st) (List.length (nodesData st)).

(** [handleMouseDown] (lines 707-728); [mouseX] and [mouseY] are the
    coordinates of the event on the canvas. *)
Definition handleMouseDown (mouseX mouseY : R) (st : State) : State :=
  match getNodeAtPosition st mouseX mouseY with
  | Some (i, node) =>
      mkClient (nodesData st) (width st) (height st) (scale st) (offsetX st) (offsetY st)
               (Some i)
               ((mouseX - offsetX st) / scale st - nd_x node)%R
               ((mouseY - offsetY st) / scale st - nd_y node)%R
               (isDraggingCanvas st) (startX st) (startY st)
               CursorGrabbing (tooltip st) (random_calls st)
  | None =>
      mkClient (nodesData st) (width st) (height st) (scale st) (offsetX st) (offsetY st)
               (dragNode st) (dragOffsetX st) (dragOffsetY st)
               true mouseX mouseY
               CursorGrabbing (tooltip st) (random_calls st)
  end.

(** [handleMouseMove] (lines 731-759); [clientX] and [clientY] place the
    tooltip. *)
Definition handleMouseMove (mouseX mouseY clientX clientY : R) (st : State) : State :=
  match dragNode st with
  | Some i =>
      let x := ((mouseX - offsetX st) / scale st - dragOffsetX st)%R in
      let y := ((mouseY - offsetY st) / scale st - dragOffsetY st)%R in
      with_nodes st (update_at i (fun node => set_xy node x y) (nodesData st))
                 (random_calls st)
  | None =>
      if isDraggingCanvas st then
        mkClient (nodesData st) (width st) (height st) (scale st)
                 (offsetX st + (mouseX - startX st))%R
                 (offsetY st + (mouseY - startY st))%R
                 (dragNode st) (dragOffsetX st) (dragOffsetY st)
                 (isDraggingCanvas st) mouseX mouseY
                 (cursor st) (tooltip st) (random_calls st)
      else
        match getNodeAtPosition st mouseX mouseY with
        | Some (i, _) =>
            mkClient (nodesData st) (width st) (height st) (scale st)
                     (offsetX st) (offsetY st)
                     (dragNode st) (dragOffsetX st) (dragOffsetY st)
                     (isDraggingCanvas st) (startX st) (startY st)
                     CursorPointer (Some (i, (clientX + 10)%R, (clientY + 10)%R))
                     (random_calls st)
        | None =>
            mkClient (nodesData st) (width st) (height st) (scale st)
                     (offsetX st) (offsetY st)
                     (dragNode st) (dragOffsetX st) (dragOffsetY st)
                     (isDraggingCanvas st) (startX st) (startY st)
                     CursorDefault None (random_calls st)
        end
  end.

(** [handleMouseUp] (lines 762-766) *)
Definition handleMouseUp (st : State) : State :=
  mkClient (nodesData st) (width st) (height st) (scale st) (offsetX st) (offsetY st)
           None (dragOffsetX st) (dragOffsetY st) false (startX st) (startY st)
           CursorDefault (tooltip st) (random_calls st).

(** [handleWheel] (lines 769-797) *)
Definition handleWheel (mouseX mouseY deltaY : R) (st : State) : State :=
  let x := ((mouseX - offsetX st) / scale st)%R in
  let y := ((mouseY - offsetY st) / scale st)%R in
  let scale1 := if Rlt_dec deltaY 0 then (scale st * 1.1)%R else (scale st * 0.9)%R in
  let scale2 := Rmax MIN_SCALE (Rmin MAX_SCALE scale1) in
  mkClient (nodesData st) (width st) (height st) scale2
           (mouseX - x * scale2)%R (mouseY - y * scale2)%R
           (dragNode st) (dragOffsetX st) (dragOffsetY st)
           (isDraggingCanvas st) (startX st) (startY st)
           (cursor st) (tooltip st) (random_calls st).

(** [resetView] (lines 601-606) *)
Definition resetView (st : State) : State :=
  mkClient (nodesData st) (width st) (height st) 1%R
           (width st / 2)%R (height st / 2)%R
           (dragNode st) (dragOffsetX st) (dragOffsetY st)
           (isDraggingCanvas st) (startX st) (startY st)
           (cursor st) (tooltip st) (random_calls st).

(** [resizeCanvas] (lines 649-655); the arguments are the new
    [container.clientWidth] and [container.clientHeight]. *)
Definition resizeCanvas (clientWidth clientHeight : R) (st : State) : State :=
  mkClient (nodesData st) clientWidth clientHeight (scale st) (offsetX st) (offsetY st)
           (dragNode st) (dragOffsetX st) (dragOffsetY st)
           (isDraggingCanvas st) (startX st) (startY st)
           (cursor st) (tooltip st) (random_calls st).

(** [Math.random]: [random k] is what the [k]-th call returns. *)
Definition RandomNumbers : Type := nat -> R.

(** [gene.pcc]; every gene record of the payload carries one. *)
Definition pcc_of (node : NodeData) : Q :=
  match nd_pcc node with Some p => p | None => 0%Q end.

(** [tissueGenes.sort((a, b) => b.pcc - a.pcc)]: descending PCC, records
    of equal PCC in the order they had (the sort of an array is stable). *)
Fixpoint insert_gene (g : nat * NodeData) (l : list (nat * NodeData))
  : list (nat * NodeData) :=
  match l with
  | [] => [g]
  | h :: rest =>
      if Qle_bool (pcc_of (snd h)) (pcc_of (snd g))
      then g :: h :: rest
      else h :: insert_gene g rest
  end.

Fixpoint sort_genes (l : list (nat * NodeData)) : list (nat * NodeData) :=
  match l with
  | [] => []
  | g :: rest => insert_gene g (sort_genes rest)
  end.

(** The distance from the tissue (lines 626-636); [k] is the number of
    calls of [Math.random] made before. *)
Definition cloud_distance (random : RandomNumbers) (k : nat) (gene : NodeData) : R :=
  let p := Q2R (pcc_of gene) in
  let baseDistance := (40 + (1 - p) * 100)%R in
  let noiseScale := (0.2 + 0.5 * (1 - p))%R in
  let distanceNoise := ((random (S k) * 2 - 1) * noiseScale * 60)%R in
  Rmax 20 (baseDistance + distanceNoise).

Definition cloud_angle (random : RandomNumbers) (k : nat) (len idx : nat)
    (gene : NodeData) : R :=
  let p := Q2R (pcc_of gene) in
  let angle := (INR idx / INR len * 2 * PI)%R in
  let noiseScale := (0.2 + 0.5 * (1 - p))%R in
  let angleNoise := ((random k - 0.5) * noiseScale * PI)%R in
  (angle + angleNoise)%R.

(** One turn of the loop over [tissueGenes] (lines 624-642). *)
Definition place_gene (random : RandomNumbers) (tissue_index len : nat)
    (acc : list NodeData * nat) (it : nat * nat) : list NodeData * nat :=
  let idx := fst it in
  let gene_index := snd it in
  match nth_error (fst acc) tissue_index, nth_error (fst acc) gene_index with
  | Some tissue, Some gene =>
      let k := snd acc in
      let cloudAngle := cloud_angle random k len idx gene in
      let cloudDistance := cloud_distance random k gene in
      (update_at gene_index
         (fun node => set_xy node (nd_x tissue + cloudDistance * cos cloudAngle)%R
                                  (nd_y tissue + cloudDistance * sin cloudAngle)%R)
         (fst acc),
       S (S k))
  | _, _ => acc
  end.

Definition gene_of (tissue : NodeData) (node : NodeData) : bool :=
  NodeType_eqb Gene (nd_node_type node)
  && match nd_tissue node with
     | Some t => String.eqb t (nd_name tissue)
     | None => false
     end.

(** One turn of the loop over [tissueNodes] (lines 614-643). *)
Definition place_tissue_genes (random : RandomNumbers) (acc : list NodeData * nat)
    (tissue_index : nat) : list NodeData * nat :=
  match nth_error (fst acc) tissue_index with
  | Some tissue =>
      let tissueGenes :=
        sort_genes (filter (fun g => gene_of tissue (snd g)) (enumerate (fst acc))) in
      fold_left (place_gene random tissue_index (List.length tissueGenes))
                (enumerate (map fst tissueGenes)) acc
  | None => acc
  end.

(** [optimizeLayout] (lines 609-646) *)
Definition optimizeLayout (random : RandomNumbers) (st : State) : State :=
  let tissueNodes :=
    map fst (filter (fun t => NodeType_eqb Tissue (nd_node_type (snd t)))
                    (enumerate (nodesData st))) in
  let out := fold_left (place_tissue_genes random) tissueNodes
                       (nodesData st, random_calls st) in
  with_nodes st (fst out) (snd out).

(** The state when the script has run: the variables of lines 348-378,
    then [resizeCanvas()] and [optimizeLayout()] of [initialize] (lines
    658-677), with the size of the container. *)
Definition loaded (payload : list NodeData) (clientWidth clientHeight : R) : State :=
  mkClient payload clientWidth clientHeight 1%R
           (clientWidth / 2)%R (clientHeight / 2)%R
           None 0%R 0%R false 0%R 0%R CursorDefault None 0.

Definition initialize (random : RandomNumbers) (payload : list NodeData)
    (clientWidth clientHeight : R) : State :=
  optimizeLayout random
    (resizeCanvas clientWidth clientHeight (loaded payload clientWidth clientHeight)).

(** What the user and the window do. *)
Inductive Event : Type :=
| MouseDown (mouseX mouseY : R)
| MouseMove (mouseX mouseY clientX clientY : R)
| MouseUp
| Wheel (mouseX mouseY deltaY : R)
| Resize (clientWidth clientHeight : R)
| ResetZoomClick
| AutoClusterClick
| DownloadClick.

(** The listeners of lines 663-670; the download draws on a canvas of its
    own and changes none of the variables. *)
Definition handle (random : RandomNumbers) (st : State) (e : Event) : State :=
  match e with
  | MouseDown mouseX mouseY => handleMouseDown mouseX mouseY st
  | MouseMove mouseX mouseY clientX clientY =>
      handleMouseMove mouseX mouseY clientX clientY st
  | MouseUp => handleMouseUp st
  | Wheel mouseX mouseY deltaY => handleWheel mouseX mouseY deltaY st
  | Resize clientWidth clientHeight => resizeCanvas clientWidth clientHeight st
  | ResetZoomClick => resetView st
  | AutoClusterClick => optimizeLayout random st
  | DownloadClick => st
  end.

Definition run (random : RandomNumbers) (events : list Event) (st : State) : State :=
  fold_left (handle random) events st.

(** An entry of a legend: the colour of its dot and its text. *)
Record LegendItem : Type := mkLegendItem {
  legend_color : string;
  legend_text  : string
}.

Definition tissue_item (node : NodeData) : LegendItem :=
  mkLegendItem (nd_color node)
    (nd_name node ++ " (n="
     ++ match nd_gene_count node with
        | Some n => string_of_nat n
        | None => "undefined"
        end ++ ")")%string.

Definition tissue_records (nodes : list NodeData) : list NodeData :=
  filter (fun node => NodeType_eqb Tissue (nd_node_type node)) nodes.

(** [createLegend] (lines 680-704): the entries of the legend of the
    page.  [nodeMap['GCH1']] is there when a record has the id [GCH1]. *)
Definition createLegend (nodes : list NodeData) : list LegendItem :=
  (if existsb (fun node => String.eqb (nd_id node) "GCH1") nodes
   then [mkLegendItem "red" "GCH1 (central)"] else [])
  ++ map tissue_item (tissue_records nodes).

(** [drawLegendToContext] (lines 436-503): the entries of the legend of
    the exported picture. *)
Definition drawLegendToContext (nodes : list NodeData) : list LegendItem :=
  (if existsb (fun node => NodeType_eqb Central (nd_node_type node)) nodes
   then [mkLegendItem "red" "GCH1 (central)"] else [])
  ++ map tissue_item (tissue_records nodes).

(** The discs [drawNetworkToContext] paints (lines 526-556), in the order
    it paints them: the genes, the tissues, then the first central
    record. *)
Definition paint_order (nodes : list NodeData) : list NodeData :=
  filter (fun node => NodeType_eqb Gene (nd_node_type node)) nodes
  ++ filter (fun node => NodeType_eqb Tissue (nd_node_type node)) nodes
  ++ match find (fun node => NodeType_eqb Central (nd_node_type node)) nodes with
     | Some centralNode => [centralNode]
     | None => []
     end.

(** The disc seen at a point: of the discs that hold it, the one painted
    last. *)
Definition top_disc (st : State) (x y : R) : option NodeData :=
  find (on_disc st x y) (rev (paint_order (nodesData st))).

End Client.

(** What a record says apart from its position. *)
Definition static (node : NodeData) : NodeData := Client.set_xy node 0%R 0%R.

(** The pointer moving over the canvas through the points of [path]. *)
Definition pointer_path (path : list (R * R)) : list Client.Event :=
  map (fun p => Client.MouseMove (fst p) (snd p) (fst p) (snd p)) path.

(** A gene record at the origin of the plane. *)
Definition gene_at_origin : NodeData :=
  mkNodeData "A" "A" Gene 3 "#4daf4a" 0%R 0%R None None (Some 0.9%Q) (Some "Liver").

(** [gene] lies where [optimizeLayout] puts a gene of [tissue]: at the
    distance and the angle of some turn of its loops. *)
Definition placed_around (random : Client.RandomNumbers) (tissue gene : NodeData)
  : Prop :=
  exists k len idx,
    idx < len
    /\ nd_x gene = (nd_x tissue + Client.cloud_distance random k gene
                                  * cos (Client.cloud_angle random k len idx gene))%R
    /\ nd_y gene = (nd_y tissue + Client.cloud_distance random k gene
                                  * sin (Client.cloud_angle random k len idx gene))%R.

(** The turn of one row in the loop over the genes: the tissue is the
    row's own, the length is that of the tissue's list. *)
Definition visit_row {sorter : SortValues} (normal : RandomSource)
    (filtered_df : list Row) (st : BuildState) (r : Row) : BuildState :=
  gene_step normal (tumor r) (List.length (tissue_genes_of filtered_df (tumor r))) st r.

(** One row with a score of 1, and the random numbers that bring its gene
    closest to its tissue. *)
Definition table_score_one : list Row := [ mkRow 0 "A" "Liver" 1%Q ].

Definition random_closest : Client.RandomNumbers :=
  fun k => match k with 0 => 0.5%R | _ => 0%R end.

(** A table with its three columns and a row whose score is above 1.5. *)
Definition frame_large_score : DataFrame :=
  mkDataFrame ["Gene Symbol"; "Tumor"; "PCC"] [ mkRow 0 "A" "Liver" 2.5%Q ].

(** Two rows of the tissue T, the first naming its gene T as well. *)
Definition table_tissue_row : list Row :=
  range_index 0 [ ("T", "T", 0.85%Q); ("B", "T", 0.9%Q) ].

(* ================================================================== *)
(** * Properties *)

(** ** Dictionaries *)

Module DictFacts.
Section Facts.
Context {V : Type}.
Implicit Types (d : Dict.t V) (k : string) (v : V).

Lemma get_set_same d k v : Dict.get k (Dict.set k v d) = Some v.
Proof.
  induction d as [|[k' v'] d IH]; simpl.
  - now rewrite String.eqb_refl.
  - destruct (String.eqb k k') eqn:E; simpl; rewrite E; auto.
Qed.

Lemma get_set_other d k k' v :
  k' <> k -> Dict.get k' (Dict.set k v d) = Dict.get k' d.
Proof.
  intros Hne. induction d as [|[k0 v0] d IH]; simpl.
  - apply String.eqb_neq in Hne. now rewrite Hne.
  - destruct (String.eqb k k0) eqn:E; simpl.
    + apply String.eqb_eq in E. subst k0.
      apply String.eqb_neq in Hne. now rewrite Hne.
    + now rewrite IH.
Qed.

Lemma get_set d k k' v :
  Dict.get k' (Dict.set k v d) = if String.eqb k' k then Some v else Dict.get k' d.
Proof.
  destruct (String.eqb_spec k' k) as [->|Hne].
  - apply get_set_same.
  - now apply get_set_other.
Qed.

Lemma mem_set d k k' v :
  Dict.mem k' (Dict.set k v d) = String.eqb k' k || Dict.mem k' d.
Proof.
  unfold Dict.mem. rewrite get_set. now destruct (String.eqb k' k).
Qed.

Lemma get_In_keys d k : Dict.get k d <> None <-> In k (Dict.keys d).
Proof.
  induction d as [|[k' v'] d IH]; simpl.
  - split; [congruence | tauto].
  - destruct (String.eqb_spec k k') as [->|Hne].
    + split; [auto | discriminate].
    + rewrite IH. split; [auto | intros [H|H]; congruence].
Qed.

Lemma mem_In_keys d k : Dict.mem k d = true <-> In k (Dict.keys d).
Proof.
  rewrite <- get_In_keys. unfold Dict.mem.
  destruct (Dict.get k d); split; congruence.
Qed.

Lemma mem_false_keys d k : Dict.mem k d = false <-> ~ In k (Dict.keys d).
Proof.
  rewrite <- mem_In_keys. destruct (Dict.mem k d); split; congruence.
Qed.

Lemma keys_set d k v :
  Dict.keys (Dict.set k v d) = if Dict.mem k d then Dict.keys d else Dict.keys d ++ [k].
Proof.
  unfold Dict.mem. induction d as [|[k' v'] d IH]; simpl; auto.
  destruct (String.eqb k k') eqn:E; simpl; auto.
  rewrite IH. now destruct (Dict.get k d).
Qed.

Lemma get_In d k v : Dict.get k d = Some v -> In (k, v) d.
Proof.
  induction d as [|[k' v'] d IH]; simpl; [discriminate|].
  destruct (String.eqb_spec k k') as [->|Hne].
  - intros [= ->]. now left.
  - auto.
Qed.

Lemma NoDup_keys_set d k v : NoDup (Dict.keys d) -> NoDup (Dict.keys (Dict.set k v d)).
Proof.
  intros Hnd. rewrite keys_set. destruct (Dict.mem k d) eqn:E; auto.
  apply mem_false_keys in E.
  apply NoDup_rev in Hnd. rewrite <- (rev_involutive (Dict.keys d ++ [k])).
  apply NoDup_rev. rewrite rev_app_distr. simpl. constructor; auto.
  now rewrite <- in_rev.
Qed.

End Facts.
End DictFacts.

(** ** The graph operations *)

Import DictFacts.

Lemma wf_empty_graph : wf_graph empty_graph.
Proof. intros n. reflexivity. Qed.

Lemma neighbours_set n k d adj :
  neighbours n (Dict.set k d adj) = if String.eqb n k then d else neighbours n adj.
Proof.
  unfold neighbours, Dict.get_default. rewrite get_set.
  now destruct (String.eqb n k).
Qed.

Lemma neighbours_fresh n k adj :
  Dict.mem k adj = false -> neighbours n (Dict.set k [] adj) = neighbours n adj.
Proof.
  intros Hk. rewrite neighbours_set. destruct (String.eqb_spec n k) as [->|]; auto.
  unfold neighbours, Dict.get_default. unfold Dict.mem in Hk.
  now destruct (Dict.get k adj).
Qed.

Lemma g_node_add_node n a G :
  g_node (add_node n a G) = Dict.set n (update_attrs (node_attrs n G) a) (g_node G).
Proof.
  unfold add_node, node_attrs, Dict.get_default.
  now destruct (Dict.get n (g_node G)).
Qed.

Lemma wf_add_node n a G : wf_graph G -> wf_graph (add_node n a G).
Proof.
  intros Hwf m. unfold add_node.
  destruct (Dict.get n (g_node G)) eqn:E; simpl.
  - rewrite mem_set, <- Hwf. destruct (String.eqb_spec m n) as [->|]; auto.
    unfold Dict.mem. now rewrite E.
  - rewrite !mem_set. now rewrite Hwf.
Qed.

Lemma edge_weight_add_node u v n a G :
  wf_graph G -> edge_weight u v (add_node n a G) = edge_weight u v G.
Proof.
  intros Hwf. unfold edge_weight, add_node.
  destruct (Dict.get n (g_node G)) eqn:E; simpl; auto.
  rewrite neighbours_fresh; auto.
  rewrite <- Hwf. unfold Dict.mem. now rewrite E.
Qed.

Lemma has_node_add_node m n a G :
  has_node m (add_node n a G) = String.eqb m n || has_node m G.
Proof. unfold has_node. rewrite g_node_add_node. apply mem_set. Qed.

(** With both end points in the graph [add_edge] leaves the nodes alone. *)
Lemma g_node_add_edge u v w G :
  has_node u G = true -> has_node v G = true ->
  g_node (add_edge u v w G) = g_node G.
Proof.
  intros Hu Hv. unfold add_edge. rewrite Hu, Hv. reflexivity.
Qed.

(** In any case it leaves the attributes of the nodes it finds alone. *)
Lemma get_node_add_edge n u v w G a :
  Dict.get n (g_node G) = Some a ->
  Dict.get n (g_node (add_edge u v w G)) = Some a.
Proof.
  intros Hn. unfold add_edge. simpl.
  assert (Hstep : forall G' k, Dict.get n (g_node G') = Some a ->
            Dict.get n (g_node (if has_node k G' then G'
                                else mkGraph (Dict.set k no_attrs (g_node G'))
                                             (Dict.set k [] (g_adj G')))) = Some a).
  { intros G' k H. destruct (has_node k G') eqn:E; auto. simpl.
    rewrite get_set. destruct (String.eqb_spec n k) as [->|]; auto.
    unfold has_node, Dict.mem in E. now rewrite H in E. }
  now apply Hstep, Hstep.
Qed.

Lemma wf_add_edge u v w G : wf_graph G -> wf_graph (add_edge u v w G).
Proof.
  intros Hwf.
  assert (Hstep : forall G' k, wf_graph G' ->
            wf_graph (if has_node k G' then G'
                      else mkGraph (Dict.set k no_attrs (g_node G'))
                                   (Dict.set k [] (g_adj G')))).
  { intros G' k H. destruct (has_node k G') eqn:E; auto.
    intros m. simpl. rewrite !mem_set. now rewrite H. }
  assert (Hin : forall G' k, has_node k
            (if has_node k G' then G'
             else mkGraph (Dict.set k no_attrs (g_node G'))
                          (Dict.set k [] (g_adj G'))) = true).
  { intros G' k. destruct (has_node k G') eqn:E; auto.
    unfold has_node. simpl. rewrite mem_set. now rewrite String.eqb_refl. }
  assert (Hmono : forall G' k m, has_node m G' = true -> has_node m
            (if has_node k G' then G'
             else mkGraph (Dict.set k no_attrs (g_node G'))
                          (Dict.set k [] (g_adj G'))) = true).
  { intros G' k m Hm. destruct (has_node k G') eqn:E; auto.
    unfold has_node in *. simpl. rewrite mem_set. rewrite Hm. apply orb_true_r. }
  unfold add_edge.
  set (G1 := if has_node u G then G else _).
  set (G2 := if has_node v G1 then G1 else _).
  assert (Hwf2 : wf_graph G2) by (apply Hstep, Hstep, Hwf).
  assert (Hu2 : has_node u G2 = true) by (apply Hmono, Hin).
  assert (Hv2 : has_node v G2 = true) by apply Hin.
  intros m. simpl. rewrite !mem_set. rewrite <- Hwf2.
  unfold has_node in Hu2, Hv2.
  destruct (String.eqb_spec m v) as [->|]; [now rewrite Hv2|].
  destruct (String.eqb_spec m u) as [->|]; [now rewrite Hu2|].
  reflexivity.
Qed.

Lemma edge_weight_add_edge a b u v w G :
  wf_graph G ->
  edge_weight a b (add_edge u v w G)
  = if joins a b u v then Some w else edge_weight a b G.
Proof.
  intros Hwf.
  assert (Hstep : forall G' k n, wf_graph G' ->
            neighbours n (g_adj (if has_node k G' then G'
                      else mkGraph (Dict.set k no_attrs (g_node G'))
                                   (Dict.set k [] (g_adj G'))))
            = neighbours n (g_adj G')).
  { intros G' k n H. destruct (has_node k G') eqn:E; auto. simpl.
    apply neighbours_fresh. rewrite <- H. exact E. }
  assert (Hwfs : forall G' k, wf_graph G' ->
            wf_graph (if has_node k G' then G'
                      else mkGraph (Dict.set k no_attrs (g_node G'))
                                   (Dict.set k [] (g_adj G')))).
  { intros G' k H. destruct (has_node k G') eqn:E; auto.
    intros m. simpl. rewrite !mem_set. now rewrite H. }
  unfold edge_weight, add_edge, joins.
  set (G1 := if has_node u G then G else _).
  set (G2 := if has_node v G1 then G1 else _).
  assert (Hn2 : forall n, neighbours n (g_adj G2) = neighbours n (g_adj G)).
  { intros n. unfold G2. rewrite Hstep by (apply Hwfs, Hwf).
    unfold G1. now rewrite Hstep. }
  cbn [g_adj]. rewrite neighbours_set.
  destruct (String.eqb_spec a v) as [->|Hav].
  - rewrite get_set, neighbours_set.
    destruct (String.eqb_spec b u) as [->|Hbu].
    + now rewrite andb_true_r, orb_true_r.
    + rewrite andb_false_r, orb_false_r.
      destruct (String.eqb_spec v u) as [->|Hvu].
      * rewrite get_set. apply String.eqb_neq in Hbu. rewrite Hbu.
        simpl. now rewrite Hn2.
      * simpl. now rewrite Hn2.
  - simpl. rewrite orb_false_r, neighbours_set.
    destruct (String.eqb_spec a u) as [->|Hau]; simpl.
    + rewrite get_set. destruct (String.eqb b v); auto. now rewrite Hn2.
    + now rewrite Hn2.
Qed.

Lemma has_node_add_edge m u v w G :
  has_node m G = true -> has_node m (add_edge u v w G) = true.
Proof.
  unfold has_node, Dict.mem. intros H.
  destruct (Dict.get m (g_node G)) as [a|] eqn:E; [|discriminate].
  now rewrite (get_node_add_edge _ u v w _ _ E).
Qed.

Lemma NoDup_nodes_add_node n a G : NoDup (nodes G) -> NoDup (nodes (add_node n a G)).
Proof. unfold nodes. rewrite g_node_add_node. apply NoDup_keys_set. Qed.

(** ** The loops, seen from the graph *)

Lemma find_app {A : Type} (p : A -> bool) (l1 l2 : list A) :
  find p (l1 ++ l2) = match find p l1 with Some x => Some x | None => find p l2 end.
Proof.
  induction l1 as [|x l1 IH]; simpl; auto. now destruct (p x).
Qed.

Lemma update_attrs_idem a b : update_attrs (update_attrs a b) b = update_attrs a b.
Proof.
  destruct a, b. unfold update_attrs, override. simpl.
  repeat match goal with |- context [match ?x with _ => _ end] => destruct x end;
    reflexivity.
Qed.

Lemma existsb_eqb_In (n : string) (l : list string) :
  existsb (String.eqb n) l = true <-> In n l.
Proof.
  rewrite existsb_exists. split.
  - intros [x [Hx E]]. apply String.eqb_eq in E. now subst.
  - intros H. exists n. split; auto. apply String.eqb_refl.
Qed.

Lemma existsb_eqb_not_In (n : string) (l : list string) :
  existsb (String.eqb n) l = false <-> ~ In n l.
Proof.
  rewrite <- existsb_eqb_In. destruct (existsb (String.eqb n) l); split; congruence.
Qed.

Lemma fst_tissue_loop c counts ts s st :
  fst (fold_left (tissue_step c counts) (combine (seq s (List.length ts)) ts) st)
  = fold_left (add_tissue c counts) ts (fst st).
Proof.
  revert s st. induction ts as [|t ts IH]; simpl; intros; [reflexivity | apply IH].
Qed.

Lemma st_G_gene_loop normal t n l st :
  st_G (fold_left (gene_step normal t n) l st) = fold_left (add_gene t) l (st_G st).
Proof.
  revert st. induction l as [|r l IH]; simpl; intros; [reflexivity | apply IH].
Qed.

Lemma add_gene_fold_own_tissue t l G :
  Forall (fun r => tumor r = t) l ->
  fold_left (add_gene t) l G = fold_left add_gene_row l G.
Proof.
  intros H. revert G. induction H as [|r l Hr _ IH]; simpl; intros; auto.
  rewrite IH. unfold add_gene_row. now rewrite Hr.
Qed.

Lemma limit_genes_incl l : incl (limit_genes l) l.
Proof.
  unfold limit_genes. destruct (max_genes_per_tissue <? List.length l).
  - intros x Hx. rewrite <- (firstn_skipn max_genes_per_tissue l).
    apply in_or_app. now left.
  - apply incl_refl.
Qed.

Section BuildFacts.
Context {sorter : SortValues}.
Variable normal : RandomSource.

Lemma tissue_genes_in_rows f t r :
  In r (tissue_genes_of f t) -> In r f /\ tumor r = t.
Proof.
  unfold tissue_genes_of. intros H. apply limit_genes_incl in H.
  apply (Permutation_in _ (sort_values_perm _)) in H.
  unfold rows_of_tissue in H. apply filter_In in H. destruct H as [H E].
  split; auto. now apply String.eqb_eq.
Qed.

Lemma tissue_genes_own_tissue f t :
  Forall (fun r => tumor r = t) (tissue_genes_of f t).
Proof.
  apply Forall_forall. intros r H. now apply tissue_genes_in_rows in H.
Qed.

Lemma visited_rows_in f r : In r (visited_rows f) -> In r f.
Proof.
  unfold visited_rows. rewrite in_flat_map. intros [t [_ H]].
  now apply tissue_genes_in_rows in H.
Qed.

Lemma st_G_genes_loop f ts st :
  st_G (fold_left (genes_of_tissue_step normal f) ts st)
  = fold_left add_gene_row (flat_map (tissue_genes_of f) ts) (st_G st).
Proof.
  revert st. induction ts as [|t ts IH]; simpl; intros; auto.
  rewrite IH. unfold genes_of_tissue_step. rewrite st_G_gene_loop.
  rewrite fold_left_app. f_equal.
  apply add_gene_fold_own_tissue, tissue_genes_own_tissue.
Qed.

(** The graph the function returns, as two folds. *)
Lemma st_G_build_graph f c :
  st_G (build_graph normal f c)
  = fold_left add_gene_row (visited_rows f)
      (fold_left (add_tissue c (Counter (map tumor f))) (unique (map tumor f))
         (add_node c central_attrs empty_graph)).
Proof.
  unfold build_graph. rewrite st_G_genes_loop. cbn [st_G].
  unfold place_tissues, enumerate. now rewrite fst_tissue_loop.
Qed.

End BuildFacts.

(** *** The loop over the tissues *)

Lemma add_tissue_facts c counts G t :
  wf_graph G -> has_node c G = true ->
  wf_graph (add_tissue c counts G t)
  /\ g_node (add_tissue c counts G t)
     = Dict.set t (update_attrs (node_attrs t G) (tissue_attrs (counts t))) (g_node G)
  /\ forall a b, edge_weight a b (add_tissue c counts G t)
                 = if joins a b c t then Some central_weight else edge_weight a b G.
Proof.
  intros Hwf Hc. unfold add_tissue.
  set (G1 := add_node t _ G).
  assert (Hwf1 : wf_graph G1) by now apply wf_add_node.
  assert (Hc1 : has_node c G1 = true).
  { unfold G1. rewrite has_node_add_node, Hc. apply orb_true_r. }
  assert (Ht1 : has_node t G1 = true).
  { unfold G1. rewrite has_node_add_node, String.eqb_refl. reflexivity. }
  split; [now apply wf_add_edge|]. split.
  - rewrite g_node_add_edge by assumption. apply g_node_add_node.
  - intros a b. rewrite edge_weight_add_edge by assumption.
    destruct (joins a b c t); auto. now apply edge_weight_add_node.
Qed.

Lemma node_attrs_set n k a G nodes' :
  g_node G = nodes' ->
  Dict.get_default n no_attrs (Dict.set k a nodes')
  = if String.eqb n k then a else node_attrs n G.
Proof.
  intros <-. unfold node_attrs, Dict.get_default. rewrite get_set.
  now destruct (String.eqb n k).
Qed.

Lemma tissue_loop_facts c counts ts G :
  wf_graph G -> has_node c G = true ->
  let G' := fold_left (add_tissue c counts) ts G in
  wf_graph G'
  /\ (forall n, has_node n G = true -> has_node n G' = true)
  /\ (forall n, Dict.get n (g_node G')
                = if existsb (String.eqb n) ts
                  then Some (update_attrs (node_attrs n G) (tissue_attrs (counts n)))
                  else Dict.get n (g_node G))
  /\ (forall a b, edge_weight a b G'
                  = if existsb (joins a b c) ts then Some central_weight
                    else edge_weight a b G)
  /\ (NoDup (nodes G) -> NoDup (nodes G')).
Proof.
  revert G. induction ts as [|t ts IH]; intros G Hwf Hc; simpl.
  - repeat split; auto.
  - destruct (add_tissue_facts c counts G t Hwf Hc) as (Hwf1 & Hn1 & He1).
    assert (Hmono : forall n, has_node n G = true ->
                              has_node n (add_tissue c counts G t) = true).
    { intros n Hn. unfold has_node. rewrite Hn1, mem_set. fold (has_node n G).
      rewrite Hn. apply orb_true_r. }
    destruct (IH (add_tissue c counts G t) Hwf1 (Hmono _ Hc))
      as (Hwf' & Hm' & Hn' & He' & Hd').
    split; [exact Hwf'|]. split; [intros n Hn; apply Hm', Hmono, Hn|].
    split; [|split].
    + intros n. rewrite Hn'.
      assert (Hat : node_attrs n (add_tissue c counts G t)
                    = if String.eqb n t
                      then update_attrs (node_attrs t G) (tissue_attrs (counts t))
                      else node_attrs n G).
      { unfold node_attrs at 1. rewrite Hn1. now apply node_attrs_set. }
      rewrite Hat, Hn1, get_set.
      destruct (String.eqb_spec n t) as [E|Hnt]; simpl.
      * rewrite E, update_attrs_idem. now destruct (existsb (String.eqb t) ts).
      * reflexivity.
    + intros a b. rewrite He', He1.
      destruct (joins a b c t); simpl; auto.
      now destruct (existsb (joins a b c) ts).
    + intros Hd. apply Hd'. unfold nodes. rewrite Hn1. now apply NoDup_keys_set.
Qed.

(** *** The loop over the genes *)

Lemma add_gene_row_facts G r :
  wf_graph G -> has_node (tumor r) G = true ->
  wf_graph (add_gene_row G r)
  /\ (forall n, Dict.get n (g_node (add_gene_row G r))
                = match Dict.get n (g_node G) with
                  | Some a => Some a
                  | None => if names r n then Some (gene_attrs r) else None
                  end)
  /\ (forall a b, edge_weight a b (add_gene_row G r)
                  = if joins a b (gene_symbol r) (tumor r) then Some (pcc r * 3)%Q
                    else edge_weight a b G)
  /\ (NoDup (nodes G) -> NoDup (nodes (add_gene_row G r))).
Proof.
  intros Hwf Ht. unfold add_gene_row, add_gene, names.
  destruct (has_node (gene_symbol r) G) eqn:Hg.
  - split; [now apply wf_add_edge|]. split; [|split].
    + intros n. rewrite g_node_add_edge by assumption.
      destruct (Dict.get n (g_node G)) eqn:E; auto.
      destruct (String.eqb_spec (gene_symbol r) n) as [Heq|]; auto.
      subst n. unfold has_node, Dict.mem in Hg. now rewrite E in Hg.
    + intros a b. now apply edge_weight_add_edge.
    + unfold nodes. now rewrite g_node_add_edge by assumption.
  - set (G1 := add_node (gene_symbol r) _ G).
    assert (Hwf1 : wf_graph G1) by now apply wf_add_node.
    assert (Hg1 : has_node (gene_symbol r) G1 = true).
    { unfold G1. rewrite has_node_add_node, String.eqb_refl. reflexivity. }
    assert (Ht1 : has_node (tumor r) G1 = true).
    { unfold G1. rewrite has_node_add_node, Ht. apply orb_true_r. }
    assert (Hnone : Dict.get (gene_symbol r) (g_node G) = None).
    { unfold has_node, Dict.mem in Hg.
      now destruct (Dict.get (gene_symbol r) (g_node G)). }
    split; [now apply wf_add_edge|]. split; [|split].
    + intros n. rewrite g_node_add_edge by assumption.
      unfold G1. rewrite g_node_add_node, get_set.
      rewrite (String.eqb_sym n).
      destruct (String.eqb_spec (gene_symbol r) n) as [Heq|Hne].
      * subst n. rewrite Hnone. unfold node_attrs, Dict.get_default.
        rewrite Hnone. reflexivity.
      * now destruct (Dict.get n (g_node G)).
    + intros a b. rewrite edge_weight_add_edge by assumption.
      destruct (joins a b (gene_symbol r) (tumor r)); auto.
      now apply edge_weight_add_node.
    + intros Hd. unfold nodes. rewrite g_node_add_edge by assumption.
      now apply NoDup_nodes_add_node.
Qed.

Lemma has_node_add_gene_row n G r :
  has_node n G = true -> has_node n (add_gene_row G r) = true.
Proof.
  intros H. unfold add_gene_row, add_gene. apply has_node_add_edge.
  destruct (has_node (gene_symbol r) G); auto.
  rewrite has_node_add_node, H. apply orb_true_r.
Qed.

Lemma gene_loop_facts l G :
  wf_graph G -> Forall (fun r => has_node (tumor r) G = true) l ->
  let G' := fold_left add_gene_row l G in
  wf_graph G'
  /\ (forall n, Dict.get n (g_node G')
                = match Dict.get n (g_node G) with
                  | Some a => Some a
                  | None => option_map gene_attrs (find (fun r => names r n) l)
                  end)
  /\ (forall a b, edge_weight a b G'
                  = match find (fun r => joins a b (gene_symbol r) (tumor r)) (rev l) with
                    | Some r => Some (pcc r * 3)%Q
                    | None => edge_weight a b G
                    end)
  /\ (NoDup (nodes G) -> NoDup (nodes G')).
Proof.
  revert G. induction l as [|r l IH]; intros G Hwf Hall; simpl.
  - repeat split; auto. intros n. now destruct (Dict.get n (g_node G)).
  - inversion Hall as [|? ? Hr Hl]; subst.
    destruct (add_gene_row_facts G r Hwf Hr) as (Hwf1 & Hn1 & He1 & Hd1).
    assert (Hall1 : Forall (fun r0 => has_node (tumor r0) (add_gene_row G r) = true) l).
    { eapply Forall_impl; [|exact Hl]. intros r0. apply has_node_add_gene_row. }
    destruct (IH (add_gene_row G r) Hwf1 Hall1) as (Hwf' & Hn' & He' & Hd').
    split; [exact Hwf'|]. split; [|split].
    + intros n. rewrite Hn', Hn1.
      destruct (Dict.get n (g_node G)); auto.
      now destruct (names r n).
    + intros a b. rewrite He', He1, find_app. simpl.
      destruct (find _ (rev l)); auto.
      now destruct (joins a b (gene_symbol r) (tumor r)).
    + auto.
Qed.

(** *** The graph the function returns *)

Section GraphFacts.
Context {sorter : SortValues}.
Variable normal : RandomSource.
Variable f : list Row.
Variable c : string.

Let tissue_types := unique (map tumor f).
Let G := st_G (build_graph normal f c).

Lemma unique_from_In seen l x :
  In x (unique_from seen l) <-> In x l /\ ~ In x seen.
Proof.
  revert seen. induction l as [|y l IH]; intros seen; simpl.
  - tauto.
  - destruct (existsb (String.eqb y) seen) eqn:E.
    + apply existsb_eqb_In in E. rewrite IH. split.
      * intros [H1 H2]. auto.
      * intros [[->|H1] H2]; [contradiction | auto].
    + apply existsb_eqb_not_In in E. simpl. rewrite IH. simpl. split.
      * intros [->|[H1 H2]]; auto.
      * intros [[->|H1] H2]; auto.
        destruct (string_dec y x) as [->|Hne]; auto.
        right. split; auto. intros [H|H]; auto.
Qed.

Lemma unique_from_NoDup seen l : NoDup (unique_from seen l).
Proof.
  revert seen. induction l as [|y l IH]; intros seen; simpl.
  - constructor.
  - destruct (existsb (String.eqb y) seen) eqn:E; auto.
    constructor; auto. rewrite unique_from_In. simpl. tauto.
Qed.

Lemma unique_In l x : In x (unique l) <-> In x l.
Proof. unfold unique. rewrite unique_from_In. simpl. tauto. Qed.

Lemma unique_NoDup l : NoDup (unique l).
Proof. apply unique_from_NoDup. Qed.

Lemma tissue_types_In t : In t tissue_types <-> exists r, In r f /\ tumor r = t.
Proof.
  unfold tissue_types. rewrite unique_In, in_map_iff.
  split; intros [r [H1 H2]]; exists r; auto.
Qed.

Lemma tissue_loop_applies :
  let G0 := add_node c central_attrs empty_graph in
  wf_graph G0 /\ has_node c G0 = true /\ NoDup (nodes G0)
  /\ forall n, Dict.get n (g_node G0) = if String.eqb n c then Some central_attrs else None.
Proof.
  simpl. split; [apply wf_add_node, wf_empty_graph|].
  split; [now rewrite has_node_add_node, String.eqb_refl|].
  split; [repeat constructor; auto|].
  intros n. cbn. rewrite String.eqb_sym. now destruct (String.eqb c n).
Qed.

(** The attributes of every node of the returned graph. *)
Lemma build_node_get n :
  Dict.get n (g_node G)
  = if existsb (String.eqb n) tissue_types
    then Some (tissue_attrs (Counter (map tumor f) n))
    else if String.eqb n c then Some central_attrs
    else option_map gene_attrs (find (fun r => names r n) (visited_rows f)).
Proof.
  unfold G. rewrite st_G_build_graph.
  destruct tissue_loop_applies as (Hwf0 & Hc0 & Hd0 & Hn0).
  destruct (tissue_loop_facts c (Counter (map tumor f)) tissue_types _ Hwf0 Hc0)
    as (Hwf1 & Hm1 & Hn1 & He1 & Hd1).
  fold tissue_types.
  set (G1 := fold_left _ tissue_types _) in *.
  assert (Hall : Forall (fun r => has_node (tumor r) G1 = true) (visited_rows f)).
  { apply Forall_forall. intros r Hr. apply visited_rows_in in Hr.
    unfold has_node, Dict.mem. rewrite Hn1.
    assert (Hin : In (tumor r) tissue_types) by (apply tissue_types_In; eauto).
    apply existsb_eqb_In in Hin. now rewrite Hin. }
  destruct (gene_loop_facts (visited_rows f) G1 Hwf1 Hall) as (_ & Hn2 & _ & _).
  rewrite Hn2, Hn1.
  destruct (existsb (String.eqb n) tissue_types).
  - f_equal. unfold node_attrs, Dict.get_default. rewrite Hn0.
    now destruct (String.eqb n c).
  - rewrite Hn0. now destruct (String.eqb n c).
Qed.

(** The weight of every edge of the returned graph. *)
Lemma build_edge_weight a b :
  edge_weight a b G
  = match find (fun r => joins a b (gene_symbol r) (tumor r)) (rev (visited_rows f)) with
    | Some r => Some (pcc r * 3)%Q
    | None => if existsb (joins a b c) tissue_types then Some central_weight else None
    end.
Proof.
  unfold G. rewrite st_G_build_graph.
  destruct tissue_loop_applies as (Hwf0 & Hc0 & Hd0 & Hn0).
  destruct (tissue_loop_facts c (Counter (map tumor f)) tissue_types _ Hwf0 Hc0)
    as (Hwf1 & Hm1 & Hn1 & He1 & Hd1).
  fold tissue_types.
  set (G1 := fold_left _ tissue_types _) in *.
  assert (Hall : Forall (fun r => has_node (tumor r) G1 = true) (visited_rows f)).
  { apply Forall_forall. intros r Hr. apply visited_rows_in in Hr.
    unfold has_node, Dict.mem. rewrite Hn1.
    assert (Hin : In (tumor r) tissue_types) by (apply tissue_types_In; eauto).
    apply existsb_eqb_In in Hin. now rewrite Hin. }
  destruct (gene_loop_facts (visited_rows f) G1 Hwf1 Hall) as (_ & _ & He2 & _).
  rewrite He2, He1.
  destruct (find _ (rev (visited_rows f))); auto.
  destruct (existsb (joins a b c) tissue_types); auto.
  unfold edge_weight, add_node, neighbours, Dict.get_default. cbn.
  destruct (String.eqb a c); reflexivity.
Qed.

Lemma build_nodes_NoDup : NoDup (nodes G).
Proof.
  unfold G. rewrite st_G_build_graph.
  destruct tissue_loop_applies as (Hwf0 & Hc0 & Hd0 & Hn0).
  destruct (tissue_loop_facts c (Counter (map tumor f)) tissue_types _ Hwf0 Hc0)
    as (Hwf1 & Hm1 & Hn1 & He1 & Hd1).
  fold tissue_types.
  set (G1 := fold_left _ tissue_types _) in *.
  assert (Hall : Forall (fun r => has_node (tumor r) G1 = true) (visited_rows f)).
  { apply Forall_forall. intros r Hr. apply visited_rows_in in Hr.
    unfold has_node, Dict.mem. rewrite Hn1.
    assert (Hin : In (tumor r) tissue_types) by (apply tissue_types_In; eauto).
    apply existsb_eqb_In in Hin. now rewrite Hin. }
  destruct (gene_loop_facts (visited_rows f) G1 Hwf1 Hall) as (_ & _ & _ & Hd2).
  auto.
Qed.

End GraphFacts.

(** ** Node types in the returned graph *)

Section NodeTypes.
Context {sorter : SortValues}.
Variable normal : RandomSource.
Variable f : list Row.
Variable c : string.

Let tissue_types := unique (map tumor f).
Let G := st_G (build_graph normal f c).

Lemma node_attrs_build n :
  node_attrs n G
  = if existsb (String.eqb n) tissue_types
    then tissue_attrs (Counter (map tumor f) n)
    else if String.eqb n c then central_attrs
    else match find (fun r => names r n) (visited_rows f) with
         | Some r => gene_attrs r
         | None => no_attrs
         end.
Proof.
  unfold node_attrs, Dict.get_default, G. rewrite build_node_get.
  fold tissue_types.
  destruct (existsb (String.eqb n) tissue_types); auto.
  destruct (String.eqb n c); auto.
  now destruct (find _ (visited_rows f)).
Qed.

Lemma in_nodes_build n :
  In n (nodes G)
  <-> In n tissue_types \/ n = c \/ exists r, In r (visited_rows f) /\ gene_symbol r = n.
Proof.
  unfold nodes. rewrite <- get_In_keys. unfold G. rewrite build_node_get.
  fold tissue_types.
  destruct (existsb (String.eqb n) tissue_types) eqn:Et.
  - apply existsb_eqb_In in Et. split; [auto | discriminate].
  - apply existsb_eqb_not_In in Et.
    destruct (String.eqb_spec n c) as [->|Hc].
    + split; [auto | discriminate].
    + destruct (find (fun r => names r n) (visited_rows f)) as [r|] eqn:Ef; simpl.
      * apply find_some in Ef. destruct Ef as [Hin Hn].
        apply String.eqb_eq in Hn. split; [|discriminate].
        intros _. right. right. eauto.
      * split; [congruence|]. intros [H|[H|[r [Hin Hr]]]]; try contradiction.
        exfalso. apply (find_none _ _ Ef) in Hin. unfold names in Hin.
        rewrite Hr, String.eqb_refl in Hin. discriminate.
Qed.

Lemma is_tissue_build n : is_node_type Tissue G n = true <-> In n tissue_types.
Proof.
  unfold is_node_type. rewrite node_attrs_build.
  destruct (existsb (String.eqb n) tissue_types) eqn:Et.
  - apply existsb_eqb_In in Et. simpl. tauto.
  - apply existsb_eqb_not_In in Et.
    destruct (String.eqb n c); simpl; [split; [discriminate | tauto]|].
    destruct (find _ (visited_rows f)); simpl; split; try discriminate; tauto.
Qed.

Lemma is_gene_build n :
  is_node_type Gene G n = true
  <-> ~ In n tissue_types /\ n <> c
      /\ exists r, find (fun r => names r n) (visited_rows f) = Some r.
Proof.
  unfold is_node_type. rewrite node_attrs_build.
  destruct (existsb (String.eqb n) tissue_types) eqn:Et.
  - apply existsb_eqb_In in Et. simpl. split; [discriminate | tauto].
  - apply existsb_eqb_not_In in Et.
    destruct (String.eqb_spec n c) as [->|Hc]; simpl.
    + split; [discriminate | tauto].
    + destruct (find _ (visited_rows f)) as [r|]; simpl.
      * split; eauto.
      * split; [discriminate|]. intros (_ & _ & r & Hr). discriminate.
Qed.

End NodeTypes.

(** ** Serialised records and the nodes they come from *)

Lemma NoDup_same_length {A : Type} (l l' : list A) :
  NoDup l -> NoDup l' -> (forall x, In x l <-> In x l') ->
  List.length l = List.length l'.
Proof.
  intros H1 H2 H. apply Permutation_length. now apply NoDup_Permutation.
Qed.

Lemma node_data_ids ty c colors G pos ns :
  ty <> Central ->
  map nd_id (records_of_type ty (flat_map (node_data c colors G pos) ns))
  = filter (fun n => negb (String.eqb n c) && is_node_type ty G n) ns.
Proof.
  intros Hty. induction ns as [|n ns IH]; simpl; auto.
  unfold records_of_type in *. rewrite filter_app, map_app, IH.
  unfold node_data, is_node_type.
  destruct (String.eqb n c); simpl; auto.
  destruct (node_type (node_attrs n G)) as [[| |]|]; simpl;
    destruct ty; simpl; auto; contradiction.
Qed.

Lemma in_node_data nd c colors G pos n :
  In nd (node_data c colors G pos n) ->
  nd_id nd = n /\ n <> c /\ node_type (node_attrs n G) = Some (nd_node_type nd).
Proof.
  unfold node_data. destruct (String.eqb_spec n c) as [|Hne]; [intros []|].
  destruct (node_type (node_attrs n G)) as [[| |]|]; simpl;
    intros H; try contradiction; destruct H as [<-|[]]; simpl; auto.
Qed.

Lemma in_nodes_data_of nd c colors G pos :
  In nd (nodes_data_of c colors G pos) <->
  nd = central_data c pos
  \/ exists n, In n (nodes G) /\ In nd (node_data c colors G pos n).
Proof.
  unfold nodes_data_of. simpl. rewrite in_flat_map. intuition.
Qed.

Lemma records_of_type_length ty c colors G pos :
  ty <> Central ->
  List.length (records_of_type ty (nodes_data_of c colors G pos))
  = List.length (filter (fun n => negb (String.eqb n c) && is_node_type ty G n) (nodes G)).
Proof.
  intros Hty. rewrite <- (node_data_ids ty c colors G pos) by assumption.
  rewrite length_map. unfold nodes_data_of, records_of_type. simpl.
  destruct ty; simpl; auto. contradiction.
Qed.

(** ** C5: as many tissue nodes as distinct tissue labels *)

(** C5.  For every table and every central node, the number of tissue nodes
    of the graph the function returns equals the number of distinct
    [Tumor] labels among the rows with [PCC >= 0.8]: the tissue nodes are
    these labels, each once.  The serialisation skips the node named like
    the central node, so [nodes_data] holds one tissue record for every
    such label other than [central_node]. *)
Theorem C5_tissue_node_count :
  forall (sorter : SortValues) (normal : RandomSource) (df : list Row) (c : string),
    let labels := nodup string_dec (map tumor (filter_pcc df)) in
    let G := graph_of normal df c in
    List.length (tissue_nodes G) = List.length labels
    /\ NoDup (tissue_nodes G)
    /\ (forall t, In t (tissue_nodes G)
                  <-> exists r, In r df /\ (0.8 <= pcc r)%Q /\ tumor r = t)
    /\ List.length (records_of_type Tissue (nodes_data normal df c))
       = List.length (filter (fun t => negb (String.eqb t c)) labels).
Proof.
  intros sorter normal df c labels G.
  pose proof (build_nodes_NoDup normal (filter_pcc df) c) as Hnd.
  assert (Hin : forall n, In n (tissue_nodes G) <-> In n (map tumor (filter_pcc df))).
  { intros n. unfold tissue_nodes, G, graph_of. rewrite filter_In.
    rewrite is_tissue_build, in_nodes_build, unique_In. tauto. }
  split; [|split; [|split]].
  - apply NoDup_same_length.
    + now apply NoDup_filter.
    + apply NoDup_nodup.
    + intros n. unfold labels. rewrite nodup_In. apply Hin.
  - now apply NoDup_filter.
  - intros t. rewrite Hin, in_map_iff. split.
    + intros (r & Ht & Hr). unfold filter_pcc in Hr. apply filter_In in Hr.
      destruct Hr as [Hr Hp]. apply Qle_bool_iff in Hp. exists r. auto.
    + intros (r & Hr & Hp & Ht). exists r. split; [exact Ht|].
      unfold filter_pcc. apply filter_In. split; [exact Hr|].
      now apply Qle_bool_iff.
  - unfold nodes_data. rewrite records_of_type_length by discriminate.
    apply NoDup_same_length.
    + now apply NoDup_filter.
    + apply NoDup_filter, NoDup_nodup.
    + intros n. rewrite !filter_In, andb_true_iff. unfold labels.
      rewrite nodup_In, is_tissue_build, in_nodes_build, unique_In. tauto.
Qed.

Lemma in_node_data_tissue nd c colors G pos n :
  In nd (node_data c colors G pos n) -> nd_node_type nd = Tissue ->
  nd_gene_count nd
  = Some (match gene_count (node_attrs n G) with Some k => k | None => 0 end).
Proof.
  unfold node_data. destruct (String.eqb n c); [intros []|].
  destruct (node_type (node_attrs n G)) as [[| |]|]; simpl;
    intros H; try contradiction; destruct H as [<-|[]]; simpl; auto; discriminate.
Qed.

Lemma in_node_data_gene nd c colors G pos n :
  In nd (node_data c colors G pos n) -> nd_node_type nd = Gene ->
  nd_pcc nd = Some (match attr_pcc (node_attrs n G) with Some p => p | None => 0%Q end)
  /\ nd_tissue nd = attr_tissue (node_attrs n G)
  /\ nd_x nd = fst (position n pos) /\ nd_y nd = snd (position n pos).
Proof.
  unfold node_data. destruct (String.eqb n c); [intros []|].
  destruct (node_type (node_attrs n G)) as [[| |]|]; simpl;
    intros H; try contradiction; destruct H as [<-|[]]; simpl; auto; discriminate.
Qed.

Lemma Counter_rows_of_tissue f t :
  Counter (map tumor f) t = List.length (rows_of_tissue t f).
Proof.
  unfold Counter, rows_of_tissue. induction f as [|r f IH]; simpl; auto.
  destruct (string_dec (tumor r) t) as [E|E].
  - rewrite E, String.eqb_refl. simpl. now rewrite IH.
  - apply String.eqb_neq in E. now rewrite E.
Qed.

Section Attached.
Context {sorter : SortValues}.
Variable normal : RandomSource.
Variable f : list Row.
Variable c : string.

(** Every tissue label other than the central node's name has its record. *)
Lemma tissue_record_exists t :
  In t (unique (map tumor f)) -> t <> c ->
  exists nd,
    In nd (nodes_data_of c (tissue_colors_of (unique (map tumor f)))
             (st_G (build_graph normal f c)) (st_positions (build_graph normal f c)))
    /\ nd_id nd = t /\ nd_node_type nd = Tissue.
Proof.
  intros Ht Hc.
  pose proof (proj2 (is_tissue_build normal f c t) Ht) as Hty.
  unfold is_node_type in Hty.
  destruct (node_type (node_attrs t (st_G (build_graph normal f c))))
    as [[| |]|] eqn:E; try discriminate.
  eexists. split.
  - apply in_nodes_data_of. right. exists t. split.
    + apply in_nodes_build. now left.
    + unfold node_data. apply String.eqb_neq in Hc. rewrite Hc, E. now left.
  - simpl. auto.
Qed.

(** The edges of a gene node lead to the tissues whose rows name it. *)
Lemma attached_genes_iff g t :
  In g (attached_genes (st_G (build_graph normal f c)) t)
  <-> In g (map gene_symbol (tissue_genes_of f t))
      /\ g <> c /\ ~ In g (unique (map tumor f)).
Proof.
  unfold attached_genes. rewrite filter_In, andb_true_iff.
  rewrite is_gene_build, in_nodes_build.
  unfold has_edge. rewrite build_edge_weight.
  split.
  - intros (_ & (Hnt & Hnc & r0 & Hr0) & He). split; [|auto].
    destruct (find _ (rev (visited_rows f))) as [r|] eqn:Ef.
    + apply find_some in Ef. destruct Ef as [Hin Hj].
      apply in_rev in Hin. unfold visited_rows in Hin.
      apply in_flat_map in Hin. destruct Hin as (t' & Ht' & Hin).
      pose proof (tissue_genes_in_rows _ _ _ Hin) as [_ Htum].
      unfold joins in Hj. apply orb_prop in Hj.
      destruct Hj as [Hj|Hj]; apply andb_prop in Hj; destruct Hj as [H1 H2];
        apply String.eqb_eq in H1, H2.
      * subst. apply in_map. exact Hin.
      * exfalso. apply Hnt. subst. exact Ht'.
    + exfalso. destruct (existsb (joins g t c) (unique (map tumor f))) eqn:Ex;
        [|discriminate].
      apply existsb_exists in Ex. destruct Ex as (t' & Ht' & Hj).
      unfold joins in Hj. apply orb_prop in Hj.
      destruct Hj as [Hj|Hj]; apply andb_prop in Hj; destruct Hj as [H1 H2];
        apply String.eqb_eq in H1, H2; subst; auto.
  - intros (Hin & Hnc & Hnt).
    apply in_map_iff in Hin. destruct Hin as (r & Hg & Hin).
    pose proof (tissue_genes_in_rows _ _ _ Hin) as [Hf Htum].
    assert (Hts : In t (unique (map tumor f))).
    { apply unique_In, in_map_iff. eauto. }
    assert (Hv : In r (visited_rows f)).
    { unfold visited_rows. apply in_flat_map. eauto. }
    split; [|split].
    + right. right. eauto.
    + split; [exact Hnt|]. split; [exact Hnc|].
      destruct (find (fun r0 => names r0 g) (visited_rows f)) as [r0|] eqn:Ef; eauto.
      exfalso. apply (find_none _ _ Ef) in Hv. unfold names in Hv.
      rewrite Hg, String.eqb_refl in Hv. discriminate.
    + destruct (find _ (rev (visited_rows f))) as [r0|] eqn:Ef; auto.
      exfalso. apply in_rev in Hv. apply (find_none _ _ Ef) in Hv.
      unfold joins in Hv. rewrite Hg, Htum, !String.eqb_refl in Hv. discriminate.
Qed.

Lemma attached_genes_in_rows g t :
  In g (attached_genes (st_G (build_graph normal f c)) t) ->
  exists r, In r (tissue_genes_of f t) /\ gene_symbol r = g.
Proof.
  rewrite attached_genes_iff, in_map_iff. intros [(r & Hg & Hr) _]. eauto.
Qed.

End Attached.

(** ** C10: [gene_count] counts rows, not attached nodes *)

(** C10.  Every tissue record of [nodes_data] carries as [gene_count] the
    number of rows with [PCC >= 0.8] that bear its label, whatever the cap
    and the merging of equal gene names leave of them; and there is a table
    where that number is larger than the number of gene nodes attached to
    the tissue. *)
Theorem C10_gene_count_counts_rows :
  forall (sorter : SortValues) (normal : RandomSource),
    (forall (df : list Row) (c : string) (nd : NodeData),
        In nd (nodes_data normal df c) -> nd_node_type nd = Tissue ->
        nd_gene_count nd
        = Some (List.length (rows_of_tissue (nd_id nd) (filter_pcc df))))
    /\ (exists (df : list Row) (c : string) (nd : NodeData) (k : nat),
           In nd (nodes_data normal df c) /\ nd_node_type nd = Tissue
           /\ nd_gene_count nd = Some k
           /\ List.length (attached_genes (graph_of normal df c) (nd_id nd)) < k).
Proof.
  intros sorter normal.
  assert (Hall : forall (df : list Row) (c : string) (nd : NodeData),
        In nd (nodes_data normal df c) -> nd_node_type nd = Tissue ->
        nd_gene_count nd
        = Some (List.length (rows_of_tissue (nd_id nd) (filter_pcc df)))); [|split; [exact Hall|]].
  - intros df c nd Hin Hty. unfold nodes_data in Hin.
    apply in_nodes_data_of in Hin. destruct Hin as [->|[n [Hn Hin]]]; [discriminate|].
    destruct (in_node_data _ _ _ _ _ _ Hin) as (Hid & Hnc & Htype).
    rewrite (in_node_data_tissue _ _ _ _ _ _ Hin Hty). rewrite Hid.
    rewrite Hty in Htype.
    assert (Hts : In n (unique (map tumor (filter_pcc df)))).
    { apply (proj1 (is_tissue_build normal _ c n)). unfold is_node_type. now rewrite Htype. }
    rewrite node_attrs_build. apply existsb_eqb_In in Hts. rewrite Hts. simpl.
    now rewrite Counter_rows_of_tissue.
  - set (df := range_index 0 [("A", "T", 0.9%Q); ("A", "T", 0.85%Q)]).
    destruct (tissue_record_exists normal (filter_pcc df) "C" "T")
      as (nd & Hin & Hid & Hty); [vm_compute; auto | discriminate |].
    exists df, "C", nd, 2. split; [exact Hin|]. split; [exact Hty|].
    split; [rewrite (Hall df "C" nd Hin Hty), Hid; reflexivity|].
    rewrite Hid.
    assert (Hsub : forall g, In g (attached_genes (graph_of normal df "C") "T") -> g = "A").
    { intros g Hg. apply attached_genes_in_rows in Hg.
      destruct Hg as (r & Hr & <-). apply tissue_genes_in_rows in Hr.
      destruct Hr as [Hr _]. vm_compute in Hr.
      destruct Hr as [<-|[<-|[]]]; reflexivity. }
    assert (Hnd : NoDup (attached_genes (graph_of normal df "C") "T")).
    { apply NoDup_filter, build_nodes_NoDup. }
    destruct (attached_genes (graph_of normal df "C") "T") as [|g1 [|g2 l]];
      simpl; try lia.
    exfalso. inversion Hnd as [|? ? Hnot _]; subst. apply Hnot.
    rewrite (Hsub g1), (Hsub g2); simpl; auto.
Qed.

(** ** C9: a gene node keeps the attributes of its first insertion *)

Lemma add_gene_keeps_attrs g t G r :
  has_node g G = true -> node_attrs g (add_gene t G r) = node_attrs g G.
Proof.
  intros Hg. unfold has_node, Dict.mem in Hg.
  destruct (Dict.get g (g_node G)) as [a|] eqn:E; [|discriminate].
  unfold node_attrs, Dict.get_default. rewrite E.
  unfold add_gene. destruct (has_node (gene_symbol r) G) eqn:Hr.
  - now rewrite (get_node_add_edge _ _ _ _ _ _ E).
  - erewrite get_node_add_edge; [reflexivity|].
    rewrite g_node_add_node, get_set.
    destruct (String.eqb_spec g (gene_symbol r)) as [Heq|]; auto.
    subst g. unfold has_node, Dict.mem in Hr. now rewrite E in Hr.
Qed.

(** C9.  A gene node is known by its name alone: the returned graph has one
    node per name, and a later row of the same name, in whatever tissue,
    leaves the node's attributes as they are.  So the [pcc] and [tissue]
    of a gene node, in the graph and in [nodes_data], are those of the first
    row of that name the loop visits. *)
Theorem C9_first_insertion_kept :
  forall (sorter : SortValues) (normal : RandomSource) (df : list Row)
         (c g : string),
    is_node_type Gene (graph_of normal df c) g = true ->
    NoDup (nodes (graph_of normal df c))
    /\ (forall t G0 r', has_node g G0 = true ->
                        node_attrs g (add_gene t G0 r') = node_attrs g G0)
    /\ exists r,
        find (fun r => names r g) (visited_rows (filter_pcc df)) = Some r
        /\ node_attrs g (graph_of normal df c) = gene_attrs r
        /\ forall nd, In nd (nodes_data normal df c) -> nd_id nd = g ->
                      nd_node_type nd = Gene
                      /\ nd_pcc nd = Some (pcc r)
                      /\ nd_tissue nd = Some (tumor r).
Proof.
  intros sorter normal df c g Hg.
  split; [apply build_nodes_NoDup|].
  split; [intros t G0 r'; apply add_gene_keeps_attrs|].
  unfold graph_of in *.
  pose proof (proj1 (is_gene_build normal _ _ _) Hg) as (Hnt & Hnc & r & Hr).
  exists r. split; [exact Hr|].
  assert (Hattrs : node_attrs g (st_G (build_graph normal (filter_pcc df) c))
                   = gene_attrs r).
  { rewrite node_attrs_build.
    apply existsb_eqb_not_In in Hnt. rewrite Hnt.
    apply String.eqb_neq in Hnc. rewrite Hnc. now rewrite Hr. }
  split; [exact Hattrs|].
  intros nd Hin Hid. unfold nodes_data in Hin.
  apply in_nodes_data_of in Hin. destruct Hin as [->|[n [Hn Hin]]].
  - simpl in Hid. congruence.
  - destruct (in_node_data _ _ _ _ _ _ Hin) as (Hid' & _ & Htype).
    rewrite Hid in Hid'. subst n.
    rewrite Hattrs in Htype. simpl in Htype.
    assert (Hty : nd_node_type nd = Gene) by congruence.
    destruct (in_node_data_gene _ _ _ _ _ _ Hin Hty) as (Hp & Ht & _).
    rewrite Hattrs in Hp, Ht. simpl in Hp, Ht. auto.
Qed.

(** A gene named in two tissues: the node keeps the first tissue's score
    although the second one is higher. *)
Lemma C9_witness :
  let df := range_index 0 [("A", "T", 0.9%Q); ("A", "U", 0.95%Q)] in
  is_node_type Gene (@graph_of stable_sorter no_noise df "GCH1") "A" = true
  /\ node_attrs "A" (@graph_of stable_sorter no_noise df "GCH1")
     = mkAttrs (Some Gene) None (Some 0.9%Q) (Some "T").
Proof.
  intros df. split; [vm_compute; reflexivity|].
  destruct (@C9_first_insertion_kept stable_sorter no_noise df "GCH1" "A")
    as (_ & _ & r & Hr & Hattrs & _); [vm_compute; reflexivity|].
  vm_compute in Hr. injection Hr as <-. exact Hattrs.
Defined.

(** ** The adjacency of the returned graph and [G.edges()] *)

Lemma adj_ok_add_node n a G : adj_ok G -> adj_ok (add_node n a G).
Proof.
  unfold adj_ok, add_node. intros H.
  destruct (Dict.get n (g_node G)); simpl; auto. now apply NoDup_keys_set.
Qed.

Lemma adj_ok_add_edge u v w G : adj_ok G -> adj_ok (add_edge u v w G).
Proof.
  unfold adj_ok, add_edge. intros H. cbn [g_adj].
  repeat apply NoDup_keys_set.
  destruct (has_node u G); destruct (has_node v _); simpl;
    repeat apply NoDup_keys_set; exact H.
Qed.

Lemma adj_ok_tissue_loop c counts ts G :
  adj_ok G -> adj_ok (fold_left (add_tissue c counts) ts G).
Proof.
  revert G. induction ts as [|t ts IH]; simpl; intros G H; auto.
  apply IH. unfold add_tissue. now apply adj_ok_add_edge, adj_ok_add_node.
Qed.

Lemma adj_ok_gene_loop l G : adj_ok G -> adj_ok (fold_left add_gene_row l G).
Proof.
  revert G. induction l as [|r l IH]; simpl; intros G H; auto.
  apply IH. unfold add_gene_row, add_gene. apply adj_ok_add_edge.
  destruct (has_node (gene_symbol r) G); auto. now apply adj_ok_add_node.
Qed.

Lemma adj_ok_build {sorter : SortValues} normal f c :
  adj_ok (st_G (build_graph normal f c)).
Proof.
  rewrite st_G_build_graph.
  apply adj_ok_gene_loop, adj_ok_tissue_loop, adj_ok_add_node. constructor.
Qed.

Lemma In_get_NoDup {V : Type} (d : Dict.t V) k v :
  NoDup (Dict.keys d) -> In (k, v) d -> Dict.get k d = Some v.
Proof.
  induction d as [|[k' v'] d IH]; simpl; [tauto|].
  intros Hnd [H|H].
  - injection H as -> ->. now rewrite String.eqb_refl.
  - inversion Hnd as [|? ? Hnot Hnd']; subst.
    destruct (String.eqb_spec k k') as [->|]; auto.
    exfalso. apply Hnot. apply (in_map fst) in H. exact H.
Qed.

Lemma in_edges_from seen adj u v :
  In (u, v) (edges_from seen adj) ->
  exists nbrs, In (u, nbrs) adj /\ In v (Dict.keys nbrs).
Proof.
  revert seen. induction adj as [|[n nbrs] adj IH]; intros seen; simpl; [tauto|].
  rewrite in_app_iff, in_map_iff. intros [(x & Hx & Hin)|H].
  - injection Hx as -> ->. apply filter_In in Hin. destruct Hin as [Hin _].
    exists nbrs. auto.
  - destruct (IH _ H) as (nbrs' & H1 & H2). exists nbrs'. auto.
Qed.

(** Every pair [G.edges()] yields is an edge of the graph. *)
Lemma in_edges_weight G u v :
  adj_ok G -> In (u, v) (edges G) -> exists w, edge_weight u v G = Some w.
Proof.
  intros Hok Hin. apply in_edges_from in Hin. destruct Hin as (nbrs & H1 & H2).
  unfold edge_weight, neighbours, Dict.get_default.
  rewrite (In_get_NoDup _ _ _ Hok H1).
  apply get_In_keys in H2. destruct (Dict.get v nbrs) as [w|]; [eauto | congruence].
Qed.

Lemma in_links_data_of G ld :
  adj_ok G -> In ld (links_data_of G) ->
  edge_weight (source ld) (target ld) G = Some (value ld).
Proof.
  intros Hok Hin. unfold links_data_of in Hin. apply in_map_iff in Hin.
  destruct Hin as ([u v] & <- & Hin). simpl.
  destruct (in_edges_weight G u v Hok Hin) as (w & Hw). now rewrite Hw.
Qed.

(** ** C4: rows below the threshold leave no trace *)

Lemma filter_pcc_In r df : In r (filter_pcc df) <-> In r df /\ (threshold <= pcc r)%Q.
Proof. unfold filter_pcc. rewrite filter_In, Qle_bool_iff. tauto. Qed.

Lemma filter_pcc_drop df1 r df2 :
  (pcc r < threshold)%Q -> filter_pcc (df1 ++ r :: df2) = filter_pcc (df1 ++ df2).
Proof.
  intros Hlt. unfold filter_pcc. rewrite !filter_app. simpl.
  destruct (Qle_bool threshold (pcc r)) eqn:E; auto.
  apply Qle_bool_iff in E. exfalso. now apply (Qlt_not_le _ _ Hlt).
Qed.

Section Provenance.
Context {sorter : SortValues}.
Variable normal : RandomSource.
Variable df : list Row.
Variable c : string.

(** Every record of [nodes_data] is the central node's or comes from a row
    that passed the filter. *)
Lemma nodes_data_provenance nd :
  In nd (nodes_data normal df c) ->
  match nd_node_type nd with
  | Central => nd_id nd = c
  | Tissue =>
      exists r, In r df /\ (threshold <= pcc r)%Q /\ tumor r = nd_id nd
  | Gene =>
      exists r, In r df /\ (threshold <= pcc r)%Q /\ gene_symbol r = nd_id nd
                /\ nd_pcc nd = Some (pcc r) /\ nd_tissue nd = Some (tumor r)
  end.
Proof.
  intros Hin. unfold nodes_data in Hin. apply in_nodes_data_of in Hin.
  destruct Hin as [->|[n [Hn Hin]]]; [reflexivity|].
  destruct (in_node_data _ _ _ _ _ _ Hin) as (Hid & Hnc & Htype).
  destruct (nd_node_type nd) eqn:Hty.
  - exfalso. rewrite node_attrs_build in Htype.
    destruct (existsb _ _); [discriminate|].
    apply String.eqb_neq in Hnc. rewrite Hnc in Htype.
    destruct (find _ _); discriminate.
  - assert (Hts : In n (unique (map tumor (filter_pcc df)))).
    { apply (proj1 (is_tissue_build normal _ c n)). unfold is_node_type.
      now rewrite Htype. }
    apply unique_In, in_map_iff in Hts. destruct Hts as (r & Hr & Hf).
    apply filter_pcc_In in Hf. exists r. rewrite Hid. tauto.
  - assert (Hg : is_node_type Gene (st_G (build_graph normal (filter_pcc df) c)) n = true).
    { unfold is_node_type. now rewrite Htype. }
    pose proof (proj1 (is_gene_build normal _ _ _) Hg) as (Hnt & _ & r & Hr).
    destruct (in_node_data_gene _ _ _ _ _ _ Hin Hty) as (Hp & Ht & _).
    rewrite node_attrs_build in Hp, Ht.
    apply existsb_eqb_not_In in Hnt. rewrite Hnt in Hp, Ht.
    apply String.eqb_neq in Hnc. rewrite Hnc, Hr in Hp, Ht. simpl in Hp, Ht.
    apply find_some in Hr. destruct Hr as [Hv Hname].
    apply String.eqb_eq in Hname. apply visited_rows_in, filter_pcc_In in Hv.
    exists r. rewrite Hid. tauto.
Qed.

(** Every record of [links_data] is the edge of a row that passed the
    filter, or the edge from the central node to such a row's tissue. *)
Lemma links_data_provenance ld :
  In ld (links_data normal df c) ->
  exists r, In r df /\ (threshold <= pcc r)%Q
    /\ ((joins (source ld) (target ld) c (tumor r) = true
         /\ value ld = central_weight)
        \/ (joins (source ld) (target ld) (gene_symbol r) (tumor r) = true
            /\ value ld = (pcc r * 3)%Q)).
Proof.
  intros Hin. unfold links_data in Hin.
  apply in_links_data_of in Hin; [|apply adj_ok_build].
  rewrite build_edge_weight in Hin.
  destruct (find _ (rev (visited_rows (filter_pcc df)))) as [r|] eqn:Ef.
  - apply find_some in Ef. destruct Ef as [Hv Hj].
    apply in_rev, visited_rows_in, filter_pcc_In in Hv.
    exists r. injection Hin as <-. tauto.
  - destruct (existsb _ _) eqn:Ex; [|discriminate].
    apply existsb_exists in Ex. destruct Ex as (t & Ht & Hj).
    apply unique_In, in_map_iff in Ht. destruct Ht as (r & Hr & Hf).
    apply filter_pcc_In in Hf. subst t.
    exists r. injection Hin as <-. tauto.
Qed.

End Provenance.

(** C4.  A row with [PCC < 0.8] contributes nothing to the serialised
    output: the node and edge records are those of the table without the
    row, every gene record carries name, score and tissue of a row with
    [PCC >= 0.8], every tissue record the label of such a row, and every
    edge record joins such a row's gene and tissue (weight [pcc * 3]) or the
    central node and such a row's tissue. *)
Theorem C4_rows_below_threshold_leave_no_trace :
  forall (sorter : SortValues) (normal : RandomSource)
         (df1 df2 : list Row) (r : Row) (c : string),
    (pcc r < threshold)%Q ->
    nodes_data normal (df1 ++ r :: df2) c = nodes_data normal (df1 ++ df2) c
    /\ links_data normal (df1 ++ r :: df2) c = links_data normal (df1 ++ df2) c
    /\ (forall nd, In nd (nodes_data normal (df1 ++ r :: df2) c) ->
          match nd_node_type nd with
          | Central => nd_id nd = c
          | Tissue =>
              exists r', In r' (df1 ++ df2) /\ (threshold <= pcc r')%Q
                         /\ tumor r' = nd_id nd
          | Gene =>
              exists r', In r' (df1 ++ df2) /\ (threshold <= pcc r')%Q
                         /\ gene_symbol r' = nd_id nd
                         /\ nd_pcc nd = Some (pcc r') /\ nd_tissue nd = Some (tumor r')
          end)
    /\ (forall ld, In ld (links_data normal (df1 ++ r :: df2) c) ->
          exists r', In r' (df1 ++ df2) /\ (threshold <= pcc r')%Q
            /\ ((joins (source ld) (target ld) c (tumor r') = true
                 /\ value ld = central_weight)
                \/ (joins (source ld) (target ld) (gene_symbol r') (tumor r') = true
                    /\ value ld = (pcc r' * 3)%Q))).
Proof.
  intros sorter normal df1 df2 r c Hlt.
  assert (Hn : nodes_data normal (df1 ++ r :: df2) c = nodes_data normal (df1 ++ df2) c).
  { unfold nodes_data. now rewrite (filter_pcc_drop df1 r df2 Hlt). }
  assert (Hl : links_data normal (df1 ++ r :: df2) c = links_data normal (df1 ++ df2) c).
  { unfold links_data. now rewrite (filter_pcc_drop df1 r df2 Hlt). }
  split; [exact Hn|]. split; [exact Hl|]. split.
  - intros nd Hin. rewrite Hn in Hin. now apply nodes_data_provenance in Hin.
  - intros ld Hin. rewrite Hl in Hin. now apply links_data_provenance in Hin.
Qed.

(** A table whose second row is below the threshold. *)
Lemma C4_witness :
  let r := mkRow 1 "B" "U" 0.79%Q in
  (pcc r < threshold)%Q
  /\ @links_data stable_sorter no_noise ([mkRow 0 "A" "T" 0.9%Q] ++ r :: []) "GCH1"
     = @links_data stable_sorter no_noise ([mkRow 0 "A" "T" 0.9%Q] ++ []) "GCH1".
Proof.
  intros r. split; [reflexivity|].
  apply (@C4_rows_below_threshold_leave_no_trace stable_sorter no_noise
           [mkRow 0 "A" "T" 0.9%Q] [] r "GCH1").
  reflexivity.
Defined.

(** ** The rows a tissue keeps *)

Lemma find_ext_in {A : Type} (p q : A -> bool) (l : list A) :
  (forall x, In x l -> p x = q x) -> find p l = find q l.
Proof.
  induction l as [|x l IH]; simpl; intros H; auto.
  rewrite (H x) by auto. destruct (q x); auto.
Qed.

Lemma find_none_iff {A : Type} (p : A -> bool) (l : list A) :
  (forall x, In x l -> p x = false) -> find p l = None.
Proof.
  induction l as [|x l IH]; simpl; intros H; auto.
  rewrite (H x) by auto. auto.
Qed.

Lemma StronglySorted_app_l {A : Type} (R : A -> A -> Prop) (l1 l2 : list A) :
  StronglySorted R (l1 ++ l2) -> StronglySorted R l1.
Proof.
  induction l1 as [|x l1 IH]; simpl; intros H; [constructor|].
  inversion H as [|? ? Hs Hf]; subst. constructor; auto.
  apply Forall_app in Hf. tauto.
Qed.

Lemma StronglySorted_app_between {A : Type} (R : A -> A -> Prop) (l1 l2 : list A) :
  StronglySorted R (l1 ++ l2) -> forall x y, In x l1 -> In y l2 -> R x y.
Proof.
  induction l1 as [|a l1 IH]; simpl; intros H x y Hx Hy; [contradiction|].
  inversion H as [|? ? Hs Hf]; subst. destruct Hx as [->|Hx].
  - rewrite Forall_forall in Hf. apply Hf, in_or_app. now right.
  - now apply IH.
Qed.

(** The last element that satisfies [p] in a list sorted by descending PCC
    has the least PCC among those that satisfy [p]. *)
Lemma find_last_least (p : Row -> bool) (l : list Row) (r : Row) :
  StronglySorted desc l -> find p (rev l) = Some r ->
  In r l /\ p r = true /\ forall r', In r' l -> p r' = true -> (pcc r <= pcc r')%Q.
Proof.
  induction l as [|x l IH] using rev_ind; simpl; [discriminate|].
  intros Hs. rewrite rev_app_distr. simpl.
  destruct (p x) eqn:Ex.
  - intros [= <-]. split; [apply in_or_app; simpl; auto|]. split; [exact Ex|].
    intros r' Hr' _. apply in_app_or in Hr'. destruct Hr' as [Hr'|[<-|[]]].
    + apply (StronglySorted_app_between _ _ _ Hs r' x); simpl; auto.
    + apply Qle_refl.
  - intros Hf. destruct (IH (StronglySorted_app_l _ _ _ Hs) Hf) as (Hin & Hp & Hleast).
    split; [apply in_or_app; auto|]. split; [exact Hp|].
    intros r' Hr' Hpr'. apply in_app_or in Hr'. destruct Hr' as [Hr'|[<-|[]]]; auto.
    congruence.
Qed.

Lemma limit_genes_prefix l : exists rest, l = limit_genes l ++ rest.
Proof.
  unfold limit_genes. destruct (max_genes_per_tissue <? List.length l).
  - exists (skipn max_genes_per_tissue l). symmetry. apply firstn_skipn.
  - exists []. now rewrite app_nil_r.
Qed.

Section KeptRows.
Context {sorter : SortValues}.
Variable f : list Row.

Lemma tissue_genes_sorted t : StronglySorted desc (tissue_genes_of f t).
Proof.
  unfold tissue_genes_of.
  destruct (limit_genes_prefix (sort_values (rows_of_tissue t f))) as (rest & E).
  apply StronglySorted_app_l with rest. rewrite <- E. apply sort_values_sorted.
Qed.

Lemma tissue_genes_visited t r : In r (tissue_genes_of f t) -> In r (visited_rows f).
Proof.
  intros H. unfold visited_rows. apply in_flat_map. exists t. split; auto.
  apply tissue_genes_in_rows in H. destruct H as [Hf <-].
  apply unique_In, in_map, Hf.
Qed.

Lemma find_flat_map_tissue (p : Row -> bool) t ts :
  NoDup ts -> (forall r, p r = true -> tumor r = t) ->
  find p (rev (flat_map (tissue_genes_of f) ts))
  = if existsb (String.eqb t) ts then find p (rev (tissue_genes_of f t)) else None.
Proof.
  intros Hnd Hp. induction Hnd as [|t' ts Hnot Hnd IH]; simpl; auto.
  rewrite rev_app_distr, find_app, IH.
  destruct (String.eqb_spec t t') as [<-|Hne]; simpl.
  - apply existsb_eqb_not_In in Hnot. rewrite Hnot. reflexivity.
  - assert (Hnone : find p (rev (tissue_genes_of f t')) = None).
    { apply find_none_iff. intros r Hr. apply in_rev in Hr.
      apply tissue_genes_in_rows in Hr. destruct Hr as [_ Ht].
      destruct (p r) eqn:E; auto. apply Hp in E. congruence. }
    rewrite Hnone.
    destruct (existsb (String.eqb t) ts); auto.
    now destruct (find p (rev (tissue_genes_of f t))).
Qed.

(** Among the visited rows, those of tissue [t] are the rows [t] keeps. *)
Lemma find_visited_tissue (p : Row -> bool) t :
  (forall r, p r = true -> tumor r = t) ->
  find p (rev (visited_rows f)) = find p (rev (tissue_genes_of f t)).
Proof.
  intros Hp. unfold visited_rows.
  rewrite (find_flat_map_tissue p t) by (auto using unique_NoDup).
  destruct (existsb (String.eqb t) (unique (map tumor f))) eqn:E; auto.
  symmetry. apply find_none_iff. intros r Hr. exfalso.
  apply in_rev, tissue_genes_in_rows in Hr. destruct Hr as [Hf Ht].
  apply existsb_eqb_not_In in E. apply E. apply unique_In.
  rewrite <- Ht. now apply in_map.
Qed.

End KeptRows.

(** ** C6: edge weights *)

Lemma joins_spec a b u v :
  joins a b u v = true <-> (a = u /\ b = v) \/ (a = v /\ b = u).
Proof.
  unfold joins. rewrite orb_true_iff, !andb_true_iff, !String.eqb_eq. tauto.
Qed.

Section EdgeWeights.
Context {sorter : SortValues}.
Variable normal : RandomSource.
Variable f : list Row.
Variable c : string.

Let tissue_types := unique (map tumor f).
Let G := st_G (build_graph normal f c).

(** No visited row names the central node or a tissue. *)
Hypothesis no_clash :
  forall r, In r (visited_rows f) ->
            gene_symbol r <> c /\ ~ In (gene_symbol r) tissue_types.

Lemma visited_tumor_in_types r : In r (visited_rows f) -> In (tumor r) tissue_types.
Proof.
  intros H. apply visited_rows_in in H. apply unique_In. now apply in_map.
Qed.

(** The rows that write the edge of a visited row are the rows of its
    tissue that bear its name. *)
Lemma find_edge_writer a b r0 :
  In r0 (visited_rows f) ->
  joins a b (gene_symbol r0) (tumor r0) = true ->
  find (fun r => joins a b (gene_symbol r) (tumor r)) (rev (visited_rows f))
  = find (fun r => names r (gene_symbol r0)) (rev (tissue_genes_of f (tumor r0))).
Proof.
  intros Hr0 Hj.
  pose proof (visited_tumor_in_types r0 Hr0) as Ht0.
  destruct (no_clash r0 Hr0) as [_ Hg0].
  rewrite (find_ext_in _ (fun r => names r (gene_symbol r0)
                                   && String.eqb (tumor r) (tumor r0))).
  - rewrite (find_visited_tissue f _ (tumor r0)).
    + apply find_ext_in. intros x Hx. apply in_rev, tissue_genes_in_rows in Hx.
      destruct Hx as [_ ->]. now rewrite String.eqb_refl, andb_true_r.
    + intros r Hr. apply andb_prop in Hr. now apply String.eqb_eq.
  - intros x Hx. apply in_rev in Hx.
    pose proof (visited_tumor_in_types x Hx) as Htx.
    destruct (no_clash x Hx) as [_ Hgx].
    apply eq_true_iff_eq. unfold names.
    rewrite joins_spec, andb_true_iff, !String.eqb_eq.
    apply joins_spec in Hj.
    split.
    + intros [[E1 E2]|[E1 E2]]; destruct Hj as [[F1 F2]|[F1 F2]].
      * split; congruence.
      * exfalso. apply Hgx.
        replace (gene_symbol x) with (tumor r0) by congruence. exact Ht0.
      * exfalso. apply Hg0.
        replace (gene_symbol r0) with (tumor x) by congruence. exact Htx.
      * split; congruence.
    + intros [E1 E2]. rewrite E1, E2. tauto.
Qed.

Lemma central_edge_weight t :
  In t tissue_types -> edge_weight c t G = Some central_weight.
Proof.
  intros Ht. unfold G. rewrite build_edge_weight.
  rewrite find_none_iff.
  - fold tissue_types.
    assert (E : existsb (joins c t c) tissue_types = true).
    { apply existsb_exists. exists t. split; auto. apply joins_spec. auto. }
    now rewrite E.
  - intros x Hx. apply in_rev in Hx. destruct (no_clash x Hx) as [Hc Hg].
    destruct (joins c t (gene_symbol x) (tumor x)) eqn:E; auto.
    apply joins_spec in E. destruct E as [[E1 E2]|[E1 E2]].
    + congruence.
    + exfalso. apply Hg. now rewrite <- E2.
Qed.

Lemma gene_edge_weight t g :
  In g (map gene_symbol (tissue_genes_of f t)) ->
  exists r, In r (tissue_genes_of f t) /\ gene_symbol r = g
    /\ edge_weight g t G = Some (pcc r * 3)%Q
    /\ forall r', In r' (tissue_genes_of f t) -> gene_symbol r' = g ->
                  (pcc r <= pcc r')%Q.
Proof.
  intros Hg. apply in_map_iff in Hg. destruct Hg as (r0 & Hg0 & Hr0).
  pose proof (tissue_genes_in_rows _ _ _ Hr0) as [_ Ht0].
  pose proof (tissue_genes_visited f t r0 Hr0) as Hv0.
  unfold G. rewrite build_edge_weight.
  rewrite (find_edge_writer g t r0 Hv0) by (apply joins_spec; auto).
  rewrite Ht0, Hg0.
  destruct (find (fun r => names r g) (rev (tissue_genes_of f t))) as [r|] eqn:Ef.
  - destruct (find_last_least _ _ _ (tissue_genes_sorted f t) Ef) as (Hin & Hp & Hleast).
    apply String.eqb_eq in Hp. exists r. repeat split; auto.
    intros r' Hr' Hg'. apply Hleast; auto. unfold names. rewrite Hg'.
    apply String.eqb_refl.
  - exfalso. apply in_rev in Hr0. apply (find_none _ _ Ef) in Hr0.
    unfold names in Hr0. rewrite Hg0, String.eqb_refl in Hr0. discriminate.
Qed.

Lemma link_weight ld :
  In ld (links_data_of G) ->
  (exists t, In t tissue_types /\ joins (source ld) (target ld) c t = true
             /\ value ld = central_weight)
  \/ (exists r, In r (visited_rows f)
        /\ joins (source ld) (target ld) (gene_symbol r) (tumor r) = true
        /\ value ld = (pcc r * 3)%Q
        /\ forall r', In r' (tissue_genes_of f (tumor r)) ->
                      gene_symbol r' = gene_symbol r -> (pcc r <= pcc r')%Q).
Proof.
  intros Hin. apply in_links_data_of in Hin; [|apply adj_ok_build].
  unfold G in Hin. rewrite build_edge_weight in Hin.
  destruct (find _ (rev (visited_rows f))) as [r|] eqn:Ef.
  - right. pose proof (find_some _ _ Ef) as [Hv Hj]. apply in_rev in Hv.
    rewrite (find_edge_writer _ _ r Hv Hj) in Ef.
    destruct (find_last_least _ _ _ (tissue_genes_sorted f (tumor r)) Ef)
      as (_ & _ & Hleast).
    exists r. injection Hin as <-. repeat split; auto.
    intros r' Hr' Hg'. apply Hleast; auto. unfold names. rewrite Hg'.
    apply String.eqb_refl.
  - left. fold tissue_types in Hin.
    destruct (existsb (joins (source ld) (target ld) c) tissue_types) eqn:Ex;
      [|discriminate].
    apply existsb_exists in Ex. destruct Ex as (t & Ht & Hj).
    exists t. injection Hin as <-. auto.
Qed.

End EdgeWeights.

(** C6, as the code has it.  When no visited row names the central node or
    a tissue: every edge from the central node to a tissue weighs 5.0;
    the edge between a gene and a tissue weighs three times the least
    score among the rows that tissue keeps under that gene's name (the last
    such row visited, while the gene node keeps the score of the first);
    and [links_data] holds nothing but such edges. *)
Theorem C6_edge_weights :
  forall (sorter : SortValues) (normal : RandomSource) (df : list Row) (c : string),
    (forall r, In r (visited_rows (filter_pcc df)) ->
               gene_symbol r <> c
               /\ ~ In (gene_symbol r) (unique (map tumor (filter_pcc df)))) ->
    (forall t, In t (unique (map tumor (filter_pcc df))) ->
               edge_weight c t (graph_of normal df c) = Some central_weight)
    /\ (forall t g,
           In g (map gene_symbol (tissue_genes_of (filter_pcc df) t)) ->
           exists r, In r (tissue_genes_of (filter_pcc df) t) /\ gene_symbol r = g
             /\ edge_weight g t (graph_of normal df c) = Some (pcc r * 3)%Q
             /\ forall r', In r' (tissue_genes_of (filter_pcc df) t) ->
                           gene_symbol r' = g -> (pcc r <= pcc r')%Q)
    /\ (forall ld, In ld (links_data normal df c) ->
          (exists t, In t (unique (map tumor (filter_pcc df)))
                     /\ joins (source ld) (target ld) c t = true
                     /\ value ld = central_weight)
          \/ (exists r, In r (visited_rows (filter_pcc df))
                /\ joins (source ld) (target ld) (gene_symbol r) (tumor r) = true
                /\ value ld = (pcc r * 3)%Q
                /\ forall r', In r' (tissue_genes_of (filter_pcc df) (tumor r)) ->
                              gene_symbol r' = gene_symbol r -> (pcc r <= pcc r')%Q)).
Proof.
  intros sorter normal df c Hno. split; [|split].
  - intros t Ht. now apply (central_edge_weight normal (filter_pcc df) c Hno).
  - intros t g Hg. now apply (gene_edge_weight normal (filter_pcc df) c Hno).
  - intros ld Hin. now apply (link_weight normal (filter_pcc df) c Hno).
Qed.

(** On [table_clash] the row that names the central node overwrites the
    weight of the edge from the central node to the tissue, and the second
    row of gene A overwrites the weight its first row gave the edge, while
    the node keeps the first row's score. *)
Lemma C6_counterexample :
  let G := @graph_of stable_sorter no_noise table_clash "GCH1" in
  (is_node_type Central G "GCH1" = true
   /\ is_node_type Tissue G "Liver" = true
   /\ edge_weight "GCH1" "Liver" G = Some 2.7%Q
   /\ ~ (2.7 == central_weight)%Q
   /\ In (mkLinkData "GCH1" "Liver" 2.7%Q)
         (@links_data stable_sorter no_noise table_clash "GCH1"))
  /\ (node_attrs "A" G = mkAttrs (Some Gene) None (Some 0.95%Q) (Some "Liver")
      /\ edge_weight "A" "Liver" G = Some 2.55%Q
      /\ ~ (2.55 == 0.95 * 3)%Q
      /\ In (mkLinkData "Liver" "A" 2.55%Q)
            (@links_data stable_sorter no_noise table_clash "GCH1")).
Proof.
  intros G. split.
  - split; [reflexivity|]. split; [reflexivity|]. split; [reflexivity|].
    split; [intros H; vm_compute in H; discriminate|].
    vm_compute. auto.
  - split; [reflexivity|]. split; [reflexivity|].
    split; [intros H; vm_compute in H; discriminate|].
    vm_compute. auto.
Qed.

Lemma C6_witness :
  (forall r, In r (@visited_rows stable_sorter (filter_pcc table_plain)) ->
             gene_symbol r <> "GCH1"
             /\ ~ In (gene_symbol r) (unique (map tumor (filter_pcc table_plain))))
  /\ edge_weight "GCH1" "T" (@graph_of stable_sorter no_noise table_plain "GCH1")
     = Some central_weight
  /\ exists r, In r (@tissue_genes_of stable_sorter (filter_pcc table_plain) "T")
       /\ gene_symbol r = "A"
       /\ edge_weight "A" "T" (@graph_of stable_sorter no_noise table_plain "GCH1")
          = Some (pcc r * 3)%Q
       /\ forall r', In r' (@tissue_genes_of stable_sorter (filter_pcc table_plain) "T") ->
                     gene_symbol r' = "A" -> (pcc r <= pcc r')%Q.
Proof.
  assert (Hno : forall r,
             In r (@visited_rows stable_sorter (filter_pcc table_plain)) ->
             gene_symbol r <> "GCH1"
             /\ ~ In (gene_symbol r) (unique (map tumor (filter_pcc table_plain)))).
  { intros r Hr. vm_compute in Hr.
    destruct Hr as [<-|[<-|[<-|[]]]]; (split; [discriminate|]);
      vm_compute; intros [H|[H|[]]]; discriminate. }
  split; [exact Hno|].
  destruct (@C6_edge_weights stable_sorter no_noise table_plain "GCH1" Hno)
    as (Hcentral & Hgene & _).
  split.
  - apply Hcentral. vm_compute. auto.
  - apply Hgene. vm_compute. auto.
Defined.

(** ** C1: the rows and genes a tissue keeps *)

Lemma limit_genes_length l :
  List.length (limit_genes l) = Nat.min (List.length l) max_genes_per_tissue.
Proof.
  unfold limit_genes.
  destruct (Nat.ltb_spec max_genes_per_tissue (List.length l)).
  - rewrite length_firstn. lia.
  - lia.
Qed.

Lemma unique_length_le l : List.length (unique l) <= List.length l.
Proof.
  apply NoDup_incl_length; [apply unique_NoDup|].
  intros x Hx. now apply unique_In.
Qed.

Lemma unique_length_NoDup l : NoDup l -> List.length (unique l) = List.length l.
Proof.
  intros H. apply NoDup_same_length; auto using unique_NoDup.
  intros x. apply unique_In.
Qed.

(** The stable sort keeps rows of equal score in their original order. *)
Lemma insert_desc_stable (q : Q) r l :
  filter (fun x => Qeq_bool (pcc x) q) (insert_desc r l)
  = filter (fun x => Qeq_bool (pcc x) q) (r :: l).
Proof.
  induction l as [|h l IH]; [reflexivity|].
  cbn [insert_desc]. destruct (Qle_bool (pcc h) (pcc r)) eqn:E; [reflexivity|].
  cbn [filter] in *. rewrite IH.
  destruct (Qeq_bool (pcc r) q) eqn:Er; destruct (Qeq_bool (pcc h) q) eqn:Eh; auto.
  exfalso. apply Qeq_bool_iff in Er, Eh.
  assert (Hle : (pcc h <= pcc r)%Q) by (rewrite Er, Eh; apply Qle_refl).
  apply Qle_bool_iff in Hle. congruence.
Qed.

Lemma stable_sort_keeps_row_order (q : Q) l :
  filter (fun x => Qeq_bool (pcc x) q) (stable_sort_desc l)
  = filter (fun x => Qeq_bool (pcc x) q) l.
Proof.
  induction l as [|r l IH]; [reflexivity|].
  cbn [stable_sort_desc]. rewrite insert_desc_stable. cbn [filter].
  now rewrite IH.
Qed.

Section Retained.
Context {sorter : SortValues}.
Variable normal : RandomSource.
Variable f : list Row.
Variable c : string.
Variable t : string.

Let rows_t := rows_of_tissue t f.
Let kept := tissue_genes_of f t.
Let G := st_G (build_graph normal f c).

Lemma kept_highest :
  exists dropped,
    Permutation (kept ++ dropped) rows_t
    /\ forall r r', In r kept -> In r' dropped -> (pcc r' <= pcc r)%Q.
Proof.
  unfold kept, tissue_genes_of. fold rows_t.
  destruct (limit_genes_prefix (sort_values rows_t)) as (rest & E).
  exists rest. split.
  - rewrite <- E. apply sort_values_perm.
  - intros r r' Hr Hr'.
    apply (StronglySorted_app_between desc (limit_genes (sort_values rows_t)) rest);
      auto.
    rewrite <- E. apply sort_values_sorted.
Qed.

Lemma kept_length :
  List.length kept = Nat.min (List.length rows_t) max_genes_per_tissue.
Proof.
  unfold kept, tissue_genes_of. rewrite limit_genes_length.
  now rewrite (Permutation_length (sort_values_perm _)).
Qed.

Lemma kept_incl : incl kept rows_t.
Proof.
  intros r Hr. unfold kept, tissue_genes_of in Hr. apply limit_genes_incl in Hr.
  now apply (Permutation_in _ (sort_values_perm _)) in Hr.
Qed.

Lemma attached_NoDup : NoDup (attached_genes G t).
Proof. apply NoDup_filter, build_nodes_NoDup. Qed.

Lemma attached_length_le :
  List.length (attached_genes G t)
  <= Nat.min (List.length (unique (map gene_symbol rows_t))) max_genes_per_tissue.
Proof.
  assert (H1 : List.length (attached_genes G t)
               <= List.length (unique (map gene_symbol kept))).
  { apply NoDup_incl_length; [apply attached_NoDup|].
    intros g Hg. apply unique_In. now apply attached_genes_iff in Hg. }
  assert (H2 : List.length (unique (map gene_symbol kept))
               <= List.length (unique (map gene_symbol rows_t))).
  { apply NoDup_incl_length; [apply unique_NoDup|].
    intros g Hg. apply (proj2 (unique_In _ _)). apply (proj1 (unique_In _ _)) in Hg.
    apply in_map_iff in Hg. destruct Hg as (r & <- & Hr).
    apply in_map, kept_incl, Hr. }
  pose proof (unique_length_le (map gene_symbol kept)) as H3.
  rewrite length_map, kept_length in H3. lia.
Qed.

Lemma attached_length_eq :
  (NoDup (map gene_symbol rows_t) \/ List.length rows_t <= max_genes_per_tissue) ->
  (forall r, In r rows_t ->
             gene_symbol r <> c /\ ~ In (gene_symbol r) (unique (map tumor f))) ->
  List.length (attached_genes G t)
  = Nat.min (List.length (unique (map gene_symbol rows_t))) max_genes_per_tissue.
Proof.
  intros Hcase Hno.
  assert (Hsame : forall g, In g (attached_genes G t) <-> In g (map gene_symbol kept)).
  { intros g. unfold G. rewrite attached_genes_iff. fold kept. split; [tauto|].
    intros Hg. split; auto. apply in_map_iff in Hg. destruct Hg as (r & <- & Hr).
    apply Hno, kept_incl, Hr. }
  destruct Hcase as [Hnd|Hlen].
  - assert (Hndk : NoDup (map gene_symbol kept)).
    { unfold kept, tissue_genes_of. fold rows_t.
      destruct (limit_genes_prefix (sort_values rows_t)) as (rest & E).
      assert (Hs : NoDup (map gene_symbol (sort_values rows_t))).
      { eapply Permutation_NoDup; [|exact Hnd].
        apply Permutation_map. symmetry. apply sort_values_perm. }
      rewrite E, map_app in Hs. now apply NoDup_app_remove_r in Hs. }
    rewrite (NoDup_same_length _ _ attached_NoDup Hndk Hsame).
    rewrite length_map, kept_length, (unique_length_NoDup _ Hnd), length_map.
    reflexivity.
  - assert (Hk : kept = sort_values rows_t).
    { unfold kept, tissue_genes_of, limit_genes. fold rows_t.
      destruct (Nat.ltb_spec max_genes_per_tissue (List.length (sort_values rows_t)))
        as [Hlt|]; auto.
      rewrite (Permutation_length (sort_values_perm _)) in Hlt. lia. }
    assert (Heq : List.length (attached_genes G t)
                  = List.length (unique (map gene_symbol rows_t))).
    { apply NoDup_same_length; [apply attached_NoDup | apply unique_NoDup |].
      intros g. rewrite Hsame, unique_In, Hk. split; apply Permutation_in;
        apply Permutation_map; [|symmetry]; apply sort_values_perm. }
    pose proof (unique_length_le (map gene_symbol rows_t)) as Hle.
    rewrite length_map in Hle. lia.
Qed.

End Retained.

(** C1, as the code has it.  For every tissue label [t]: the rows kept are
    the first [min(n, 150)] of the [n] rows of [t] in descending score, so
    no dropped row scores higher than a kept one (which of several rows of
    equal score at the cut is kept is the sort's choice); the gene nodes
    attached to [t] are the distinct names of the kept rows, the names of
    the central node and of tissues apart.  Their number is at most
    [min(distinct names of t, 150)], and equal to it when no row of [t]
    names the central node or a tissue and either the names of [t] are
    pairwise distinct or [t] has at most 150 rows. *)
Theorem C1_retained_items :
  forall (sorter : SortValues) (normal : RandomSource) (df : list Row)
         (c t : string),
    let f := filter_pcc df in
    let rows_t := rows_of_tissue t f in
    let kept := tissue_genes_of f t in
    let G := graph_of normal df c in
    (exists dropped,
        Permutation (kept ++ dropped) rows_t
        /\ forall r r', In r kept -> In r' dropped -> (pcc r' <= pcc r)%Q)
    /\ List.length kept = Nat.min (List.length rows_t) 150
    /\ (forall g, In g (attached_genes G t)
                  <-> In g (map gene_symbol kept) /\ g <> c
                      /\ ~ In g (unique (map tumor f)))
    /\ List.length (attached_genes G t)
       <= Nat.min (List.length (unique (map gene_symbol rows_t))) 150
    /\ ((NoDup (map gene_symbol rows_t) \/ List.length rows_t <= 150) ->
        (forall r, In r rows_t ->
                   gene_symbol r <> c /\ ~ In (gene_symbol r) (unique (map tumor f))) ->
        List.length (attached_genes G t)
        = Nat.min (List.length (unique (map gene_symbol rows_t))) 150).
Proof.
  intros sorter normal df c t f rows_t kept G.
  split; [apply kept_highest|].
  split; [apply kept_length|].
  split; [intros g; apply attached_genes_iff|].
  split; [apply attached_length_le|].
  apply attached_length_eq.
Qed.

(** On [table_151] the tissue has 150 distinct gene names, and 149 gene
    nodes attached: the cut to 150 rows comes before equal names merge. *)
Lemma C1_counterexample :
  let f := filter_pcc table_151 in
  let G := @graph_of stable_sorter no_noise table_151 "GCH1" in
  List.length (unique (map gene_symbol (rows_of_tissue "T" f))) = 150
  /\ List.length (attached_genes G "T") = 149
  /\ List.length (attached_genes G "T")
     <> Nat.min (List.length (unique (map gene_symbol (rows_of_tissue "T" f)))) 150.
Proof.
  intros f G.
  assert (H1 : List.length (unique (map gene_symbol (rows_of_tissue "T" f))) = 150)
    by (vm_compute; reflexivity).
  assert (H2 : List.length (attached_genes G "T") = 149)
    by (vm_compute; reflexivity).
  split; [exact H1|]. split; [exact H2|]. rewrite H1, H2. discriminate.
Qed.

Lemma C1_witness :
  (NoDup (map gene_symbol (rows_of_tissue "U" (filter_pcc table_plain)))
   \/ List.length (rows_of_tissue "U" (filter_pcc table_plain)) <= 150)
  /\ List.length (attached_genes (@graph_of stable_sorter no_noise table_plain "GCH1") "U")
     = 1.
Proof.
  split; [right; vm_compute; lia|].
  destruct (@C1_retained_items stable_sorter no_noise table_plain "GCH1" "U")
    as (_ & _ & _ & _ & Heq).
  rewrite Heq; [reflexivity | right; vm_compute; lia |].
  intros r Hr. vm_compute in Hr. destruct Hr as [<-|[]].
  split; [discriminate|]. vm_compute. intros [H|[H|[]]]; discriminate.
Defined.

(** Which rows of equal score survive the cut depends on the sort: on
    [table_ties] the stable sort keeps the first 150 rows and drops the
    last, the other sort drops the first. *)
Lemma tie_break_depends_on_sort :
  let stable := attached_genes (@graph_of stable_sorter no_noise table_ties "GCH1") "T" in
  let other := attached_genes (@graph_of reverse_tie_sorter no_noise table_ties "GCH1") "T" in
  (In "g0" stable /\ ~ In "g150" stable) /\ (~ In "g0" other /\ In "g150" other).
Proof.
  intros stable other.
  assert (H1 : existsb (String.eqb "g0") stable = true) by (vm_compute; reflexivity).
  assert (H2 : existsb (String.eqb "g150") stable = false) by (vm_compute; reflexivity).
  assert (H3 : existsb (String.eqb "g0") other = false) by (vm_compute; reflexivity).
  assert (H4 : existsb (String.eqb "g150") other = true) by (vm_compute; reflexivity).
  clearbody stable other.
  apply existsb_eqb_In in H1, H4. apply existsb_eqb_not_In in H2, H3.
  exact (conj (conj H1 H2) (conj H3 H4)).
Qed.

(** ** Positions *)

Lemma unique_from_snoc seen l x :
  unique_from seen (l ++ [x])
  = unique_from seen l
    ++ (if existsb (String.eqb x) seen || existsb (String.eqb x) l then [] else [x]).
Proof.
  revert seen. induction l as [|y l IH]; intros seen; simpl.
  - rewrite orb_false_r. now destruct (existsb (String.eqb x) seen).
  - destruct (existsb (String.eqb y) seen) eqn:Ey.
    + rewrite IH. f_equal.
      destruct (String.eqb_spec x y) as [->|]; simpl; auto.
      now rewrite Ey.
    + simpl. rewrite IH. simpl. f_equal. f_equal.
      destruct (String.eqb x y); simpl; auto.
      now rewrite orb_true_r.
Qed.

(** [unique] lists the labels in the order of their first appearance: its
    [i]-th label first appears where [i] distinct labels have gone before. *)
Lemma unique_first_seen l i t :
  nth_error (unique l) i = Some t ->
  exists k, nth_error l k = Some t /\ ~ In t (firstn k l)
            /\ List.length (unique (firstn k l)) = i.
Proof.
  revert i. induction l as [|x l IH] using rev_ind; intros i.
  - destruct i; discriminate.
  - unfold unique. rewrite unique_from_snoc. fold (unique l). simpl.
    intros H. destruct (Nat.lt_ge_cases i (List.length (unique l))) as [Hlt|Hge].
    + rewrite nth_error_app1 in H by assumption.
      destruct (IH i H) as (k & Hk & Hnot & Hlen).
      assert (Hkl : k < List.length l) by (apply nth_error_Some; congruence).
      exists k. rewrite nth_error_app1 by assumption.
      rewrite firstn_app. replace (k - List.length l) with 0 by lia.
      simpl. rewrite app_nil_r. auto.
    + rewrite nth_error_app2 in H by assumption.
      destruct (existsb (String.eqb x) l) eqn:Ex.
      * destruct (i - List.length (unique l)); discriminate.
      * destruct (i - List.length (unique l)) as [|j] eqn:Ei;
          [|destruct j; discriminate].
        injection H as <-. exists (List.length l).
        rewrite nth_error_app2, Nat.sub_diag by lia.
        rewrite firstn_app, Nat.sub_diag, firstn_all. simpl. rewrite app_nil_r.
        split; [reflexivity|]. split; [now apply existsb_eqb_not_In|].
        fold (unique l). lia.
Qed.

Lemma tissue_loop_untouched c counts k ts s st :
  ~ In k ts ->
  Dict.get k (snd (fold_left (tissue_step c counts)
                             (combine (seq s (List.length ts)) ts) st))
  = Dict.get k (snd st).
Proof.
  revert s st. induction ts as [|t ts IH]; simpl; intros s st Hk; auto.
  rewrite IH by tauto. simpl. apply get_set_other. intros ->. tauto.
Qed.

Lemma tissue_loop_placed c counts ts s st i t :
  NoDup ts -> nth_error ts i = Some t ->
  Dict.get t (snd (fold_left (tissue_step c counts)
                             (combine (seq s (List.length ts)) ts) st))
  = Some (tissue_position (s + i)).
Proof.
  intros Hnd. revert s st i.
  induction Hnd as [|t0 ts Hnot Hnd IH]; intros s st i Hi.
  - destruct i; discriminate.
  - simpl. destruct i as [|i]; simpl in Hi.
    + injection Hi as ->. rewrite tissue_loop_untouched by assumption.
      simpl. rewrite Nat.add_0_r. apply get_set_same.
    + rewrite (IH (S s) _ i Hi). f_equal. f_equal. lia.
Qed.

Lemma gene_loop_untouched normal k t n l st :
  (forall r, In r l -> gene_symbol r <> k) ->
  Dict.get k (st_positions (fold_left (gene_step normal t n) l st))
  = Dict.get k (st_positions st).
Proof.
  revert st. induction l as [|r l IH]; simpl; intros st H; auto.
  rewrite IH by auto. simpl. apply get_set_other. intros ->. now apply (H r); auto.
Qed.

Section Positions.
Context {sorter : SortValues}.
Variable normal : RandomSource.
Variable f : list Row.
Variable c : string.

Lemma genes_loop_untouched k ts st :
  (forall r, In r (flat_map (tissue_genes_of f) ts) -> gene_symbol r <> k) ->
  Dict.get k (st_positions (fold_left (genes_of_tissue_step normal f) ts st))
  = Dict.get k (st_positions st).
Proof.
  revert st. induction ts as [|t ts IH]; simpl; intros st H; auto.
  rewrite IH by (intros r Hr; apply H, in_or_app; auto).
  unfold genes_of_tissue_step. apply gene_loop_untouched.
  intros r Hr. apply H, in_or_app. auto.
Qed.

(** A key no visited row names keeps the position the first loop gave it. *)
Lemma build_position_untouched k :
  (forall r, In r (visited_rows f) -> gene_symbol r <> k) ->
  position k (st_positions (build_graph normal f c))
  = position k (snd (place_tissues f c)).
Proof.
  intros H. unfold position, Dict.get_default, build_graph.
  now rewrite genes_loop_untouched.
Qed.

Lemma place_tissues_position i t :
  nth_error (unique (map tumor f)) i = Some t ->
  position t (snd (place_tissues f c)) = tissue_position i.
Proof.
  intros Hi. unfold position, Dict.get_default, place_tissues, enumerate.
  now rewrite (tissue_loop_placed _ _ _ 0 _ i t (unique_NoDup _) Hi).
Qed.

Lemma place_tissues_central :
  ~ In c (unique (map tumor f)) ->
  position c (snd (place_tissues f c)) = (0%R, 0%R).
Proof.
  intros H. unfold position, Dict.get_default, place_tissues, enumerate.
  rewrite tissue_loop_untouched by assumption. simpl.
  now rewrite String.eqb_refl.
Qed.

End Positions.

(** *** Every position the script looks up is there *)

Lemma tissue_loop_keys c counts k ts s st :
  Dict.mem k (snd (fold_left (tissue_step c counts)
                             (combine (seq s (List.length ts)) ts) st))
  = Dict.mem k (snd st) || existsb (String.eqb k) ts.
Proof.
  revert s st. induction ts as [|t ts IH]; simpl; intros s st.
  - now rewrite orb_false_r.
  - rewrite IH. simpl. rewrite mem_set.
    destruct (String.eqb k t); destruct (Dict.mem k (snd st)); reflexivity.
Qed.

Lemma gene_loop_keys normal k t n l st :
  Dict.mem k (st_positions (fold_left (gene_step normal t n) l st))
  = Dict.mem k (st_positions st) || existsb (fun r => names r k) l.
Proof.
  revert st. induction l as [|r l IH]; simpl; intros st.
  - now rewrite orb_false_r.
  - rewrite IH. simpl. rewrite mem_set. unfold names.
    rewrite (String.eqb_sym k).
    destruct (String.eqb (gene_symbol r) k);
      destruct (Dict.mem k (st_positions st)); reflexivity.
Qed.

(** One turn of the loop over the genes removes no position. *)
Lemma gene_step_keeps_positions normal k t n st r :
  Dict.mem k (st_positions st) = true ->
  Dict.mem k (st_positions (gene_step normal t n st r)) = true.
Proof.
  intros H. simpl. rewrite mem_set, H. apply orb_true_r.
Qed.

Section Present.
Context {sorter : SortValues}.
Variable normal : RandomSource.
Variable f : list Row.
Variable c : string.

Lemma genes_loop_keys k ts st :
  Dict.mem k (st_positions (fold_left (genes_of_tissue_step normal f) ts st))
  = Dict.mem k (st_positions st)
    || existsb (fun r => names r k) (flat_map (tissue_genes_of f) ts).
Proof.
  revert st. induction ts as [|t ts IH]; simpl; intros st.
  - now rewrite orb_false_r.
  - rewrite IH. unfold genes_of_tissue_step. rewrite gene_loop_keys.
    rewrite existsb_app. now rewrite orb_assoc.
Qed.

(** [fixed_positions[tissue]] on line 105 finds its key: the first loop
    has placed every tissue, and the second removes nothing. *)
Lemma tissue_position_present t :
  In t (unique (map tumor f)) ->
  Dict.mem t (snd (place_tissues f c)) = true.
Proof.
  intros Ht. unfold place_tissues, enumerate. rewrite tissue_loop_keys.
  apply existsb_eqb_In in Ht. rewrite Ht. apply orb_true_r.
Qed.

(** [fixed_positions[node]] on lines 122-157 finds its key for every node
    of the graph. *)
Lemma node_position_present n :
  In n (nodes (st_G (build_graph normal f c))) ->
  Dict.mem n (st_positions (build_graph normal f c)) = true.
Proof.
  intros Hn. apply in_nodes_build in Hn.
  unfold build_graph. rewrite genes_loop_keys. cbn [st_positions].
  unfold place_tissues, enumerate. rewrite tissue_loop_keys. simpl.
  destruct Hn as [Hn|[->|(r & Hr & <-)]].
  - apply existsb_eqb_In in Hn. rewrite Hn. now rewrite orb_true_r.
  - unfold Dict.mem. cbn. now rewrite String.eqb_refl.
  - apply orb_true_iff. right. apply existsb_exists. exists r. split; auto.
    unfold names. apply String.eqb_refl.
Qed.

End Present.

(** ** C7: tissues on the golden-angle circle *)

(** The [i]-th tissue label in order of first appearance among the rows
    with [PCC >= 0.8] is placed by the first loop at angle
    [i * pi * (3 - sqrt 5)] on the circle of radius 400.  It is the [i]-th
    in that order: its first row comes after rows of exactly [i] other
    labels.  The position stands in the returned [fixed_positions] when no
    visited row bears the label as its gene name. *)
Lemma tissue_on_circle_unless_named :
  forall (df : list Row) (c : string) (i : nat) (t : string),
    nth_error (unique (map tumor (filter_pcc df))) i = Some t ->
    let angle := (INR i * (PI * (3 - sqrt 5)))%R in
    position t (snd (place_tissues (filter_pcc df) c))
    = ((400 * cos angle)%R, (400 * sin angle)%R)
    /\ (exists k, nth_error (map tumor (filter_pcc df)) k = Some t
                  /\ ~ In t (firstn k (map tumor (filter_pcc df)))
                  /\ List.length (unique (firstn k (map tumor (filter_pcc df)))) = i)
    /\ forall (sorter : SortValues) (normal : RandomSource),
         (forall r, In r (visited_rows (filter_pcc df)) -> gene_symbol r <> t) ->
         position t (fixed_positions_of normal df c)
         = ((400 * cos angle)%R, (400 * sin angle)%R).
Proof.
  intros df c i t Hi angle.
  assert (Hp : position t (snd (place_tissues (filter_pcc df) c))
               = ((400 * cos angle)%R, (400 * sin angle)%R)).
  { rewrite (place_tissues_position _ _ i t Hi). reflexivity. }
  split; [exact Hp|]. split; [now apply unique_first_seen|].
  intros sorter normal Hno. unfold fixed_positions_of.
  now rewrite build_position_untouched.
Qed.

Ltac eval_positions :=
  unfold nodes_data, nodes_data_of, fixed_positions_of, build_graph, place_tissues;
  cbn -[cloud_position spec_cloud_position tissue_position Rplus Rmult cos sin];
  unfold cloud_position, spec_cloud_position, tissue_position, position, no_noise, radius;
  cbn -[Rplus Rmult cos sin Rminus Rdiv PI INR Q2R IZR golden_angle];
  unfold Q2R; cbn [Qnum Qden INR fst snd].

(** C7, where the code departs from it.  On [table_tissue_row] the tissue
    T is the first label, to be placed at angle 0: at (400, 0).  The row
    that names its gene T as well moves the tissue: line 107 writes the
    row's position under the key T, and the tissue T stands at (472.5, 0)
    in the returned [fixed_positions] and in its record. *)
Theorem C7_tissue_node_moved :
  let angle := (INR 0 * (PI * (3 - sqrt 5)))%R in
  let nd := nth 1 (@nodes_data stable_sorter no_noise table_tissue_row "GCH1")
                (central_data "GCH1" []) in
  nth_error (unique (map tumor (filter_pcc table_tissue_row))) 0 = Some "T"
  /\ nd_id nd = "T" /\ nd_node_type nd = Tissue
  /\ position "T" (@fixed_positions_of stable_sorter no_noise table_tissue_row "GCH1")
     = (472.5%R, 0%R)
  /\ (nd_x nd, nd_y nd) = (472.5%R, 0%R)
  /\ ((400 * cos angle)%R, (400 * sin angle)%R) = (400%R, 0%R)
  /\ (nd_x nd, nd_y nd) <> ((400 * cos angle)%R, (400 * sin angle)%R).
Proof.
  intros angle nd.
  assert (Hp : position "T" (@fixed_positions_of stable_sorter no_noise table_tissue_row
                               "GCH1") = (472.5%R, 0%R)).
  { eval_positions.
    repeat match goal with
           | |- context [cos ?x] => progress (replace x with 0%R by lra)
           end.
    rewrite cos_0, sin_0. f_equal; lra. }
  assert (Hnd : (nd_x nd, nd_y nd) = (472.5%R, 0%R)).
  { unfold nd. eval_positions.
    repeat match goal with
           | |- context [cos ?x] => progress (replace x with 0%R by lra)
           end.
    repeat match goal with
           | |- context [sin ?x] => progress (replace x with 0%R by lra)
           end.
    rewrite cos_0, sin_0. f_equal; lra. }
  assert (Ha : ((400 * cos angle)%R, (400 * sin angle)%R) = (400%R, 0%R)).
  { unfold angle. simpl INR. replace (0 * (PI * (3 - sqrt 5)))%R with 0%R by ring.
    rewrite cos_0, sin_0. f_equal; ring. }
  split; [reflexivity|]. split; [reflexivity|]. split; [reflexivity|].
  split; [exact Hp|]. split; [exact Hnd|]. split; [exact Ha|].
  rewrite Hnd, Ha. intros [= H]. lra.
Qed.

(** The same for every random source whose draw for the distance stays
    below 1.45 in absolute value (the scale of that draw is 0.39). *)
Lemma tissue_node_moved_any_noise (normal : RandomSource) :
  (forall scale, (-1.45 < normal 3%nat 0 scale < 1.45)%R) ->
  position "T" (@fixed_positions_of stable_sorter normal table_tissue_row "GCH1")
  <> tissue_position 0.
Proof.
  intros Hbound. eval_positions.
  match goal with
  | |- ((?x0 + (?b + normal 3%nat 0 ?s * ?k) * cos ?a)%R,
        (?y0 + (?b + normal 3%nat 0 ?s * ?k) * sin ?a)%R) <> _ =>
      pose proof (Hbound s) as Hz;
      pose proof (sin2_cos2 a) as Hsc;
      set (z := normal 3%nat 0%R s) in *;
      set (ca := cos a) in *; set (sa := sin a) in *;
      set (x := x0); set (y := y0)
  end.
  unfold Rsqr in Hsc. intros [= Hx Hy].
  set (d := (50 + (1 - 85 * / 100) * 150 + z * 50)%R) in *.
  assert (Hd : (0 < d)%R) by (unfold d; lra).
  assert (H1 : (d * ca = 0)%R) by lra.
  assert (H2 : (d * sa = 0)%R) by lra.
  assert (H3 : (d * d * (sa * sa + ca * ca) = 0)%R).
  { replace (d * d * (sa * sa + ca * ca))%R
      with ((d * sa) * (d * sa) + (d * ca) * (d * ca))%R by ring.
    rewrite H1, H2. ring. }
  rewrite Hsc in H3. nra.
Qed.

(** ** C2: the central node's record *)

(** The record of the central node is the first of [nodes_data] and bears
    the configured name; it sits at the origin when the name is neither a
    tissue label nor the gene name of a visited row. *)
Lemma central_record_plain :
  forall (sorter : SortValues) (normal : RandomSource) (df : list Row) (c : string),
    let nd := hd (central_data c []) (nodes_data normal df c) in
    nd_id nd = c /\ nd_node_type nd = Central
    /\ (~ In c (unique (map tumor (filter_pcc df))) ->
        (forall r, In r (visited_rows (filter_pcc df)) -> gene_symbol r <> c) ->
        (nd_x nd, nd_y nd) = (0%R, 0%R)).
Proof.
  intros sorter normal df c nd. split; [reflexivity|]. split; [reflexivity|].
  intros Hts Hno. unfold nd, nodes_data, nodes_data_of. cbn [hd central_data nd_x nd_y].
  rewrite build_position_untouched by assumption.
  now rewrite place_tissues_central.
Qed.


(** C2, where the code departs from it.  On [table_central_row] the row
    that names the central node moves the central node: line 107 writes the
    row's position under the central node's key, and the record of the
    central node is serialised at (450, 0). *)
Theorem C2_central_node_moved :
  let nd := hd (central_data "GCH1" [])
               (@nodes_data stable_sorter no_noise table_central_row "GCH1") in
  nd_id nd = "GCH1" /\ nd_node_type nd = Central
  /\ nd_x nd = 450%R /\ nd_y nd = 0%R
  /\ (nd_x nd, nd_y nd) <> (0%R, 0%R).
Proof.
  intros nd.
  assert (Hx : nd_x nd = 450%R).
  { unfold nd. eval_positions.
    repeat match goal with
           | |- context [cos ?x] => progress (replace x with 0%R by lra)
           end.
    rewrite cos_0. lra. }
  assert (Hy : nd_y nd = 0%R).
  { unfold nd. eval_positions.
    repeat match goal with
           | |- context [sin ?x] => progress (replace x with 0%R by lra)
           end.
    rewrite sin_0. lra. }
  split; [reflexivity|]. split; [reflexivity|].
  split; [exact Hx|]. split; [exact Hy|].
  rewrite Hx, Hy. intros [= H]. lra.
Qed.

(** The same for every random source whose draw for the distance stays
    below 7 in absolute value (the scale of that draw is 0.3). *)
Lemma central_node_moved_any_noise (normal : RandomSource) :
  (forall scale, (-7 < normal 1%nat 0 scale < 7)%R) ->
  position "GCH1" (@fixed_positions_of stable_sorter normal table_central_row "GCH1")
  <> (0%R, 0%R).
Proof.
  intros Hbound. eval_positions.
  match goal with
  | |- ((?x0 * cos ?a0 + (?b + normal 1%nat 0 ?s * ?k) * cos ?a)%R,
        (?x0 * sin ?a0 + (?b + normal 1%nat 0 ?s * ?k) * sin ?a)%R) <> _ =>
      replace a0 with 0%R by lra;
      pose proof (Hbound s) as Hz;
      pose proof (sin2_cos2 a) as Hsc;
      set (z := normal 1%nat 0%R s) in *;
      set (ca := cos a) in *; set (sa := sin a) in *
  end.
  rewrite cos_0, sin_0. unfold Rsqr in Hsc.
  intros [= Hx Hy].
  assert (Hd : ((50 + (1 - 1 * / 1) * 150 + z * 50) * (50 + (1 - 1 * / 1) * 150 + z * 50)
                = 160000)%R).
  { transitivity
      (((50 + (1 - 1 * / 1) * 150 + z * 50) * ca) * ((50 + (1 - 1 * / 1) * 150 + z * 50) * ca)
       + ((50 + (1 - 1 * / 1) * 150 + z * 50) * sa) * ((50 + (1 - 1 * / 1) * 150 + z * 50) * sa))%R.
    - transitivity (((50 + (1 - 1 * / 1) * 150 + z * 50)
                     * (50 + (1 - 1 * / 1) * 150 + z * 50)) * (sa * sa + ca * ca))%R.
      + rewrite Hsc. ring.
      + ring.
    - replace ((50 + (1 - 1 * / 1) * 150 + z * 50) * ca)%R with (-400)%R by lra.
      replace ((50 + (1 - 1 * / 1) * 150 + z * 50) * sa)%R with 0%R by lra.
      ring. }
  nra.
Qed.

(** ** C3: the position of a gene *)

(** The code's formula is the specification's, with the row's index label
    where the specification has the row's place in the sorted list. *)
Lemma cloud_position_spec normal k centre n row :
  cloud_position normal k centre n row
  = spec_cloud_position normal k centre n (idx row) (pcc row).
Proof. reflexivity. Qed.

(** What one turn of the loop writes for its gene. *)
Lemma gene_step_position normal t n st row :
  Dict.get (gene_symbol row) (st_positions (gene_step normal t n st row))
  = Some (spec_cloud_position normal (draws st) (position t (st_positions st))
                              n (idx row) (pcc row))
  /\ draws (gene_step normal t n st row) = S (S (draws st)).
Proof.
  split; [|reflexivity]. simpl. rewrite get_set_same. reflexivity.
Qed.

(** C3, where the code departs from it.  On [table_two] the sorted list of
    the tissue is B, A; gene B, first of the two, would have base angle 0
    and lie at (457.5, 0) without noise.  The code takes [idx] from
    [iterrows], the row's number in the file, 1 for B: base angle pi, and
    B lies at (342.5, 0). *)
Theorem C3_angle_from_row_label :
  map gene_symbol (@tissue_genes_of stable_sorter (filter_pcc table_two) "T") = ["B"; "A"]
  /\ position "B" (@fixed_positions_of stable_sorter no_noise table_two "GCH1")
     = (342.5%R, 0%R)
  /\ spec_cloud_position no_noise 0 (tissue_position 0) 2 0 0.95%Q = (457.5%R, 0%R)
  /\ position "B" (@fixed_positions_of stable_sorter no_noise table_two "GCH1")
     <> spec_cloud_position no_noise 0 (tissue_position 0) 2 0 0.95%Q.
Proof.
  assert (H1 : position "B" (@fixed_positions_of stable_sorter no_noise table_two "GCH1")
               = (342.5%R, 0%R)).
  { eval_positions.
    replace (0 * golden_angle)%R with 0%R by lra.
    match goal with |- context [cos ?x] => replace x with PI by lra end.
    rewrite cos_0, sin_0, cos_PI, sin_PI. f_equal; lra. }
  assert (H2 : spec_cloud_position no_noise 0 (tissue_position 0) 2 0 0.95%Q
               = (457.5%R, 0%R)).
  { eval_positions.
    repeat match goal with
           | |- context [cos ?x] => progress (replace x with 0%R by lra)
           end.
    rewrite cos_0, sin_0. f_equal; lra. }
  split; [reflexivity|]. split; [exact H1|]. split; [exact H2|].
  rewrite H1, H2. intros [= H]. lra.
Qed.

(** ** C8: errors *)

Lemma only_prints_refl w : only_prints w w.
Proof. split; [exists []; now rewrite app_nil_r | auto]. Qed.

Lemma only_prints_trans w1 w2 w3 :
  only_prints w1 w2 -> only_prints w2 w3 -> only_prints w1 w3.
Proof.
  intros ([m1 H1] & A1 & B1 & C1) ([m2 H2] & A2 & B2 & C2).
  split; [exists (m1 ++ m2); now rewrite H2, H1, app_assoc|].
  repeat split; congruence.
Qed.

Lemma only_prints_print m w : only_prints w (snd (print m w)).
Proof. split; [exists [m]; reflexivity | auto]. Qed.

Section Errors.
Context {sorter : SortValues}.
Variable normal : RandomSource.

Lemma row_loop_effects_world has_gene rows w :
  snd (row_loop_effects has_gene rows w) = w.
Proof.
  induction rows as [|r rows IH]; [reflexivity|].
  cbn [row_loop_effects]. unfold bind.
  destruct has_gene; cbn; [|reflexivity].
  destruct (scale_refused r); cbn; [reflexivity | exact IH].
Qed.

(** With its gene column the turns of the rows raise when a scale is
    refused, and only then. *)
Lemma row_loop_effects_true rows w :
  row_loop_effects true rows w
  = (if existsb scale_refused rows then inl (ValueError "scale < 0") else inr tt, w).
Proof.
  induction rows as [|r rows IH]; [reflexivity|].
  cbn [row_loop_effects existsb]. unfold bind. cbn.
  destruct (scale_refused r); cbn; [reflexivity | exact IH].
Qed.

Lemma gene_loop_effects_shape has_gene f ts w :
  only_prints w (snd (gene_loop_effects has_gene f ts w)).
Proof.
  revert w. induction ts as [|t ts IH]; intros w; simpl.
  - apply only_prints_refl.
  - unfold bind.
    set (sorted := sort_values (rows_of_tissue t f)).
    set (w1 := snd ((if max_genes_per_tissue <? List.length sorted
                     then print (Limiting t (List.length sorted) max_genes_per_tissue)
                     else ret tt) w)).
    assert (H1 : (if max_genes_per_tissue <? List.length sorted
                  then print (Limiting t (List.length sorted) max_genes_per_tissue)
                  else ret tt) w = (inr tt, w1)).
    { unfold w1. now destruct (max_genes_per_tissue <? List.length sorted). }
    assert (P1 : only_prints w w1).
    { unfold w1. destruct (max_genes_per_tissue <? List.length sorted).
      - apply only_prints_print.
      - apply only_prints_refl. }
    rewrite H1.
    pose proof (row_loop_effects_world has_gene (limit_genes sorted) w1) as Hw.
    destruct (row_loop_effects has_gene (limit_genes sorted) w1) as [[e|[]] w2];
      cbn [snd] in Hw; subst w2; cbn [snd]; [exact P1|].
    eapply only_prints_trans; [exact P1 | apply IH].
Qed.

(** With its gene column the loop raises when the scale of a visited row
    is refused, and only then. *)
Lemma gene_loop_effects_true f ts w :
  fst (gene_loop_effects true f ts w)
  = if existsb scale_refused (flat_map (tissue_genes_of f) ts)
    then inl (ValueError "scale < 0") else inr tt.
Proof.
  revert w. induction ts as [|t ts IH]; intros w; [reflexivity|].
  cbn [gene_loop_effects flat_map]. rewrite existsb_app. unfold bind.
  fold (tissue_genes_of f t).
  destruct ((if max_genes_per_tissue <? List.length (sort_values (rows_of_tissue t f))
             then print (Limiting t (List.length (sort_values (rows_of_tissue t f)))
                           max_genes_per_tissue)
             else ret tt) w) as [[e|[]] w1] eqn:E1.
  - destruct (max_genes_per_tissue <? _); discriminate.
  - rewrite row_loop_effects_true.
    destruct (existsb scale_refused (tissue_genes_of f t)); cbn; [reflexivity|].
    apply IH.
Qed.

Lemma gene_loop_effects_raises f t ts w :
  tissue_genes_of f t <> [] ->
  fst (gene_loop_effects false f (t :: ts) w) = inl (KeyError "Gene Symbol").
Proof.
  intros Hne. simpl. unfold bind, tissue_genes_of in *.
  destruct (max_genes_per_tissue <? List.length (sort_values (rows_of_tissue t f)));
    cbn; destruct (limit_genes (sort_values (rows_of_tissue t f)));
    cbn; congruence.
Qed.

Lemma first_tissue_has_rows f t ts :
  unique (map tumor f) = t :: ts -> tissue_genes_of f t <> [].
Proof.
  intros Hu Hnil.
  assert (Hin : In t (unique (map tumor f))) by (rewrite Hu; simpl; auto).
  apply unique_In, in_map_iff in Hin. destruct Hin as (r & Hr & Hf).
  assert (Hrow : In r (rows_of_tissue t f)).
  { unfold rows_of_tissue. apply filter_In. split; auto. now apply String.eqb_eq. }
  assert (Hlen : List.length (tissue_genes_of f t) = 0) by now rewrite Hnil.
  unfold tissue_genes_of in Hlen. rewrite limit_genes_length in Hlen.
  rewrite (Permutation_length (sort_values_perm _)) in Hlen.
  destruct (rows_of_tissue t f); [contradiction|].
  unfold max_genes_per_tissue in Hlen. simpl in Hlen. lia.
Qed.

(** How the body of the [try] ends. *)
Lemma try_body_shape csv c dir faults w :
  match try_body normal csv c dir faults w with
  | (inr _, w') =>
      (exists nd ld, output_file w' = Document nd ld)
      /\ ~ raises_before_output csv
  | (inl e, w') =>
      (exists msgs, console w' = console w ++ msgs)
      /\ browser_opened w' = browser_opened w
      /\ (output_file w' = output_file w
          \/ (output_file w' = Incomplete /\ write_fails faults = true))
      /\ (raises_before_output csv -> only_prints w w')
  end.
Proof.
  remember (raises_before_output csv) as before_output eqn:Hbo.
  unfold try_body.
  destruct csv as [df|]; cbn -[has_column filter_pcc unique build_graph];
    [|repeat split; auto using only_prints_refl; exists []; now rewrite app_nil_r].
  unfold bind at 1, require_column.
  destruct (has_column "PCC" df) eqn:Hp; cbn -[has_column filter_pcc unique build_graph];
    [|repeat split; auto using only_prints_refl; exists []; now rewrite app_nil_r].
  unfold bind at 1.
  destruct (has_column "Tumor" df) eqn:Ht; cbn -[has_column filter_pcc unique build_graph];
    [|repeat split; auto using only_prints_refl; exists []; now rewrite app_nil_r].
  unfold bind at 1. cbn -[has_column filter_pcc unique build_graph].
  set (w1 := mkWorld _ _ _ _).
  assert (P1 : only_prints w w1) by (split; [eexists; reflexivity | auto]).
  unfold bind at 1.
  pose proof (gene_loop_effects_shape (has_column "Gene Symbol" df)
                (filter_pcc (rows df)) (unique (map tumor (filter_pcc (rows df)))) w1)
    as P2.
  assert (Hraise : before_output ->
            exists e, fst (gene_loop_effects (has_column "Gene Symbol" df)
                             (filter_pcc (rows df))
                             (unique (map tumor (filter_pcc (rows df)))) w1) = inl e).
  { rewrite Hbo. simpl. intros [H|[H|[Hg Hne]]]; try congruence.
    rewrite Hg.
    destruct (unique (map tumor (filter_pcc (rows df)))) as [|t ts] eqn:Hu.
    - exfalso. destruct (filter_pcc (rows df)) as [|r l]; [congruence|].
      assert (Hin : In (tumor r) (unique (map tumor (r :: l))))
        by (apply unique_In; simpl; auto).
      rewrite Hu in Hin. contradiction.
    - eexists. apply gene_loop_effects_raises. eapply first_tissue_has_rows; eauto. }
  destruct (gene_loop_effects _ _ _ w1) as [[e|[]] w2] eqn:Eg; cbn [fst snd] in *.
  - pose proof (only_prints_trans _ _ _ P1 P2) as P.
    destruct P as (Hc & Hd & Hf & Hb). repeat split; auto.
  - pose proof (only_prints_trans _ _ _ P1 P2) as (Hc & Hd & Hf & Hb).
    assert (Hnr : ~ before_output).
    { intros H. destruct (Hraise H) as [e He]. discriminate. }
    unfold bind, print, makedirs, open_w, write, webbrowser_open, ret.
    cbn -[has_column filter_pcc unique build_graph nodes_data_of links_data_of].
    destruct Hc as [msgs Hc].
    assert (Hfail : forall (e : Exn) (w' : World) (more : list Msg),
               console w' = console w2 ++ more ->
               browser_opened w' = browser_opened w2 ->
               (output_file w' = output_file w2
                \/ (output_file w' = Incomplete /\ write_fails faults = true)) ->
               (exists msgs0, console w' = console w ++ msgs0)
               /\ browser_opened w' = browser_opened w
               /\ (output_file w' = output_file w
                   \/ (output_file w' = Incomplete /\ write_fails faults = true))
               /\ (before_output -> only_prints w w')).
    { intros e w' more Hc' Hb' Hf'. split; [|split; [|split]].
      - exists (msgs ++ more). rewrite Hc', Hc. now rewrite app_assoc.
      - congruence.
      - destruct Hf' as [Hf'|Hf']; [left; congruence | right; exact Hf'].
      - intros H. destruct (Hnr H). }
    pose (more := [Added (genes_added (build_graph normal (filter_pcc (rows df)) c))]).
    destruct (negb (String.eqb dir "") && negb (output_dir_exists w2));
      [destruct (makedirs_fails faults)|].
    + apply (Hfail (OSError "makedirs") _ more); cbn; auto.
    + destruct (open_fails faults).
      * apply (Hfail (OSError "open") _ more); cbn; auto.
      * destruct (write_fails faults) eqn:Hw.
        -- apply (Hfail (OSError "write") _ more); cbn; auto.
        -- cbn. split; [eauto | exact Hnr].
    + destruct (open_fails faults).
      * apply (Hfail (OSError "open") _ more); cbn; auto.
      * destruct (write_fails faults) eqn:Hw.
        -- apply (Hfail (OSError "write") _ more); cbn; auto.
        -- cbn. split; [eauto | exact Hnr].
Qed.

End Errors.

(** The random source refuses the scale of a row whose PCC is above 1.5. *)
Lemma scale_refused_false r : scale_refused r = false <-> (pcc r <= 1.5)%Q.
Proof.
  unfold scale_refused. rewrite negb_false_iff, Qle_bool_iff.
  assert (E : (Q2R (0.3 + 0.6 * (1 - pcc r)) = 0.3 + 0.6 * (1 - Q2R (pcc r)))%R).
  { rewrite Q2R_plus, Q2R_mult, Q2R_minus. generalize (Q2R (pcc r)). intros p.
    unfold Q2R. cbn [Qnum Qden]. lra. }
  assert (E0 : Q2R 0 = 0%R) by (unfold Q2R; cbn [Qnum Qden]; lra).
  assert (E1 : Q2R 1.5 = 1.5%R) by (unfold Q2R; cbn [Qnum Qden]; lra).
  split; intros H.
  - apply Rle_Qle. apply Qle_Rle in H. lra.
  - apply Rle_Qle. apply Qle_Rle in H. lra.
Qed.

Lemma no_scale_refused (rows : list Row) :
  (forall r, In r rows -> (pcc r <= 1.5)%Q) -> existsb scale_refused rows = false.
Proof.
  intros H. destruct (existsb scale_refused rows) eqn:E; [|reflexivity].
  apply existsb_exists in E. destruct E as (r & Hr & Hs).
  rewrite (proj2 (scale_refused_false r) (H r Hr)) in Hs. discriminate.
Qed.

(** With its three columns in the table, no visited row with a PCC above
    1.5 and no refusal from the operating system the function returns the
    graph and the positions, and the document holds [nodes_data] and
    [links_data]. *)
Lemma create_web_network_succeeds :
  forall (sorter : SortValues) (normal : RandomSource) (df : DataFrame)
         (c dir : string) (w : World),
    has_column "PCC" df = true -> has_column "Tumor" df = true ->
    has_column "Gene Symbol" df = true ->
    (forall r, In r (visited_rows (filter_pcc (rows df))) -> (pcc r <= 1.5)%Q) ->
    let out := create_web_network normal (Some df) c dir no_faults w in
    fst out = Some (graph_of normal (rows df) c, fixed_positions_of normal (rows df) c)
    /\ output_file (snd out)
       = Document (nodes_data normal (rows df) c) (links_data normal (rows df) c)
    /\ browser_opened (snd out) = true.
Proof.
  intros sorter normal df c dir w Hp Ht Hg Hscale out.
  assert (E : exists w',
             out = (Some (graph_of normal (rows df) c,
                          fixed_positions_of normal (rows df) c), w')
             /\ output_file w'
                = Document (nodes_data normal (rows df) c) (links_data normal (rows df) c)
             /\ browser_opened w' = true).
  { unfold out, create_web_network, try_body.
    unfold bind at 1. cbn [print fst snd].
    unfold bind at 1. cbn [read_csv ret].
    unfold bind at 1, require_column at 1. rewrite Hp. cbn [ret].
    unfold bind at 1, require_column at 1. rewrite Ht. cbn [ret].
    unfold bind at 1. cbn [print].
    set (w1 := mkWorld _ _ _ _).
    unfold bind at 1. rewrite Hg.
    pose proof (gene_loop_effects_true (filter_pcc (rows df))
                  (unique (map tumor (filter_pcc (rows df)))) w1) as R2.
    fold (visited_rows (filter_pcc (rows df))) in R2.
    rewrite (no_scale_refused _ Hscale) in R2.
    destruct (gene_loop_effects true _ _ w1) as [r w2]. cbn [fst snd] in *. subst r.
    unfold bind, print, makedirs, open_w, write, webbrowser_open, ret, no_faults.
    cbn -[has_column filter_pcc unique build_graph nodes_data_of links_data_of].
    destruct (negb (String.eqb dir "") && negb (output_dir_exists w2)); cbn;
      eexists; (split; [reflexivity|]); cbn; auto. }
  destruct E as (w' & -> & Hf & Hb). cbn. auto.
Qed.

(** C8, as the code has it.  A run that returns the null result has
    printed the error and its trace, has not opened the browser, and has
    left the output file as it was, unless the write itself was refused:
    then the file is there, incomplete.  A table that cannot be read, a
    missing [PCC] or [Tumor] column, and a missing [Gene Symbol] column
    when a row passes the filter, end in the null result with the error
    and its trace printed and nothing else touched. *)
Theorem C8_errors_before_output :
  forall (sorter : SortValues) (normal : RandomSource) (csv : option DataFrame)
         (c dir : string) (faults : Faults) (w : World),
    let out := create_web_network normal csv c dir faults w in
    (fst out = None ->
       (exists msgs e, console (snd out) = console w ++ msgs ++ [Error e; Traceback e])
       /\ browser_opened (snd out) = browser_opened w
       /\ (output_file (snd out) = output_file w
           \/ (output_file (snd out) = Incomplete /\ write_fails faults = true)))
    /\ (raises_before_output csv ->
          fst out = None
          /\ (exists msgs e, console (snd out) = console w ++ msgs ++ [Error e; Traceback e])
          /\ output_file (snd out) = output_file w
          /\ output_dir_exists (snd out) = output_dir_exists w
          /\ browser_opened (snd out) = browser_opened w)
    /\ (fst out <> None -> exists nd ld, output_file (snd out) = Document nd ld).
Proof.
  intros sorter normal csv c dir faults w out.
  set (w0 := mkWorld (console w ++ [Loading]) (output_dir_exists w) (output_file w)
                     (browser_opened w)).
  assert (Eout : out = match try_body normal csv c dir faults w0 with
                       | (inr result, w') => (Some result, w')
                       | (inl e, w') =>
                           (None, mkWorld (console w' ++ [Error e; Traceback e])
                                          (output_dir_exists w') (output_file w')
                                          (browser_opened w'))
                       end) by reflexivity.
  clearbody out.
  pose proof (try_body_shape normal csv c dir faults w0) as Hshape.
  destruct (try_body normal csv c dir faults w0) as [[e|res] w']; subst out;
    cbn [fst snd console output_dir_exists output_file browser_opened].
  - destruct Hshape as ([msgs Hc] & Hb & Hf & Hbefore).
    assert (Hlog : exists msgs0 e0,
               console w' ++ [Error e; Traceback e]
               = console w ++ msgs0 ++ [Error e0; Traceback e0]).
    { exists (Loading :: msgs), e. rewrite Hc. unfold w0. cbn [console].
      rewrite <- !app_assoc. reflexivity. }
    unfold w0 in Hb, Hf, Hbefore. cbn [browser_opened output_file] in Hb, Hf.
    split; [|split].
    + intros _. auto.
    + intros H. destruct (Hbefore H) as (_ & Hd' & Hf' & Hb').
      cbn in Hd', Hf', Hb'. auto.
    + intros H. now destruct H.
  - destruct Hshape as (Hdoc & Hnot).
    split; [discriminate|]. split; [intros H; destruct (Hnot H)|].
    intros _. exact Hdoc.
Qed.

(** A table without its [PCC] column. *)
Lemma C8_witness :
  let csv := Some (mkDataFrame ["Gene Symbol"; "Tumor"] [mkRow 0 "A" "Liver" 0.9%Q]) in
  raises_before_output csv
  /\ fst (@create_web_network stable_sorter no_noise csv "GCH1" "" no_faults fresh_world)
     = None
  /\ output_file
       (snd (@create_web_network stable_sorter no_noise csv "GCH1" "" no_faults fresh_world))
     = Untouched.
Proof.
  intros csv.
  assert (H : raises_before_output csv) by (left; reflexivity).
  split; [exact H|].
  destruct (@C8_errors_before_output stable_sorter no_noise csv "GCH1" "" no_faults
              fresh_world) as (_ & Hbefore & _).
  destruct (Hbefore H) as (Hnone & _ & Hfile & _). auto.
Defined.

(** Two runs against the claim.  On [frame_no_gene_column] a required
    column is missing and no row passes the filter: nothing raises, the
    graph is returned and the document written.  On [frame_one_row] the
    write is refused: the null result is returned and the file, opened
    for writing, is left incomplete. *)
Lemma C8_counterexample :
  (raises_before_output (Some frame_no_gene_column) -> False)
  /\ has_column "Gene Symbol" frame_no_gene_column = false
  /\ (let out := @create_web_network stable_sorter no_noise (Some frame_no_gene_column)
                   "GCH1" "" no_faults fresh_world in
      fst out <> None
      /\ console (snd out) = [Loading; Found 0 0; Added 0; Saved]
      /\ exists nd ld, output_file (snd out) = Document nd ld)
  /\ (let out := @create_web_network stable_sorter no_noise (Some frame_one_row)
                   "GCH1" "" (mkFaults false false true) fresh_world in
      fst out = None
      /\ output_file fresh_world = Untouched
      /\ output_file (snd out) = Incomplete).
Proof.
  split; [|split; [reflexivity|split]].
  - intros [H|[H|[_ H]]]; try discriminate. now apply H.
  - intros out.
    assert (Hsome : fst out <> None).
    { assert (E : match fst out with Some _ => true | None => false end = true)
        by (vm_compute; reflexivity).
      intros H. rewrite H in E. discriminate. }
    split; [exact Hsome|]. split; [vm_compute; reflexivity|].
    vm_compute. eexists. eexists. reflexivity.
  - intros out. split; [vm_compute; reflexivity|].
    split; vm_compute; reflexivity.
Qed.

(* ================================================================== *)
(** * Further properties of the pipeline *)

(** ** The order of the nodes and of their records *)

Lemma mem_In_keys_bool {V : Type} (d : Dict.t V) k :
  existsb (String.eqb k) (Dict.keys d) = Dict.mem k d.
Proof.
  apply eq_true_iff_eq. rewrite existsb_eqb_In. symmetry. apply mem_In_keys.
Qed.

Lemma nodes_add_node n a G :
  nodes (add_node n a G) = nodes G ++ (if has_node n G then [] else [n]).
Proof.
  unfold nodes, has_node. rewrite g_node_add_node, keys_set.
  destruct (Dict.mem n (g_node G)); [now rewrite app_nil_r | reflexivity].
Qed.

Lemma nodes_add_tissue c counts G t :
  has_node c G = true ->
  nodes (add_tissue c counts G t) = nodes G ++ (if has_node t G then [] else [t]).
Proof.
  intros Hc. unfold add_tissue, nodes at 1.
  rewrite g_node_add_edge.
  - apply nodes_add_node.
  - rewrite has_node_add_node, Hc. apply orb_true_r.
  - rewrite has_node_add_node, String.eqb_refl. reflexivity.
Qed.

Lemma nodes_add_gene t G r :
  has_node t G = true ->
  nodes (add_gene t G r)
  = nodes G ++ (if has_node (gene_symbol r) G then [] else [gene_symbol r]).
Proof.
  intros Ht. unfold add_gene, nodes at 1.
  destruct (has_node (gene_symbol r) G) eqn:Hg.
  - rewrite g_node_add_edge by assumption. now rewrite app_nil_r.
  - rewrite g_node_add_edge.
    + fold (nodes (add_node (gene_symbol r)
                     (mkAttrs (Some Gene) None (Some (pcc r)) (Some t)) G)).
      rewrite nodes_add_node, Hg. reflexivity.
    + rewrite has_node_add_node, String.eqb_refl. reflexivity.
    + rewrite has_node_add_node, Ht. apply orb_true_r.
Qed.

Lemma has_node_add_gene n t G r :
  has_node n G = true -> has_node n (add_gene t G r) = true.
Proof.
  intros H. unfold add_gene. apply has_node_add_edge.
  destruct (has_node (gene_symbol r) G); auto.
  rewrite has_node_add_node, H. apply orb_true_r.
Qed.

Lemma has_node_add_tissue c counts G t n :
  has_node c G = true ->
  has_node n (add_tissue c counts G t) = String.eqb n t || has_node n G.
Proof.
  intros Hc. unfold add_tissue, has_node at 1.
  rewrite g_node_add_edge.
  - apply has_node_add_node.
  - rewrite has_node_add_node, Hc. apply orb_true_r.
  - rewrite has_node_add_node, String.eqb_refl. reflexivity.
Qed.

Lemma nodes_tissue_loop c counts ts G :
  has_node c G = true -> NoDup ts ->
  nodes (fold_left (add_tissue c counts) ts G)
  = nodes G ++ filter (fun t => negb (has_node t G)) ts.
Proof.
  intros Hc Hnd. revert G Hc.
  induction Hnd as [|t ts Hnot Hnd IH]; intros G Hc; simpl.
  - now rewrite app_nil_r.
  - rewrite IH by (rewrite has_node_add_tissue, Hc by assumption; apply orb_true_r).
    rewrite nodes_add_tissue by assumption. rewrite <- app_assoc. f_equal.
    assert (Hext : filter (fun x => negb (has_node x (add_tissue c counts G t))) ts
                   = filter (fun x => negb (has_node x G)) ts).
    { apply filter_ext_in. intros x Hx. rewrite has_node_add_tissue by assumption.
      destruct (String.eqb_spec x t) as [->|]; [contradiction | reflexivity]. }
    rewrite Hext. now destruct (has_node t G).
Qed.

(** The loop over the genes of one tissue appends its new nodes and counts
    them. *)
Lemma gene_loop_appends normal t n l st :
  has_node t (st_G st) = true ->
  exists extra,
    nodes (st_G (fold_left (gene_step normal t n) l st)) = nodes (st_G st) ++ extra
    /\ genes_added (fold_left (gene_step normal t n) l st)
       = genes_added st + List.length extra
    /\ draws (fold_left (gene_step normal t n) l st) = draws st + 2 * List.length l.
Proof.
  revert st. induction l as [|r l IH]; intros st Ht; simpl.
  - exists []. rewrite app_nil_r. simpl. split; [reflexivity | split; lia].
  - destruct (IH (gene_step normal t n st r)) as (extra & Hn & Ha & Hd).
    { simpl. now apply has_node_add_gene. }
    simpl in Hn, Ha, Hd. rewrite (nodes_add_gene t _ r Ht) in Hn.
    destruct (has_node (gene_symbol r) (st_G st)).
    + exists extra. rewrite app_nil_r in Hn. split; [exact Hn|]. split; lia.
    + exists (gene_symbol r :: extra). rewrite <- app_assoc in Hn.
      split; [exact Hn|]. simpl. split; lia.
Qed.

Lemma node_data_one_kind ty c colors G pos l :
  ty <> Central ->
  Forall (fun n => n <> c /\ is_node_type ty G n = true) l ->
  map nd_id (flat_map (node_data c colors G pos) l) = l
  /\ Forall (fun nd => nd_node_type nd = ty) (flat_map (node_data c colors G pos) l).
Proof.
  intros Hty Hall. induction Hall as [|n l [Hn Ht] _ [IH1 IH2]]; simpl.
  - split; constructor.
  - unfold node_data at 1 3. apply String.eqb_neq in Hn. rewrite Hn.
    unfold is_node_type in Ht.
    destruct (node_type (node_attrs n G)) as [[| |]|]; destruct ty;
      simpl in Ht; try discriminate; try contradiction; simpl;
      (split; [now rewrite IH1 | now constructor]).
Qed.

Section Shape.
Context {sorter : SortValues}.
Variable normal : RandomSource.
Variable f : list Row.
Variable c : string.

Let tissue_types := unique (map tumor f).
Let st := build_graph normal f c.

Lemma genes_loop_appends ts st0 :
  Forall (fun t => has_node t (st_G st0) = true) ts ->
  exists extra,
    nodes (st_G (fold_left (genes_of_tissue_step normal f) ts st0))
    = nodes (st_G st0) ++ extra
    /\ genes_added (fold_left (genes_of_tissue_step normal f) ts st0)
       = genes_added st0 + List.length extra
    /\ draws (fold_left (genes_of_tissue_step normal f) ts st0)
       = draws st0 + 2 * List.length (flat_map (tissue_genes_of f) ts).
Proof.
  revert st0. induction ts as [|t ts IH]; intros st0 Hall; simpl.
  - exists []. rewrite app_nil_r. simpl. split; [reflexivity | split; lia].
  - inversion Hall as [|? ? Ht Hts]; subst.
    unfold genes_of_tissue_step at 2 4 6.
    destruct (gene_loop_appends normal t (List.length (tissue_genes_of f t))
                (tissue_genes_of f t) st0 Ht) as (e1 & Hn1 & Ha1 & Hd1).
    set (st1 := fold_left _ (tissue_genes_of f t) st0) in *.
    destruct (IH st1) as (e2 & Hn2 & Ha2 & Hd2).
    { eapply Forall_impl; [|exact Hts]. intros x Hx.
      unfold has_node. rewrite <- mem_In_keys_bool. fold (nodes (st_G st1)).
      rewrite Hn1, existsb_app.
      unfold has_node in Hx. rewrite <- mem_In_keys_bool in Hx.
      fold (nodes (st_G st0)) in Hx. now rewrite Hx. }
    exists (e1 ++ e2). rewrite Hn2, Hn1, <- app_assoc.
    split; [reflexivity|]. rewrite !length_app. split; lia.
Qed.

(** The nodes of the returned graph in the order of [G.nodes()]: the
    central node, the tissues in order of first appearance, the genes; the
    counter [genes_added] has counted the genes, and the random source has
    been asked twice for every visited row. *)
Lemma build_shape :
  exists genes,
    nodes (st_G st)
    = c :: filter (fun t => negb (String.eqb t c)) tissue_types ++ genes
    /\ Forall (fun g => is_node_type Gene (st_G st) g = true) genes
    /\ genes_added st = List.length genes
    /\ draws st = 2 * List.length (visited_rows f).
Proof.
  unfold st, build_graph. fold tissue_types.
  destruct tissue_loop_applies with (c := c) as (Hwf0 & Hc0 & Hd0 & Hn0).
  assert (Hfst : fst (place_tissues f c)
                 = fold_left (add_tissue c (Counter (map tumor f))) tissue_types
                     (add_node c central_attrs empty_graph)).
  { unfold place_tissues, enumerate. now rewrite fst_tissue_loop. }
  assert (Hnodes1 : nodes (fst (place_tissues f c))
                    = c :: filter (fun t => negb (String.eqb t c)) tissue_types).
  { rewrite Hfst, nodes_tissue_loop; [|exact Hc0|apply unique_NoDup].
    cbn [nodes add_node empty_graph g_node Dict.get Dict.keys map app].
    simpl. f_equal. apply filter_ext. intros t.
    unfold has_node, Dict.mem. cbn. now destruct (String.eqb t c). }
  destruct (genes_loop_appends tissue_types
              (mkState (fst (place_tissues f c)) (snd (place_tissues f c)) 0 0))
    as (genes & Hn & Ha & Hd).
  { apply Forall_forall. intros t Ht. cbn [st_G].
    unfold has_node. rewrite <- mem_In_keys_bool.
    fold (nodes (fst (place_tissues f c))). rewrite Hnodes1. simpl.
    destruct (String.eqb_spec t c) as [|Hne]; auto. simpl.
    apply existsb_eqb_In, filter_In. split; auto.
    apply String.eqb_neq in Hne. now rewrite Hne. }
  cbn [st_G genes_added draws] in Hn, Ha, Hd.
  exists genes. rewrite Hn, Hnodes1. split; [reflexivity|].
  split; [|split; [exact Ha | exact Hd]].
  apply Forall_forall. intros g Hg.
  pose proof (build_nodes_NoDup normal f c) as Hnd.
  unfold build_graph in Hnd. fold tissue_types in Hnd.
  rewrite Hn, Hnodes1 in Hnd.
  apply (is_gene_build normal f c g).
  assert (Hgc : g <> c).
  { intros ->. inversion Hnd as [|? ? Hnot _]; subst. apply Hnot.
    apply in_or_app. now right. }
  assert (Hgt : ~ In g (unique (map tumor f))).
  { intros Hin. inversion Hnd as [|? ? _ Hnd']; subst.
    apply NoDup_app_remove_l in Hnd' as Hgs.
    assert (Hf : In g (filter (fun t => negb (String.eqb t c)) tissue_types)).
    { apply filter_In. split; auto. apply String.eqb_neq in Hgc. now rewrite Hgc. }
    clear - Hnd' Hf Hg.
    induction (filter (fun t => negb (String.eqb t c)) tissue_types) as [|x l IH];
      [contradiction|].
    simpl in Hnd'. inversion Hnd' as [|? ? Hnot Hnd'']; subst.
    destruct Hf as [->|Hf]; [apply Hnot, in_or_app; now right | now apply IH]. }
  split; [exact Hgt|]. split; [exact Hgc|].
  assert (Hin : In g (nodes (st_G (build_graph normal f c)))).
  { unfold build_graph. fold tissue_types. rewrite Hn, Hnodes1.
    right. apply in_or_app. now right. }
  apply in_nodes_build in Hin. destruct Hin as [Hin|[Hin|(r & Hr & Hname)]];
    try contradiction.
  destruct (find (fun r0 => names r0 g) (visited_rows f)) as [r0|] eqn:Ef; eauto.
  exfalso. apply (find_none _ _ Ef) in Hr. unfold names in Hr.
  rewrite Hname, String.eqb_refl in Hr. discriminate.
Qed.

End Shape.

Lemma nodes_data_ids {sorter : SortValues} (normal : RandomSource) (df : list Row)
    (c : string) :
  map nd_id (nodes_data normal df c) = nodes (graph_of normal df c).
Proof.
  unfold nodes_data, graph_of, nodes_data_of.
  destruct (build_shape normal (filter_pcc df) c) as (genes & Hn & Hg & _).
  rewrite Hn. cbn [map central_data nd_id flat_map]. f_equal.
  unfold node_data at 1. rewrite String.eqb_refl. cbn [app].
  rewrite flat_map_app, map_app. f_equal.
  - apply (node_data_one_kind Tissue); [discriminate|].
    apply Forall_forall. intros t Ht. apply filter_In in Ht. destruct Ht as [Ht Hc].
    split; [apply String.eqb_neq; now destruct (String.eqb t c)|].
    now apply (proj2 (is_tissue_build normal _ _ _)).
  - apply (node_data_one_kind Gene); [discriminate|].
    apply Forall_forall. intros g Hin. rewrite Forall_forall in Hg.
    split; [|now apply Hg].
    pose proof (Hg g Hin) as Hgg.
    apply (proj1 (is_gene_build normal _ _ _)) in Hgg. tauto.
Qed.

(** X1.  [nodes_data] holds one record for every node of the returned
    graph, in the order of [G.nodes()], and no two records share an id:
    the map from ids to records that the client script builds loses
    nothing. *)
Theorem nodes_data_one_record_per_node :
  forall (sorter : SortValues) (normal : RandomSource) (df : list Row) (c : string),
    map nd_id (nodes_data normal df c) = nodes (graph_of normal df c)
    /\ NoDup (map nd_id (nodes_data normal df c)).
Proof.
  intros sorter normal df c.
  pose proof (nodes_data_ids normal df c) as Hids.
  split; [exact Hids|]. rewrite Hids. apply build_nodes_NoDup.
Qed.

(** X2.  The records come in three runs: the central node's, the tissue
    records (size 25) in order of first appearance of their labels, then
    the gene records (size 3), as many as the counter [genes_added] says. *)
Theorem nodes_data_in_three_runs :
  forall (sorter : SortValues) (normal : RandomSource) (df : list Row) (c : string),
    exists tissue_records gene_records,
      nodes_data normal df c
      = central_data c (fixed_positions_of normal df c)
        :: tissue_records ++ gene_records
      /\ map nd_id tissue_records
         = filter (fun t => negb (String.eqb t c)) (unique (map tumor (filter_pcc df)))
      /\ Forall (fun nd => nd_node_type nd = Tissue /\ nd_size nd = 25) tissue_records
      /\ Forall (fun nd => nd_node_type nd = Gene /\ nd_size nd = 3) gene_records
      /\ List.length gene_records
         = genes_added (build_graph normal (filter_pcc df) c).
Proof.
  intros sorter normal df c.
  destruct (build_shape normal (filter_pcc df) c) as (genes & Hn & Hg & Ha & _).
  set (colors := tissue_colors_of (unique (map tumor (filter_pcc df)))).
  set (G := st_G (build_graph normal (filter_pcc df) c)) in *.
  set (pos := st_positions (build_graph normal (filter_pcc df) c)).
  set (ts' := filter (fun t => negb (String.eqb t c))
                     (unique (map tumor (filter_pcc df)))) in *.
  assert (Hts : Forall (fun n => n <> c /\ is_node_type Tissue G n = true) ts').
  { apply Forall_forall. intros t Ht. apply filter_In in Ht. destruct Ht as [Ht Hc].
    split; [apply String.eqb_neq; now destruct (String.eqb t c)|].
    now apply (proj2 (is_tissue_build normal _ _ _)). }
  assert (Hgs : Forall (fun n => n <> c /\ is_node_type Gene G n = true) genes).
  { apply Forall_forall. intros g Hin. rewrite Forall_forall in Hg.
    split; [|now apply Hg]. pose proof (Hg g Hin) as Hgg.
    apply (proj1 (is_gene_build normal _ _ _)) in Hgg. tauto. }
  assert (Hsize : forall l nd, In nd (flat_map (node_data c colors G pos) l) ->
                    match nd_node_type nd with
                    | Tissue => nd_size nd = 25
                    | Gene => nd_size nd = 3
                    | Central => False
                    end).
  { intros l nd Hin. apply in_flat_map in Hin. destruct Hin as (n & _ & Hin).
    unfold node_data in Hin. destruct (String.eqb n c); [destruct Hin|].
    destruct (node_type (node_attrs n G)) as [[| |]|]; simpl in Hin;
      try contradiction; destruct Hin as [<-|[]]; reflexivity. }
  destruct (node_data_one_kind Tissue c colors G pos ts') as [Ht1 Ht2];
    [discriminate | exact Hts |].
  destruct (node_data_one_kind Gene c colors G pos genes) as [Hg1 Hg2];
    [discriminate | exact Hgs |].
  exists (flat_map (node_data c colors G pos) ts'),
         (flat_map (node_data c colors G pos) genes).
  split; [|split; [exact Ht1|split; [|split]]].
  - unfold nodes_data, nodes_data_of, fixed_positions_of. fold colors G pos.
    f_equal. rewrite Hn. cbn [flat_map]. unfold node_data at 1.
    rewrite String.eqb_refl. cbn [app]. apply flat_map_app.
  - apply Forall_forall. intros nd Hin. rewrite Forall_forall in Ht2.
    pose proof (Ht2 nd Hin) as Hty. split; [exact Hty|].
    pose proof (Hsize _ _ Hin) as Hs. now rewrite Hty in Hs.
  - apply Forall_forall. intros nd Hin. rewrite Forall_forall in Hg2.
    pose proof (Hg2 nd Hin) as Hty. split; [exact Hty|].
    pose proof (Hsize _ _ Hin) as Hs. now rewrite Hty in Hs.
  - rewrite <- (length_map nd_id), Hg1. symmetry. exact Ha.
Qed.

(** ** Counters and bounds *)

Lemma filter_none {A : Type} (p : A -> bool) (l : list A) :
  (forall x, In x l -> p x = false) -> filter p l = [].
Proof.
  induction l as [|a l IH]; intros H; [reflexivity|].
  simpl. rewrite (H a) by now left. apply IH. intros x Hx. apply H. now right.
Qed.

Lemma gene_nodes_of_shape {sorter : SortValues} normal f c genes :
  nodes (st_G (build_graph normal f c))
  = c :: filter (fun t => negb (String.eqb t c)) (unique (map tumor f)) ++ genes ->
  Forall (fun g => is_node_type Gene (st_G (build_graph normal f c)) g = true) genes ->
  gene_nodes (st_G (build_graph normal f c)) = genes.
Proof.
  intros Hn Hg. unfold gene_nodes. rewrite Hn. cbn [filter].
  assert (Hc : is_node_type Gene (st_G (build_graph normal f c)) c = false).
  { destruct (is_node_type Gene _ c) eqn:E; auto.
    apply (is_gene_build normal) in E. tauto. }
  rewrite Hc, filter_app.
  assert (Hts : filter (is_node_type Gene (st_G (build_graph normal f c)))
                  (filter (fun t => negb (String.eqb t c)) (unique (map tumor f))) = []).
  { apply filter_none. intros t Ht.
    apply filter_In in Ht. destruct Ht as [Ht _].
    destruct (is_node_type Gene _ t) eqn:E; auto.
    apply (is_gene_build normal) in E. tauto. }
  rewrite Hts. simpl.
  apply forallb_filter_id.
  apply forallb_forall. now apply Forall_forall.
Qed.

(** X3.  The counter the script prints as "Added ... gene nodes" is the
    number of gene nodes of the returned graph and of gene records in
    [nodes_data]. *)
Theorem genes_added_counts_gene_nodes :
  forall (sorter : SortValues) (normal : RandomSource) (df : list Row) (c : string),
    genes_added (build_graph normal (filter_pcc df) c)
    = List.length (gene_nodes (graph_of normal df c))
    /\ genes_added (build_graph normal (filter_pcc df) c)
       = List.length (records_of_type Gene (nodes_data normal df c)).
Proof.
  intros sorter normal df c.
  destruct (build_shape normal (filter_pcc df) c) as (genes & Hn & Hg & Ha & _).
  pose proof (gene_nodes_of_shape normal (filter_pcc df) c genes Hn Hg) as Hgn.
  split.
  - unfold graph_of. now rewrite Hgn.
  - unfold nodes_data. rewrite records_of_type_length by discriminate.
    rewrite Ha, <- Hgn. unfold gene_nodes. f_equal. apply filter_ext_in.
    intros n Hin.
    destruct (is_node_type Gene _ n) eqn:E; [|now rewrite andb_false_r].
    apply (is_gene_build normal) in E. destruct E as (_ & Hne & _).
    apply String.eqb_neq in Hne. now rewrite Hne.
Qed.






(** ** The edges of the returned graph *)

Lemma joins_swap a b u v : joins a b u v = joins b a u v.
Proof.
  unfold joins. rewrite orb_comm.
  now rewrite (andb_comm (String.eqb a v)), (andb_comm (String.eqb a u)).
Qed.

Lemma edge_weight_swap {sorter : SortValues} (normal : RandomSource) (f : list Row)
    (c a b : string) :
  edge_weight a b (st_G (build_graph normal f c))
  = edge_weight b a (st_G (build_graph normal f c)).
Proof.
  rewrite !build_edge_weight.
  rewrite (find_ext_in _ (fun r => joins b a (gene_symbol r) (tumor r))
                         (rev (visited_rows f)))
    by (intros; apply joins_swap).
  destruct (find _ _); auto.
  assert (E : existsb (joins a b c) (unique (map tumor f))
              = existsb (joins b a c) (unique (map tumor f))).
  { induction (unique (map tumor f)) as [|t ts IH]; simpl; auto.
    now rewrite IH, joins_swap. }
  now rewrite E.
Qed.

(** X5.  The returned graph is undirected, and each of its edges joins the
    central node with a tissue label or the gene of a visited row with the
    tissue the row was visited for; so a tissue label is at one end of
    every edge. *)
Theorem edges_undirected_through_tissues :
  forall (sorter : SortValues) (normal : RandomSource) (df : list Row)
         (c a b : string),
    let tissue_types := unique (map tumor (filter_pcc df)) in
    let G := graph_of normal df c in
    edge_weight a b G = edge_weight b a G
    /\ (has_edge a b G = true
        <-> (exists t, In t tissue_types /\ joins a b c t = true)
            \/ (exists r, In r (visited_rows (filter_pcc df))
                          /\ joins a b (gene_symbol r) (tumor r) = true))
    /\ (has_edge a b G = true -> In a tissue_types \/ In b tissue_types).
Proof.
  intros sorter normal df c a b tissue_types G.
  assert (Hsym : edge_weight a b G = edge_weight b a G)
    by apply edge_weight_swap.
  assert (Hiff : has_edge a b G = true
        <-> (exists t, In t tissue_types /\ joins a b c t = true)
            \/ (exists r, In r (visited_rows (filter_pcc df))
                          /\ joins a b (gene_symbol r) (tumor r) = true)).
  { unfold has_edge, G, graph_of. rewrite build_edge_weight.
    destruct (find _ _) as [r|] eqn:E.
    - split; auto. intros _. right. apply find_some in E.
      destruct E as [Hin Hj]. apply in_rev in Hin. eauto.
    - fold tissue_types.
      destruct (existsb (joins a b c) tissue_types) eqn:Ex.
      + split; auto. intros _. left. apply existsb_exists in Ex. exact Ex.
      + split; [discriminate|]. intros [(t & Ht & Hj)|(r & Hr & Hj)].
        * assert (Ex' : existsb (joins a b c) tissue_types = true)
            by (apply existsb_exists; eauto).
          congruence.
        * apply in_rev in Hr. rewrite (find_none _ _ E r Hr) in Hj. discriminate. }
  split; [exact Hsym|]. split; [exact Hiff|].
  intros He. apply Hiff in He. destruct He as [(t & Ht & Hj)|(r & Hr & Hj)].
  - apply joins_spec in Hj. destruct Hj as [[_ ->]|[-> _]]; auto.
  - assert (Ht : In (tumor r) tissue_types).
    { apply unique_In, in_map. eapply visited_rows_in. exact Hr. }
    apply joins_spec in Hj. destruct Hj as [[_ ->]|[-> _]]; auto.
Qed.

(** ** [G.edges()] yields every edge once *)

Lemma Forall_snd_set {V : Type} (P : V -> Prop) (d : Dict.t V) k v :
  P v -> Forall (fun e => P (snd e)) d -> Forall (fun e => P (snd e)) (Dict.set k v d).
Proof.
  intros Hv. induction d as [|[k' v'] d IH]; simpl; intros H.
  - constructor; auto.
  - inversion H as [|? ? H1 H2]; subst.
    destruct (String.eqb k k'); constructor; auto.
Qed.

Lemma NoDup_neighbours n adj :
  Forall (fun e : string * Dict.t Q => NoDup (Dict.keys (snd e))) adj ->
  NoDup (Dict.keys (neighbours n adj)).
Proof.
  intros H. unfold neighbours, Dict.get_default.
  destruct (Dict.get n adj) as [nbrs|] eqn:E; [|constructor].
  apply get_In in E. rewrite Forall_forall in H. exact (H _ E).
Qed.

Lemma nbrs_ok_add_node n a G : nbrs_ok G -> nbrs_ok (add_node n a G).
Proof.
  unfold nbrs_ok, add_node. intros H.
  destruct (Dict.get n (g_node G)); simpl; auto.
  apply (Forall_snd_set (fun nbrs : Dict.t Q => NoDup (Dict.keys nbrs))); auto.
  constructor.
Qed.

Lemma nbrs_ok_add_edge u v w G : nbrs_ok G -> nbrs_ok (add_edge u v w G).
Proof.
  unfold nbrs_ok. intros H.
  assert (Hstep : forall G' k,
            Forall (fun e => NoDup (Dict.keys (snd e))) (g_adj G') ->
            Forall (fun e => NoDup (Dict.keys (snd e)))
              (g_adj (if has_node k G' then G'
                      else mkGraph (Dict.set k no_attrs (g_node G'))
                                   (Dict.set k [] (g_adj G'))))).
  { intros G' k H'. destruct (has_node k G'); simpl; auto.
    apply (Forall_snd_set (fun nbrs : Dict.t Q => NoDup (Dict.keys nbrs))); auto.
    constructor. }
  unfold add_edge. cbn [g_adj].
  pose proof (Hstep _ v (Hstep G u H)) as H2.
  remember (g_adj (if has_node v _ then _ else _)) as adj2 eqn:E2 in *.
  clear E2.
  assert (H3 : Forall (fun e : string * Dict.t Q => NoDup (Dict.keys (snd e)))
                 (Dict.set u (Dict.set v w (neighbours u adj2)) adj2)).
  { apply (Forall_snd_set (fun nbrs : Dict.t Q => NoDup (Dict.keys nbrs))); auto.
    apply NoDup_keys_set, NoDup_neighbours, H2. }
  apply (Forall_snd_set (fun nbrs : Dict.t Q => NoDup (Dict.keys nbrs))); auto.
  apply NoDup_keys_set, NoDup_neighbours, H3.
Qed.

Lemma graph_ok_build {sorter : SortValues} normal f c :
  wf_graph (st_G (build_graph normal f c))
  /\ nbrs_ok (st_G (build_graph normal f c)).
Proof.
  rewrite st_G_build_graph.
  assert (Hg : forall l G, wf_graph G /\ nbrs_ok G ->
            wf_graph (fold_left add_gene_row l G)
            /\ nbrs_ok (fold_left add_gene_row l G)).
  { induction l as [|r l IH]; simpl; intros G [H1 H2]; auto.
    apply IH. unfold add_gene_row, add_gene.
    destruct (has_node (gene_symbol r) G).
    - split; [now apply wf_add_edge | now apply nbrs_ok_add_edge].
    - split; [now apply wf_add_edge, wf_add_node
             | now apply nbrs_ok_add_edge, nbrs_ok_add_node]. }
  assert (Ht : forall counts ts G, wf_graph G /\ nbrs_ok G ->
            wf_graph (fold_left (add_tissue c counts) ts G)
            /\ nbrs_ok (fold_left (add_tissue c counts) ts G)).
  { intros counts. induction ts as [|t ts IH]; simpl; intros G [H1 H2]; auto.
    apply IH. unfold add_tissue.
    split; [now apply wf_add_edge, wf_add_node
           | now apply nbrs_ok_add_edge, nbrs_ok_add_node]. }
  apply Hg, Ht. split.
  - apply wf_add_node, wf_empty_graph.
  - apply nbrs_ok_add_node. constructor.
Qed.

Lemma edges_from_not_seen seen adj (u v : string) :
  In (u, v) (edges_from seen adj) -> ~ In v seen.
Proof.
  revert seen. induction adj as [|[n nbrs] adj IH]; intros seen; simpl; [tauto|].
  rewrite in_app_iff, in_map_iff. intros [(x & Hx & Hin)|H].
  - injection Hx as -> ->. apply filter_In in Hin. destruct Hin as [_ Hin].
    apply negb_true_iff in Hin. now apply existsb_eqb_not_In.
  - intros Hs. apply (IH _ H). now right.
Qed.

Lemma edges_from_head seen (n : string) (nbrs : Dict.t Q) (u v : string) :
  In (u, v) (map (fun nbr => (n, nbr))
               (filter (fun nbr => negb (existsb (String.eqb nbr) seen))
                       (Dict.keys nbrs)))
  <-> u = n /\ In v (Dict.keys nbrs) /\ ~ In v seen.
Proof.
  rewrite in_map_iff. split.
  - intros (x & Hx & Hin). injection Hx as -> ->. apply filter_In in Hin.
    destruct Hin as [Hin Hs]. apply negb_true_iff in Hs.
    apply existsb_eqb_not_In in Hs. auto.
  - intros (-> & Hin & Hs). exists v. split; auto. apply filter_In. split; auto.
    apply negb_true_iff. now apply existsb_eqb_not_In.
Qed.

(** An edge is not yielded in both directions. *)
Lemma edges_from_one_direction seen adj (u v : string) :
  In (u, v) (edges_from seen adj) -> In (v, u) (edges_from seen adj) -> u = v.
Proof.
  revert seen. induction adj as [|[n nbrs] adj IH]; intros seen; simpl; [tauto|].
  rewrite !in_app_iff, !edges_from_head.
  intros [(-> & _)|H1] [(-> & _)|H2]; auto.
  - exfalso. apply edges_from_not_seen in H2. apply H2. now left.
  - exfalso. apply edges_from_not_seen in H1. apply H1. now left.
  - eapply IH; eauto.
Qed.

Lemma NoDup_map_pair (n : string) (l : list string) :
  NoDup l -> NoDup (map (fun nbr => (n, nbr)) l).
Proof.
  induction 1 as [|x l Hnot Hnd IH]; simpl; constructor; auto.
  rewrite in_map_iff. intros (y & E & Hy). injection E as ->. contradiction.
Qed.

Lemma NoDup_edges_from seen adj :
  NoDup (Dict.keys adj) ->
  Forall (fun e : string * Dict.t Q => NoDup (Dict.keys (snd e))) adj ->
  NoDup (edges_from seen adj).
Proof.
  revert seen. induction adj as [|[n nbrs] adj IH]; intros seen Hk Hn; simpl.
  - constructor.
  - inversion Hk as [|? ? Hnot Hk']; subst.
    inversion Hn as [|? ? Hn1 Hn']; subst. simpl in Hn1.
    apply NoDup_app.
    + apply NoDup_map_pair. now apply NoDup_filter.
    + now apply IH.
    + intros [u v] H1 H2. apply edges_from_head in H1. destruct H1 as (-> & _).
      apply in_edges_from in H2. destruct H2 as (nbrs' & H2 & _).
      apply Hnot. apply (in_map fst) in H2. exact H2.
Qed.

(** An edge stored under both its end points is yielded in one direction
    or the other. *)
Lemma edges_from_complete seen adj (a b : string) :
  Dict.get b (neighbours a adj) <> None ->
  Dict.get a (neighbours b adj) <> None ->
  ~ In a seen -> ~ In b seen ->
  In (a, b) (edges_from seen adj) \/ In (b, a) (edges_from seen adj).
Proof.
  revert seen. induction adj as [|[n nbrs] adj IH]; intros seen Hab Hba Ha Hb.
  - exfalso. apply Hab. reflexivity.
  - simpl. rewrite !in_app_iff, !edges_from_head.
    unfold neighbours, Dict.get_default in Hab, Hba. simpl in Hab, Hba.
    destruct (String.eqb_spec a n) as [->|Hna].
    + left. left. repeat split; auto. now apply get_In_keys.
    + destruct (String.eqb_spec b n) as [->|Hnb].
      * right. left. repeat split; auto. now apply get_In_keys.
      * destruct (IH (n :: seen)) as [H|H]; auto.
        -- simpl. intros [E|E]; [now apply Hna | now apply Ha].
        -- simpl. intros [E|E]; [now apply Hnb | now apply Hb].
Qed.

Lemma edge_end_is_node G a b w :
  wf_graph G -> edge_weight a b G = Some w -> In a (nodes G).
Proof.
  intros Hwf He. unfold nodes. apply mem_In_keys. rewrite Hwf.
  unfold edge_weight, neighbours, Dict.get_default, Dict.mem in *.
  destruct (Dict.get a (g_adj G)); [reflexivity | discriminate].
Qed.

(** X6.  [links_data] holds every edge of the returned graph once, in one
    direction only, and both ends of every link have a record in
    [nodes_data]. *)
Theorem links_data_lists_every_edge_once :
  forall (sorter : SortValues) (normal : RandomSource) (df : list Row) (c : string),
    let G := graph_of normal df c in
    let ends := map link_ends (links_data normal df c) in
    NoDup ends
    /\ (forall a b, has_edge a b G = true <-> In (a, b) ends \/ In (b, a) ends)
    /\ (forall a b, In (a, b) ends -> In (b, a) ends -> a = b)
    /\ (forall a b, In (a, b) ends ->
                    In a (map nd_id (nodes_data normal df c))
                    /\ In b (map nd_id (nodes_data normal df c))).
Proof.
  intros sorter normal df c G ends.
  assert (Hends : ends = edges G).
  { unfold ends, links_data, links_data_of, G, graph_of.
    rewrite map_map. unfold link_ends. cbn [source target].
    rewrite <- (map_id (edges _)) at 2. apply map_ext. now intros [u v]. }
  destruct (graph_ok_build normal (filter_pcc df) c) as [Hwf Hnb].
  pose proof (adj_ok_build normal (filter_pcc df) c) as Hok.
  fold (graph_of normal df c) in Hwf, Hnb, Hok. fold G in Hwf, Hnb, Hok.
  assert (Hin : forall a b, In (a, b) (edges G) -> has_edge a b G = true).
  { intros a b H. destruct (in_edges_weight G a b Hok H) as (w & Hw).
    unfold has_edge. now rewrite Hw. }
  assert (Hsw : forall a b, has_edge a b G = has_edge b a G).
  { intros a b. unfold has_edge, G, graph_of. now rewrite edge_weight_swap. }
  rewrite Hends. repeat split.
  - now apply NoDup_edges_from.
  - intros He.
    assert (He' : has_edge b a G = true) by now rewrite Hsw.
    unfold has_edge, edge_weight in He, He'.
    apply edges_from_complete; auto.
    + destruct (Dict.get b _); congruence.
    + destruct (Dict.get a _); congruence.
  - intros [H|H]; [now apply Hin | rewrite Hsw; now apply Hin].
  - apply edges_from_one_direction.
  - rewrite nodes_data_ids. fold G. apply Hin in H. unfold has_edge in H.
    destruct (edge_weight a b G) as [w|] eqn:E; [|discriminate].
    now apply (edge_end_is_node G a b w).
  - rewrite nodes_data_ids. fold G. apply Hin in H. rewrite Hsw in H.
    unfold has_edge in H.
    destruct (edge_weight b a G) as [w|] eqn:E; [|discriminate].
    now apply (edge_end_is_node G b a w).
Qed.

(** ** Colours *)

Lemma colors_untouched (l : list string) : forall s (d : Dict.t string) t,
  ~ In t l ->
  Dict.get t (fold_left
                (fun colors it =>
                   Dict.set (snd it)
                     (nth (fst it mod List.length color_list) color_list "") colors)
                (combine (seq s (List.length l)) l) d)
  = Dict.get t d.
Proof.
  induction l as [|x l IH]; intros s d t Hnot; [reflexivity|].
  cbn [List.length seq combine fold_left fst snd].
  rewrite IH by (intros H; apply Hnot; now right).
  apply get_set_other. intros ->. apply Hnot. now left.
Qed.

Lemma colors_by_rank (l : list string) : forall s (d : Dict.t string) i t,
  NoDup l -> nth_error l i = Some t ->
  Dict.get t (fold_left
                (fun colors it =>
                   Dict.set (snd it)
                     (nth (fst it mod List.length color_list) color_list "") colors)
                (combine (seq s (List.length l)) l) d)
  = Some (nth ((s + i) mod List.length color_list) color_list "").
Proof.
  induction l as [|x l IH]; intros s d i t Hnd Hi; [now destruct i|].
  inversion Hnd as [|? ? Hnot Hnd']; subst.
  cbn [List.length seq combine fold_left fst snd].
  destruct i as [|i]; simpl in Hi.
  - injection Hi as ->. rewrite colors_untouched by exact Hnot.
    rewrite get_set_same. now rewrite Nat.add_0_r.
  - rewrite (IH (S s) _ i t Hnd' Hi). do 3 f_equal. lia.
Qed.

Lemma tissue_colors_get (l : list string) i t :
  nth_error (unique l) i = Some t ->
  Dict.get_default t "#999999" (tissue_colors_of (unique l))
  = nth (i mod List.length color_list) color_list "".
Proof.
  intros Hi. unfold Dict.get_default, tissue_colors_of, enumerate.
  now rewrite (colors_by_rank (unique l) 0 [] i t (unique_NoDup l) Hi).
Qed.

(** X7.  Colours.  A tissue record has the colour of [color_list] at the
    rank of its label among the tissue labels, taken modulo the length of
    the list; a gene record has the colour of the tissue in its [tissue]
    field; the central record is red. *)
Theorem record_colours :
  forall (sorter : SortValues) (normal : RandomSource) (df : list Row) (c : string),
    let tissue_types := unique (map tumor (filter_pcc df)) in
    let colour_of_rank i := nth (i mod List.length color_list) color_list "" in
    Forall (fun nd =>
              match nd_node_type nd with
              | Central => nd_color nd = "red"
              | Tissue =>
                  exists i, nth_error tissue_types i = Some (nd_id nd)
                            /\ nd_color nd = colour_of_rank i
              | Gene =>
                  exists t i, nd_tissue nd = Some t
                              /\ nth_error tissue_types i = Some t
                              /\ nd_color nd = colour_of_rank i
              end)
           (nodes_data normal df c).
Proof.
  intros sorter normal df c tissue_types colour_of_rank.
  apply Forall_forall. intros nd Hin. unfold nodes_data in Hin.
  apply in_nodes_data_of in Hin. destruct Hin as [->|(n & Hn & Hin)]; [reflexivity|].
  unfold node_data in Hin.
  destruct (String.eqb_spec n c) as [|Hne]; [destruct Hin|].
  pose proof (is_tissue_build normal (filter_pcc df) c n) as Ht.
  pose proof (is_gene_build normal (filter_pcc df) c n) as Hg.
  pose proof (node_attrs_build normal (filter_pcc df) c n) as Ha.
  unfold is_node_type in Ht, Hg.
  destruct (node_type (node_attrs n _)) as [[| |]|] eqn:Ety;
    try (now destruct Hin).
  - destruct Hin as [<-|[]]. cbn [nd_node_type nd_id nd_color].
    assert (Hin : In n tissue_types) by now apply Ht.
    apply In_nth_error in Hin. destruct Hin as (i & Hi). exists i. split; auto.
    now apply tissue_colors_get.
  - destruct Hin as [<-|[]]. cbn [nd_node_type nd_tissue nd_color].
    destruct Hg as [Hg _]. destruct (Hg eq_refl) as (Hnt & _ & r & Hr).
    apply existsb_eqb_not_In in Hnt. rewrite Hnt, Hr in Ha.
    apply String.eqb_neq in Hne. rewrite Hne in Ha. rewrite Ha.
    cbn [gene_attrs attr_tissue].
    apply find_some in Hr. destruct Hr as [Hr _].
    assert (Hin : In (tumor r) tissue_types).
    { apply unique_In, in_map. eapply visited_rows_in. exact Hr. }
    apply In_nth_error in Hin. destruct Hin as (i & Hi). exists (tumor r), i.
    repeat split; auto. now apply tissue_colors_get.
Qed.

(** X8.  Colour does not tell tissues apart: two tissue labels whose ranks
    agree modulo 22, or whose ranks are 7 and 16 modulo 22 (where
    [color_list] repeats an entry), are different labels with the same
    colour in [tissue_colors]. *)
Theorem tissue_colours_shared :
  forall (df : list Row) (i j : nat) (ti tj : string),
    let tissue_types := unique (map tumor (filter_pcc df)) in
    nth_error tissue_types i = Some ti ->
    nth_error tissue_types j = Some tj ->
    i <> j ->
    i mod 22 = j mod 22 \/ (i mod 22 = 7 /\ j mod 22 = 16) ->
    ti <> tj
    /\ Dict.get ti (tissue_colors_of tissue_types)
       = Dict.get tj (tissue_colors_of tissue_types).
Proof.
  intros df i j ti tj tissue_types Hi Hj Hne Hmod. split.
  - intros <-. apply Hne.
    assert (Hlt : i < List.length tissue_types)
      by (apply nth_error_Some; congruence).
    apply (proj1 (NoDup_nth_error tissue_types) (unique_NoDup _) i j Hlt).
    congruence.
  - unfold tissue_colors_of, enumerate.
    rewrite (colors_by_rank tissue_types 0 [] i ti (unique_NoDup _) Hi).
    rewrite (colors_by_rank tissue_types 0 [] j tj (unique_NoDup _) Hj).
    cbn [Nat.add]. change (List.length color_list) with 22.
    destruct Hmod as [->|[-> ->]]; reflexivity.
Qed.

Lemma tissue_colours_shared_witness :
  "T07" <> "T16"
  /\ Dict.get "T07" (tissue_colors_of (unique (map tumor (filter_pcc table_17_tissues))))
     = Dict.get "T16" (tissue_colors_of (unique (map tumor (filter_pcc table_17_tissues)))).
Proof.
  apply (tissue_colours_shared table_17_tissues 7 16 "T07" "T16").
  - reflexivity.
  - reflexivity.
  - discriminate.
  - right. split; reflexivity.
Defined.

(** ** The keys of [fixed_positions] *)

(** X9.  The returned [fixed_positions] has a position for exactly the
    nodes of the returned graph; no look-up of a node's position on lines
    119-157 can miss. *)
Theorem positions_keys_are_nodes :
  forall (sorter : SortValues) (normal : RandomSource) (df : list Row) (c n : string),
    Dict.mem n (fixed_positions_of normal df c) = true
    <-> In n (nodes (graph_of normal df c)).
Proof.
  intros sorter normal df c n. unfold fixed_positions_of, graph_of.
  rewrite in_nodes_build.
  unfold build_graph. rewrite genes_loop_keys. cbn [st_positions].
  unfold place_tissues, enumerate. rewrite tissue_loop_keys. cbn [snd].
  rewrite !orb_true_iff, existsb_eqb_In, existsb_exists.
  unfold Dict.mem. cbn [Dict.get Dict.set].
  fold (visited_rows (filter_pcc df)).
  split.
  - intros [[H|H]|(r & Hr & Hn)].
    + right. left. destruct (String.eqb_spec n c); [auto | discriminate].
    + now left.
    + right. right. exists r. split; auto. now apply String.eqb_eq.
  - intros [H|[->|(r & Hr & <-)]].
    + left. now right.
    + left. left. now rewrite String.eqb_refl.
    + right. exists r. split; auto. apply String.eqb_refl.
Qed.

(** ** What a run prints *)

Lemma gene_loop_effects_console {sorter : SortValues} (f : list Row)
    (ts : list string) (w : World) :
  existsb scale_refused (flat_map (tissue_genes_of f) ts) = false ->
  gene_loop_effects true f ts w
  = (inr tt, mkWorld (console w ++ limiting_notices f ts) (output_dir_exists w)
                     (output_file w) (browser_opened w)).
Proof.
  revert w. induction ts as [|t ts IH]; intros [co de fi br] Hok.
  - cbn. now rewrite app_nil_r.
  - cbn [flat_map] in Hok. rewrite existsb_app in Hok.
    apply orb_false_iff in Hok. destruct Hok as [Hok1 Hok2].
    unfold tissue_genes_of in Hok1.
    cbn [gene_loop_effects limiting_notices flat_map].
    fold (limiting_notices f ts).
    rewrite (Permutation_length (sort_values_perm (rows_of_tissue t f))).
    unfold bind at 1.
    destruct (max_genes_per_tissue <? List.length (rows_of_tissue t f)).
    + cbn [print ret console output_dir_exists output_file browser_opened].
      unfold bind at 1.
      rewrite row_loop_effects_true, Hok1, (IH _ Hok2). cbn. now rewrite <- app_assoc.
    + cbn [ret]. unfold bind at 1.
      rewrite row_loop_effects_true, Hok1, (IH _ Hok2). reflexivity.
Qed.

(** X10.  A run on a table with its three columns that the operating
    system does not refuse.  When no visited row has a PCC above 1.5 the
    graph and the positions are returned; the console receives the loading
    line, the counts of tissue labels and filtered rows, a notice for
    every tissue with more than 150 rows, the count of gene nodes and the
    saving line, in this order; the output directory is there; the file
    holds the document; the browser has been opened.  When a visited row
    has a PCC above 1.5 the random source refuses its scale: the null
    result is returned, the error and its trace are printed, and the
    file, the directory and the browser are left as they were. *)
Theorem run_on_complete_table :
  forall (sorter : SortValues) (normal : RandomSource) (df : DataFrame)
         (c dir : string) (w : World),
    has_column "PCC" df = true -> has_column "Tumor" df = true ->
    has_column "Gene Symbol" df = true ->
    let filtered_df := filter_pcc (rows df) in
    let tissue_types := unique (map tumor filtered_df) in
    let out := create_web_network normal (Some df) c dir no_faults w in
    ((forall r, In r (visited_rows filtered_df) -> (pcc r <= 1.5)%Q) ->
     out = (Some (graph_of normal (rows df) c, fixed_positions_of normal (rows df) c),
            mkWorld (console w
                     ++ [Loading; Found (List.length tissue_types) (List.length filtered_df)]
                     ++ limiting_notices filtered_df tissue_types
                     ++ [Added (genes_added (build_graph normal filtered_df c)); Saved])
                    (output_dir_exists w || negb (String.eqb dir ""))
                    (Document (nodes_data normal (rows df) c)
                              (links_data normal (rows df) c))
                    true))
    /\ ((exists r, In r (visited_rows filtered_df) /\ (1.5 < pcc r)%Q) ->
        fst out = None
        /\ (exists msgs,
              console (snd out)
              = console w
                ++ [Loading; Found (List.length tissue_types) (List.length filtered_df)]
                ++ msgs
                ++ [Error (ValueError "scale < 0"); Traceback (ValueError "scale < 0")])
        /\ output_file (snd out) = output_file w
        /\ output_dir_exists (snd out) = output_dir_exists w
        /\ browser_opened (snd out) = browser_opened w).
Proof.
  intros sorter normal df c dir w Hp Ht Hg filtered_df tissue_types out.
  set (w1 := mkWorld ((console w ++ [Loading])
                      ++ [Found (List.length tissue_types) (List.length filtered_df)])
                     (output_dir_exists w) (output_file w) (browser_opened w)).
  assert (Eout : out
            = match (gene_loop_effects true filtered_df tissue_types ;;;
                     let st := build_graph normal filtered_df c in
                     print (Added (genes_added st)) ;;;
                     (fun w0 => if negb (String.eqb dir "") && negb (output_dir_exists w0)
                                then makedirs no_faults w0 else ret tt w0) ;;;
                     open_w no_faults ;;;
                     write no_faults
                       (nodes_data_of c (tissue_colors_of tissue_types)
                          (st_G st) (st_positions st))
                       (links_data_of (st_G st)) ;;;
                     print Saved ;;;
                     webbrowser_open ;;;
                     ret (st_G st, st_positions st)) w1 with
              | (inr result, w') => (Some result, w')
              | (inl e, w') =>
                  (None, mkWorld (console w' ++ [Error e; Traceback e])
                                 (output_dir_exists w') (output_file w')
                                 (browser_opened w'))
              end).
  { unfold out, create_web_network, try_body.
    unfold bind at 1. cbn [print fst snd].
    unfold bind at 1. cbn [read_csv ret].
    unfold bind at 1, require_column at 1. rewrite Hp. cbn [ret].
    unfold bind at 1, require_column at 1. rewrite Ht. cbn [ret].
    unfold bind at 1. cbn [print]. rewrite Hg. reflexivity. }
  clearbody out. split.
  - intros Hscale. rewrite Eout. unfold bind at 1.
    rewrite gene_loop_effects_console by (apply no_scale_refused, Hscale).
    unfold bind, print, makedirs, open_w, write, webbrowser_open, ret, no_faults.
    cbn -[has_column filter_pcc unique build_graph nodes_data_of links_data_of
          limiting_notices].
    unfold graph_of, fixed_positions_of, nodes_data, links_data.
    fold filtered_df. fold tissue_types.
    destruct (String.eqb dir ""); destruct (output_dir_exists w);
      cbn -[has_column filter_pcc unique build_graph nodes_data_of links_data_of
            limiting_notices];
      rewrite <- ?app_assoc; reflexivity.
  - intros (r & Hr & Hlt).
    assert (E : exists w2,
               out = (None, mkWorld (console w2 ++ [Error (ValueError "scale < 0");
                                                    Traceback (ValueError "scale < 0")])
                                    (output_dir_exists w2) (output_file w2)
                                    (browser_opened w2))
               /\ only_prints w1 w2);
      [|destruct E as (w2 & -> & ([msgs Hc] & Hd & Hf & Hb));
        cbn [fst snd console output_file output_dir_exists browser_opened];
        split; [reflexivity|]; split; [|auto];
        exists msgs; rewrite Hc; unfold w1; cbn [console];
        rewrite <- !app_assoc; reflexivity].
    rewrite Eout. unfold bind at 1.
    pose proof (gene_loop_effects_true filtered_df tissue_types w1) as Hfst.
    assert (Hex : existsb scale_refused
                    (flat_map (tissue_genes_of filtered_df) tissue_types) = true).
    { apply existsb_exists. exists r. split; [exact Hr|].
      destruct (scale_refused r) eqn:E; [reflexivity|].
      apply scale_refused_false in E. exfalso. exact (Qlt_not_le _ _ Hlt E). }
    rewrite Hex in Hfst.
    pose proof (gene_loop_effects_shape true filtered_df tissue_types w1) as P.
    destruct (gene_loop_effects true filtered_df tissue_types w1) as [res w2].
    cbn [fst snd] in *. subst res. exists w2. split; [reflexivity | exact P].
Qed.

Lemma run_on_complete_table_witness :
  console (snd (@create_web_network stable_sorter no_noise (Some frame_one_row)
                  "GCH1" "" no_faults fresh_world))
  = [Loading; Found 1 1; Added 1; Saved]
  /\ fst (@create_web_network stable_sorter no_noise (Some frame_large_score)
            "GCH1" "" no_faults fresh_world) = None
  /\ output_file (snd (@create_web_network stable_sorter no_noise (Some frame_large_score)
                         "GCH1" "" no_faults fresh_world)) = Untouched.
Proof.
  destruct (@run_on_complete_table stable_sorter no_noise frame_one_row "GCH1" ""
              fresh_world eq_refl eq_refl eq_refl) as [Hok _].
  destruct (@run_on_complete_table stable_sorter no_noise frame_large_score "GCH1" ""
              fresh_world eq_refl eq_refl eq_refl) as [_ Hbad].
  split.
  - rewrite Hok; [reflexivity|].
    intros r [<-|[]]. cbn. discriminate.
  - destruct Hbad as (Hnone & _ & Hfile & _).
    + exists (mkRow 0 "A" "Liver" 2.5%Q). split; [now left | reflexivity].
    + split; [exact Hnone | exact Hfile].
Defined.

(** ** A table of which no row passes the filter *)

(** X11.  When no row has a PCC of 0.8 or more, the run succeeds whether
    the table has a gene column or not: the graph is the central node
    alone, without an edge, placed at the origin, and the document holds the
    central record and no link. *)
Theorem no_row_passes_the_filter :
  forall (sorter : SortValues) (normal : RandomSource) (df : DataFrame)
         (c dir : string) (w : World),
    has_column "PCC" df = true -> has_column "Tumor" df = true ->
    filter_pcc (rows df) = [] ->
    let out := create_web_network normal (Some df) c dir no_faults w in
    exists G pos,
      fst out = Some (G, pos)
      /\ nodes G = [c] /\ edges G = [] /\ pos = [(c, (0%R, 0%R))]
      /\ output_file (snd out)
         = Document [ mkNodeData c c Central 50 "red" 0%R 0%R
                        (Some (c ++ " (central)")%string) None None None ] []
      /\ console (snd out) = console w ++ [Loading; Found 0 0; Added 0; Saved].
Proof.
  intros sorter normal df c dir w Hp Ht Hf out.
  assert (E : exists de,
             out = (Some (mkGraph [(c, central_attrs)] [(c, [])], [(c, (0%R, 0%R))]),
                    mkWorld (console w ++ [Loading; Found 0 0; Added 0; Saved]) de
                      (Document [ mkNodeData c c Central 50 "red" 0%R 0%R
                                    (Some (c ++ " (central)")%string) None None None ] [])
                      true)).
  { unfold out, create_web_network, try_body.
    unfold bind at 1. cbn [print fst snd].
    unfold bind at 1. cbn [read_csv ret].
    unfold bind at 1, require_column at 1. rewrite Hp. cbn [ret].
    unfold bind at 1, require_column at 1. rewrite Ht. cbn [ret].
    rewrite Hf.
    unfold bind, print, makedirs, open_w, write, webbrowser_open, ret, no_faults.
    cbn -[has_column String.eqb].
    unfold nodes_data_of, node_data, central_data, position, Dict.get_default.
    cbn -[has_column String.eqb]. rewrite !String.eqb_refl.
    destruct (negb (String.eqb dir "") && negb (output_dir_exists w));
      cbn -[String.eqb]; rewrite <- ?app_assoc; eexists; reflexivity. }
  destruct E as (de & ->). cbn [fst snd output_file console].
  eexists. eexists. split; [reflexivity|]. repeat split.
Qed.

Lemma no_row_passes_the_filter_witness :
  has_column "PCC" frame_no_gene_column = true
  /\ has_column "Tumor" frame_no_gene_column = true
  /\ has_column "Gene Symbol" frame_no_gene_column = false
  /\ filter_pcc (rows frame_no_gene_column) = []
  /\ exists G pos,
       fst (@create_web_network stable_sorter no_noise (Some frame_no_gene_column)
              "GCH1" "" no_faults fresh_world) = Some (G, pos)
       /\ nodes G = ["GCH1"].
Proof.
  split; [reflexivity|]. split; [reflexivity|]. split; [reflexivity|].
  split; [reflexivity|].
  destruct (@no_row_passes_the_filter stable_sorter no_noise frame_no_gene_column
              "GCH1" "" fresh_world eq_refl eq_refl eq_refl)
    as (G & pos & H1 & H2 & _).
  exists G, pos. split; [exact H1 | exact H2].
Defined.

(** ** Where a gene is placed *)

Lemma fold_left_ext_in {A B : Type} (f g : A -> B -> A) (l : list B) :
  (forall b, In b l -> forall a, f a b = g a b) ->
  forall a, fold_left f l a = fold_left g l a.
Proof.
  induction l as [|b l IH]; intros H a; simpl; auto.
  rewrite (H b) by now left. apply IH. intros b' Hb'. apply H. now right.
Qed.

Lemma genes_loop_as_rows {sorter : SortValues} normal f ts st :
  fold_left (genes_of_tissue_step normal f) ts st
  = fold_left (visit_row normal f) (flat_map (tissue_genes_of f) ts) st.
Proof.
  revert st. induction ts as [|t ts IH]; intros st; simpl; auto.
  rewrite IH, fold_left_app. f_equal. unfold genes_of_tissue_step.
  apply fold_left_ext_in. intros r Hr a. unfold visit_row.
  apply tissue_genes_in_rows in Hr. destruct Hr as [_ ->]. reflexivity.
Qed.

Lemma rows_untouched {sorter : SortValues} normal f k l : forall st,
  (forall r, In r l -> gene_symbol r <> k) ->
  Dict.get k (st_positions (fold_left (visit_row normal f) l st))
  = Dict.get k (st_positions st).
Proof.
  induction l as [|r l IH]; intros st H; simpl; auto.
  rewrite IH by (intros r' Hr'; apply H; now right).
  unfold visit_row. simpl. apply get_set_other. intros E.
  apply (H r); [now left | now symmetry].
Qed.

Lemma rows_draws {sorter : SortValues} normal f l : forall st,
  draws (fold_left (visit_row normal f) l st) = draws st + 2 * List.length l.
Proof.
  induction l as [|r l IH]; intros st; simpl; [lia|].
  rewrite IH. simpl. lia.
Qed.

(** X21.  The position of a gene is written by the last row visited that
    names it: it lies around the tissue of that row, at the angle of the
    row's label, with the two random numbers drawn at that row's turn
    (the tissue being where the first loop put it, no earlier row bearing
    its name). *)
Theorem gene_position_from_last_row :
  forall (sorter : SortValues) (normal : RandomSource) (df : list Row) (c : string)
         (pre post : list Row) (r : Row) (i : nat),
    let f := filter_pcc df in
    visited_rows f = pre ++ r :: post ->
    (forall r', In r' post -> gene_symbol r' <> gene_symbol r) ->
    (forall r', In r' pre -> gene_symbol r' <> tumor r) ->
    nth_error (unique (map tumor f)) i = Some (tumor r) ->
    position (gene_symbol r) (fixed_positions_of normal df c)
    = cloud_position normal (2 * List.length pre) (tissue_position i)
                     (List.length (tissue_genes_of f (tumor r))) r.
Proof.
  intros sorter normal df c pre post r i f Hv Hpost Hpre Hi.
  unfold fixed_positions_of, build_graph. fold f.
  rewrite genes_loop_as_rows. fold (visited_rows f). rewrite Hv.
  rewrite fold_left_app. cbn [fold_left].
  set (st0 := mkState (fst (place_tissues f c)) (snd (place_tissues f c)) 0 0).
  set (st1 := fold_left (visit_row normal f) pre st0).
  unfold position at 1, Dict.get_default.
  rewrite rows_untouched by exact Hpost.
  unfold visit_row at 1, gene_step. cbn [st_positions]. rewrite get_set_same.
  assert (Hd : draws st1 = 2 * List.length pre)
    by (unfold st1; rewrite rows_draws; reflexivity).
  assert (Hc : position (tumor r) (st_positions st1) = tissue_position i).
  { unfold position, Dict.get_default, st1. rewrite rows_untouched by exact Hpre.
    cbn [st0 st_positions].
    exact (place_tissues_position f c i (tumor r) Hi). }
  now rewrite Hd, Hc.
Qed.

Lemma gene_position_from_last_row_witness :
  let B := mkRow 1 "B" "T" 0.95%Q in
  let A := mkRow 0 "A" "T" 0.9%Q in
  @visited_rows stable_sorter (filter_pcc table_two) = [B] ++ A :: []
  /\ position "A" (@fixed_positions_of stable_sorter no_noise table_two "GCH1")
     = cloud_position no_noise (2 * 1) (tissue_position 0) 2 A.
Proof.
  intros B A.
  assert (Hv : @visited_rows stable_sorter (filter_pcc table_two) = [B] ++ A :: [])
    by reflexivity.
  split; [exact Hv|].
  apply (gene_position_from_last_row stable_sorter no_noise table_two "GCH1"
           [B] [] A 0 Hv).
  - intros r' [].
  - intros r' [<-|[]]. discriminate.
  - reflexivity.
Defined.

(** ** The direction of the links *)

Lemma mem_keys_eq {V W : Type} (d : Dict.t V) (e : Dict.t W) k :
  Dict.keys d = Dict.keys e -> Dict.mem k d = Dict.mem k e.
Proof.
  intros H. apply eq_true_iff_eq. now rewrite !mem_In_keys, H.
Qed.

Lemma adj_keys_step G k :
  Dict.keys (g_adj G) = Dict.keys (g_node G) ->
  let G' := if has_node k G then G
            else mkGraph (Dict.set k no_attrs (g_node G)) (Dict.set k [] (g_adj G)) in
  Dict.keys (g_adj G') = Dict.keys (g_node G') /\ has_node k G' = true.
Proof.
  intros H. cbn zeta. destruct (has_node k G) eqn:E; [auto|].
  cbn [g_adj g_node]. rewrite !keys_set.
  rewrite (mem_keys_eq (g_adj G) (g_node G) k H).
  unfold has_node in *. rewrite E, H. split; [reflexivity|].
  cbn [g_node]. rewrite mem_set, String.eqb_refl. reflexivity.
Qed.

Lemma adj_keys_add_node n a G :
  Dict.keys (g_adj G) = Dict.keys (g_node G) ->
  Dict.keys (g_adj (add_node n a G)) = Dict.keys (g_node (add_node n a G)).
Proof.
  intros H. unfold add_node.
  destruct (Dict.get n (g_node G)) as [old|] eqn:E; cbn [g_adj g_node];
    rewrite !keys_set.
  - unfold Dict.mem. now rewrite E.
  - rewrite (mem_keys_eq (g_adj G) (g_node G) n H). unfold Dict.mem.
    now rewrite E, H.
Qed.

Lemma adj_keys_add_edge u v w G :
  Dict.keys (g_adj G) = Dict.keys (g_node G) ->
  Dict.keys (g_adj (add_edge u v w G)) = Dict.keys (g_node (add_edge u v w G)).
Proof.
  intros H. unfold add_edge.
  destruct (adj_keys_step G u H) as [H1 Hu].
  set (G1 := if has_node u G then G else _) in *.
  destruct (adj_keys_step G1 v H1) as [H2 Hv].
  set (G2 := if has_node v G1 then G1 else _) in *.
  assert (Hu2 : has_node u G2 = true).
  { unfold G2. destruct (has_node v G1); auto.
    unfold has_node in *. cbn [g_node]. rewrite mem_set, Hu. apply orb_true_r. }
  cbn [g_adj g_node]. rewrite !keys_set, mem_set.
  unfold has_node in Hu2, Hv.
  rewrite (mem_keys_eq (g_adj G2) (g_node G2) u H2), Hu2.
  rewrite (mem_keys_eq (g_adj G2) (g_node G2) v H2), Hv.
  rewrite orb_true_r. exact H2.
Qed.

Lemma adj_keys_build {sorter : SortValues} normal f c :
  Dict.keys (g_adj (st_G (build_graph normal f c)))
  = nodes (st_G (build_graph normal f c)).
Proof.
  unfold nodes. rewrite st_G_build_graph.
  assert (Hg : forall l G, Dict.keys (g_adj G) = Dict.keys (g_node G) ->
            Dict.keys (g_adj (fold_left add_gene_row l G))
            = Dict.keys (g_node (fold_left add_gene_row l G))).
  { induction l as [|r l IH]; simpl; intros G H; auto.
    apply IH. unfold add_gene_row, add_gene. apply adj_keys_add_edge.
    destruct (has_node (gene_symbol r) G); auto. now apply adj_keys_add_node. }
  assert (Ht : forall counts ts G, Dict.keys (g_adj G) = Dict.keys (g_node G) ->
            Dict.keys (g_adj (fold_left (add_tissue c counts) ts G))
            = Dict.keys (g_node (fold_left (add_tissue c counts) ts G))).
  { intros counts. induction ts as [|t ts IH]; simpl; intros G H; auto.
    apply IH. unfold add_tissue. now apply adj_keys_add_edge, adj_keys_add_node. }
  apply Hg, Ht, adj_keys_add_node. reflexivity.
Qed.

(** A pair whose second node stands in a first stretch of [_adj] that the
    first node is not in, is not yielded. *)
Lemma edges_from_prefix (u v : string) (l1 l2 : Dict.t (Dict.t Q)) : forall seen,
  In (u, v) (edges_from seen (l1 ++ l2)) ->
  ~ In u (Dict.keys l1) -> In v (Dict.keys l1) -> False.
Proof.
  induction l1 as [|[n nbrs] l1 IH]; intros seen Hin Hu Hv; [destruct Hv|].
  cbn [app edges_from] in Hin. apply in_app_or in Hin. destruct Hin as [Hin|Hin].
  - apply edges_from_head in Hin. destruct Hin as (-> & _). apply Hu. now left.
  - destruct Hv as [Hv|Hv].
    + simpl in Hv. subst n. apply edges_from_not_seen in Hin. apply Hin. now left.
    + apply (IH _ Hin); auto. intros H. apply Hu. now right.
Qed.

(** X24.  The links run outwards.  The source of a record of
    [links_data] is never a gene node: it is a tissue label, or the central
    node with a tissue label as target ([G.edges()] yields an edge at the
    turn of its end point that entered the graph first). *)
Theorem links_run_outwards :
  forall (sorter : SortValues) (normal : RandomSource) (df : list Row) (c : string),
    let tissue_types := unique (map tumor (filter_pcc df)) in
    let G := graph_of normal df c in
    Forall (fun ld =>
              is_node_type Gene G (source ld) = false
              /\ (In (source ld) tissue_types
                  \/ (source ld = c /\ In (target ld) tissue_types)))
           (links_data normal df c).
Proof.
  intros sorter normal df c tissue_types G.
  apply Forall_forall. intros ld Hin.
  unfold links_data, links_data_of in Hin. apply in_map_iff in Hin.
  destruct Hin as ([u v] & <- & Hin). cbn [source target fst snd].
  fold (graph_of normal df c) in Hin. fold G in Hin.
  pose proof (adj_ok_build normal (filter_pcc df) c) as Hok.
  destruct (in_edges_weight G u v Hok Hin) as (w & Hw).
  unfold G, graph_of in Hw. rewrite build_edge_weight in Hw. fold tissue_types in Hw.
  pose proof (is_gene_build normal (filter_pcc df) c) as Hgene.
  fold tissue_types in Hgene. fold (graph_of normal df c) in Hgene. fold G in Hgene.
  assert (Hlabel : forall t, In t tissue_types -> is_node_type Gene G t = false).
  { intros t Ht. destruct (is_node_type Gene G t) eqn:E; auto.
    apply Hgene in E. tauto. }
  assert (Hcentral : is_node_type Gene G c = false).
  { destruct (is_node_type Gene G c) eqn:E; auto. apply Hgene in E. tauto. }
  destruct (find _ (rev (visited_rows (filter_pcc df)))) as [r|] eqn:Ef.
  - apply find_some in Ef. destruct Ef as [Hr Hj]. apply in_rev in Hr.
    assert (Ht : In (tumor r) tissue_types).
    { apply unique_In, in_map. eapply visited_rows_in. exact Hr. }
    apply joins_spec in Hj. destruct Hj as [[-> ->]|[-> ->]]; [|auto].
    destruct (is_node_type Gene G (gene_symbol r)) eqn:Eg.
    + exfalso. apply Hgene in Eg. destruct Eg as (Hnt & Hnc & _).
      destruct (build_shape normal (filter_pcc df) c) as (genes & Hn & _).
      fold tissue_types in Hn.
      set (ts' := filter (fun t => negb (String.eqb t c)) tissue_types) in *.
      pose proof (adj_keys_build normal (filter_pcc df) c) as Hk.
      rewrite Hn in Hk.
      set (adj := g_adj (st_G (build_graph normal (filter_pcc df) c))) in *.
      set (k := List.length (c :: ts')).
      assert (Hpre : Dict.keys (firstn k adj) = c :: ts').
      { unfold Dict.keys in *. rewrite <- firstn_map, Hk.
        change (c :: ts' ++ genes) with ((c :: ts') ++ genes).
        unfold k. rewrite firstn_app, firstn_all, Nat.sub_diag. simpl.
        now rewrite app_nil_r. }
      apply (edges_from_prefix (gene_symbol r) (tumor r) (firstn k adj) (skipn k adj) []).
      * rewrite firstn_skipn. exact Hin.
      * rewrite Hpre. intros [E|E]; [now apply Hnc|].
        apply filter_In in E. tauto.
      * rewrite Hpre. destruct (String.eqb_spec (tumor r) c) as [->|Hne];
          [now left | right].
        apply filter_In. split; auto. apply String.eqb_neq in Hne. now rewrite Hne.
    + split; [reflexivity|].
      destruct (in_dec string_dec (gene_symbol r) tissue_types) as [|Hnt]; [auto|].
      destruct (String.eqb_spec (gene_symbol r) c) as [Hc|Hnc]; [auto|].
      exfalso.
      assert (E : is_node_type Gene G (gene_symbol r) = true).
      { apply Hgene. split; [exact Hnt|]. split; [exact Hnc|].
        destruct (find (fun r0 => names r0 (gene_symbol r))
                       (visited_rows (filter_pcc df))) as [r0|] eqn:Ef0; [eauto|].
        pose proof (find_none _ _ Ef0 r Hr) as Hn0. unfold names in Hn0.
        rewrite String.eqb_refl in Hn0. discriminate. }
      congruence.
  - destruct (existsb (joins u v c) tissue_types) eqn:Ex; [|discriminate].
    apply existsb_exists in Ex. destruct Ex as (t & Ht & Hj).
    apply joins_spec in Hj. destruct Hj as [[-> ->]|[-> ->]]; auto.
Qed.

(* ================================================================== *)
(** * The client: view, pointer and layout *)

Section ClientView.
Import Client.

Local Open Scope R_scope.

Lemma scale_clamped (s : R) :
  MIN_SCALE <= Rmax MIN_SCALE (Rmin MAX_SCALE s) <= MAX_SCALE.
Proof.
  unfold MIN_SCALE, MAX_SCALE. split.
  - apply Rmax_l.
  - apply Rmax_lub; [lra | apply Rmin_l].
Qed.

(** X12.  A turn of the wheel leaves the zoom factor between 0.1 and 5
    whatever it was, multiplies it by 1.1 or 0.9 when that stays within
    these bounds, keeps the point of the plane under the pointer where it
    is (the zoom factor being other than 0 before), and touches no
    record. *)
Theorem wheel_zoom_bounded_and_anchored :
  forall (mouseX mouseY deltaY : R) (st : State),
    let st' := handleWheel mouseX mouseY deltaY st in
    let factor := if Rlt_dec deltaY 0 then 1.1 else 0.9 in
    MIN_SCALE <= scale st' <= MAX_SCALE
    /\ (MIN_SCALE <= scale st * factor <= MAX_SCALE -> scale st' = scale st * factor)
    /\ (scale st <> 0 ->
        (mouseX - offsetX st') / scale st' = (mouseX - offsetX st) / scale st
        /\ (mouseY - offsetY st') / scale st' = (mouseY - offsetY st) / scale st)
    /\ nodesData st' = nodesData st.
Proof.
  intros mouseX mouseY deltaY st st' factor.
  unfold st', handleWheel. cbn [scale offsetX offsetY nodesData].
  set (s1 := if Rlt_dec deltaY 0 then scale st * 1.1 else scale st * 0.9).
  assert (E1 : s1 = scale st * factor)
    by (unfold s1, factor; now destruct (Rlt_dec deltaY 0)).
  pose proof (scale_clamped s1) as Hb.
  set (s2 := Rmax MIN_SCALE (Rmin MAX_SCALE s1)) in *.
  assert (Hpos : s2 <> 0) by (unfold MIN_SCALE in Hb; lra).
  split; [exact Hb|]. split; [|split].
  - rewrite <- E1. intros [H1 H2]. unfold s2.
    rewrite Rmin_right by exact H2. now apply Rmax_right.
  - intros Hs. split; field; auto.
  - reflexivity.
Qed.

(** ** What the handlers leave alone *)

Lemma static_set_xy node x y : static (set_xy node x y) = static node.
Proof. reflexivity. Qed.

Lemma map_static_update_at i x y l :
  map static (update_at i (fun node => set_xy node x y) l) = map static l.
Proof.
  revert i. induction l as [|node l IH]; intros [|i]; simpl; auto.
  now rewrite IH.
Qed.

Lemma nth_error_update_at i j f l :
  nth_error (update_at i f l) j
  = if Nat.eqb j i then option_map f (nth_error l j) else nth_error l j.
Proof.
  revert i j. induction l as [|node l IH]; intros [|i] [|j]; simpl; auto;
    try (now destruct (Nat.eqb j i)); try (now destruct j).
Qed.

Lemma place_gene_static random t len acc it :
  map static (fst (place_gene random t len acc it)) = map static (fst acc).
Proof.
  unfold place_gene.
  destruct (nth_error (fst acc) t); [|reflexivity].
  destruct (nth_error (fst acc) (snd it)); [|reflexivity].
  cbn [fst]. apply map_static_update_at.
Qed.

Lemma place_genes_static random t len its acc :
  map static (fst (fold_left (place_gene random t len) its acc)) = map static (fst acc).
Proof.
  revert acc. induction its as [|it its IH]; intros acc; simpl; auto.
  rewrite IH. apply place_gene_static.
Qed.

Lemma place_tissue_genes_static random acc t :
  map static (fst (place_tissue_genes random acc t)) = map static (fst acc).
Proof.
  unfold place_tissue_genes. destruct (nth_error (fst acc) t); [|reflexivity].
  apply place_genes_static.
Qed.

Lemma optimizeLayout_static random st :
  map static (nodesData (optimizeLayout random st)) = map static (nodesData st).
Proof.
  unfold optimizeLayout. cbn [with_nodes nodesData].
  generalize (map fst (filter (fun t => NodeType_eqb Tissue (nd_node_type (snd t)))
                              (enumerate (nodesData st)))).
  intros ts. change (nodesData st) with (fst (nodesData st, random_calls st)) at 2.
  generalize (nodesData st, random_calls st).
  induction ts as [|t ts IH]; intros acc; simpl; auto.
  rewrite IH. apply place_tissue_genes_static.
Qed.

Lemma handle_static random st e :
  map static (nodesData (handle random st e)) = map static (nodesData st).
Proof.
  destruct e; cbn [handle]; try reflexivity.
  - unfold handleMouseDown. now destruct (getNodeAtPosition st mouseX mouseY) as [[i n]|].
  - unfold handleMouseMove. destruct (dragNode st).
    + cbn [with_nodes nodesData]. apply map_static_update_at.
    + destruct (isDraggingCanvas st); [reflexivity|].
      now destruct (getNodeAtPosition st mouseX mouseY) as [[i n]|].
  - apply optimizeLayout_static.
Qed.

Lemma handle_scale random st e :
  MIN_SCALE <= scale st <= MAX_SCALE ->
  MIN_SCALE <= scale (handle random st e) <= MAX_SCALE.
Proof.
  intros H. destruct e; cbn [handle]; auto.
  - unfold handleMouseDown. now destruct (getNodeAtPosition st mouseX mouseY) as [[i n]|].
  - unfold handleMouseMove. destruct (dragNode st); auto.
    destruct (isDraggingCanvas st); auto.
    now destruct (getNodeAtPosition st mouseX mouseY) as [[i n]|].
  - apply scale_clamped.
  - unfold MIN_SCALE, MAX_SCALE. simpl. lra.
Qed.

(** X13.  In every state the page can reach from its load, the zoom
    factor lies between 0.1 and 5, and [nodesData] holds the records of
    the payload in their order with nothing changed but positions. *)
Theorem reachable_states :
  forall (random : RandomNumbers) (payload : list NodeData)
         (clientWidth clientHeight : R) (events : list Event),
    let st := run random events (initialize random payload clientWidth clientHeight) in
    MIN_SCALE <= scale st <= MAX_SCALE
    /\ map static (nodesData st) = map static payload
    /\ List.length (nodesData st) = List.length payload.
Proof.
  intros random payload cw ch events st.
  assert (H : MIN_SCALE <= scale st <= MAX_SCALE
              /\ map static (nodesData st) = map static payload).
  { unfold st, run.
    assert (H0 : MIN_SCALE <= scale (initialize random payload cw ch) <= MAX_SCALE
                 /\ map static (nodesData (initialize random payload cw ch))
                    = map static payload).
    { unfold initialize. split.
      - unfold optimizeLayout, MIN_SCALE, MAX_SCALE. simpl. lra.
      - now rewrite optimizeLayout_static. }
    revert H0. generalize (initialize random payload cw ch).
    induction events as [|e events IH]; intros s0 [H1 H2]; simpl; auto.
    apply IH. split; [now apply handle_scale|]. now rewrite handle_static. }
  destruct H as [H1 H2]. repeat split; try apply H1; auto.
  rewrite <- (length_map static), H2. apply length_map.
Qed.

(** ** The record under the pointer *)

Lemma scan_down_spec hit nodes n :
  match scan_down hit nodes n with
  | Some (i, node) =>
      (i < n)%nat /\ nth_error nodes i = Some node /\ hit node = true
      /\ forall j node', (i < j < n)%nat -> nth_error nodes j = Some node' ->
                         hit node' = false
  | None =>
      forall j node', (j < n)%nat -> nth_error nodes j = Some node' -> hit node' = false
  end.
Proof.
  induction n as [|n IH]; simpl.
  - intros j node' Hj. lia.
  - destruct (nth_error nodes n) as [node|] eqn:En.
    + destruct (hit node) eqn:Eh.
      * repeat split; auto. intros j node' Hj. lia.
      * destruct (scan_down hit nodes n) as [[i node0]|].
        -- destruct IH as (H1 & H2 & H3 & H4). repeat split; auto.
           intros j node' Hj Hn. destruct (Nat.eq_dec j n) as [->|Hne].
           ++ congruence.
           ++ apply (H4 j); auto. lia.
        -- intros j node' Hj Hn. destruct (Nat.eq_dec j n) as [->|Hne].
           ++ congruence.
           ++ apply (IH j); auto. lia.
    + destruct (scan_down hit nodes n) as [[i node0]|].
      * destruct IH as (H1 & H2 & H3 & H4). repeat split; auto.
        intros j node' Hj Hn. destruct (Nat.eq_dec j n) as [->|Hne].
        -- congruence.
        -- apply (H4 j); auto. lia.
      * intros j node' Hj Hn. destruct (Nat.eq_dec j n) as [->|Hne].
        -- congruence.
        -- apply (IH j); auto. lia.
Qed.

(** X14.  [getNodeAtPosition] answers the record of [nodesData] with the
    greatest index whose disc, as the view shows it, holds the point, and
    nothing when no disc holds it. *)
Theorem hit_test_picks_last_record :
  forall (st : State) (x y : R),
    match getNodeAtPosition st x y with
    | Some (i, node) =>
        nth_error (nodesData st) i = Some node
        /\ on_disc st x y node = true
        /\ forall j node', (i < j)%nat -> nth_error (nodesData st) j = Some node' ->
                           on_disc st x y node' = false
    | None => Forall (fun node => on_disc st x y node = false) (nodesData st)
    end.
Proof.
  intros st x y. unfold getNodeAtPosition.
  pose proof (scan_down_spec (on_disc st x y) (nodesData st)
                (List.length (nodesData st))) as H.
  destruct (scan_down _ _ _) as [[i node]|].
  - destruct H as (H1 & H2 & H3 & H4). repeat split; auto.
    intros j node' Hj Hn. apply (H4 j); auto. split; auto.
    apply nth_error_Some. congruence.
  - apply Forall_forall. intros node Hin.
    apply In_nth_error in Hin. destruct Hin as (j & Hj).
    apply (H j); auto. apply nth_error_Some. congruence.
Qed.

(** ** Panning and dragging *)

Lemma last_cons {A : Type} (a d : A) (l : list A) : last (a :: l) d = last l a.
Proof.
  revert a d. induction l as [|b l IH]; intros a d; [reflexivity|].
  change (last (a :: b :: l) d) with (last (b :: l) d). now rewrite !IH.
Qed.

Lemma pan_moves random path : forall st,
  dragNode st = None -> isDraggingCanvas st = true ->
  let st' := run random (pointer_path path) st in
  let p := last path (startX st, startY st) in
  offsetX st' = offsetX st + (fst p - startX st)
  /\ offsetY st' = offsetY st + (snd p - startY st)
  /\ scale st' = scale st /\ nodesData st' = nodesData st.
Proof.
  induction path as [|q path IH]; intros st Hd Hc.
  - simpl. repeat split; lra.
  - cbn zeta. rewrite last_cons.
    change (run random (pointer_path (q :: path)) st)
      with (run random (pointer_path path)
              (handleMouseMove (fst q) (snd q) (fst q) (snd q) st)).
    set (st1 := handleMouseMove (fst q) (snd q) (fst q) (snd q) st).
    assert (E : st1 = mkClient (nodesData st) (width st) (height st) (scale st)
                        (offsetX st + (fst q - startX st))
                        (offsetY st + (snd q - startY st))
                        (dragNode st) (dragOffsetX st) (dragOffsetY st)
                        (isDraggingCanvas st) (fst q) (snd q)
                        (cursor st) (tooltip st) (random_calls st)).
    { unfold st1, handleMouseMove. now rewrite Hd, Hc. }
    destruct (IH st1) as (H1 & H2 & H3 & H4).
    + rewrite E. exact Hd.
    + rewrite E. exact Hc.
    + rewrite H1, H2, H3, H4. rewrite E. cbn.
      replace (fst q, snd q) with q by now destruct q.
      repeat split; lra.
Qed.

Lemma drag_moves random path : forall st i q,
  dragNode st = Some i ->
  let st' := run random (pointer_path (path ++ [q])) st in
  let x := (fst q - offsetX st) / scale st - dragOffsetX st in
  let y := (snd q - offsetY st) / scale st - dragOffsetY st in
  scale st' = scale st /\ offsetX st' = offsetX st /\ offsetY st' = offsetY st
  /\ forall j, nth_error (nodesData st') j
               = if Nat.eqb j i
                 then option_map (fun node => set_xy node x y) (nth_error (nodesData st) j)
                 else nth_error (nodesData st) j.
Proof.
  induction path as [|p path IH]; intros st i q Hd.
  - cbn [app pointer_path map run fold_left handle].
    unfold handleMouseMove. rewrite Hd. cbn. repeat split.
    intros j. apply nth_error_update_at.
  - cbn zeta.
    change (run random (pointer_path ((p :: path) ++ [q])) st)
      with (run random (pointer_path (path ++ [q]))
              (handleMouseMove (fst p) (snd p) (fst p) (snd p) st)).
    set (st1 := handleMouseMove (fst p) (snd p) (fst p) (snd p) st).
    assert (E : st1 = with_nodes st
                        (update_at i
                           (fun node => set_xy node
                              ((fst p - offsetX st) / scale st - dragOffsetX st)
                              ((snd p - offsetY st) / scale st - dragOffsetY st))
                           (nodesData st))
                        (random_calls st)).
    { unfold st1, handleMouseMove. now rewrite Hd. }
    destruct (IH st1 i q) as (H1 & H2 & H3 & H4).
    + rewrite E. exact Hd.
    + split; [now rewrite H1, E|]. split; [now rewrite H2, E|].
      split; [now rewrite H3, E|].
      intros j. rewrite H4. rewrite E.
      cbn [with_nodes scale offsetX offsetY dragOffsetX dragOffsetY nodesData].
      rewrite nth_error_update_at.
      destruct (Nat.eqb j i); [|reflexivity].
      now destruct (nth_error (nodesData st) j).
Qed.

Lemma on_disc_false st x y node :
  0 <= INR (nd_size node) * scale st ->
  (INR (nd_size node) * scale st) ^ 2
  < (x - (nd_x node * scale st + offsetX st)) ^ 2
    + (y - (nd_y node * scale st + offsetY st)) ^ 2 ->
  on_disc st x y node = false.
Proof.
  intros H0 H. unfold on_disc.
  destruct (Rle_dec _ _) as [Hle|]; [|reflexivity].
  exfalso. rewrite <- (sqrt_pow2 (INR (nd_size node) * scale st)) in Hle by exact H0.
  apply (Rlt_irrefl (sqrt ((INR (nd_size node) * scale st) ^ 2))).
  eapply Rlt_le_trans; [|exact Hle].
  apply sqrt_lt_1_alt. split; [apply pow2_ge_0 | exact H].
Qed.

(** X15.  Pressing the button where no disc is and moving the pointer.
    When no record is held, as after every release, the view shifts by
    the way the pointer has gone since the press and the records stay as
    they are.  When a record is still held from a press that was not
    released, it is this record that follows the pointer, and the view
    stays.  The zoom factor stays in both cases. *)
Theorem press_on_empty_canvas :
  forall (random : RandomNumbers) (st : State) (mouseX mouseY : R)
         (path : list (R * R)),
    getNodeAtPosition st mouseX mouseY = None ->
    let st' := run random (MouseDown mouseX mouseY :: pointer_path path) st in
    let p := last path (mouseX, mouseY) in
    scale st' = scale st
    /\ match dragNode st with
       | None =>
           offsetX st' = offsetX st + (fst p - mouseX)
           /\ offsetY st' = offsetY st + (snd p - mouseY)
           /\ nodesData st' = nodesData st
       | Some i =>
           offsetX st' = offsetX st /\ offsetY st' = offsetY st
           /\ (forall j, j <> i ->
                  nth_error (nodesData st') j = nth_error (nodesData st) j)
           /\ (path <> [] ->
                 nth_error (nodesData st') i
                 = option_map
                     (fun node =>
                        set_xy node
                          ((fst p - offsetX st) / scale st - dragOffsetX st)
                          ((snd p - offsetY st) / scale st - dragOffsetY st))
                     (nth_error (nodesData st) i))
       end.
Proof.
  intros random st mouseX mouseY path Hn st' p.
  unfold st'.
  change (run random (MouseDown mouseX mouseY :: pointer_path path) st)
    with (run random (pointer_path path) (handleMouseDown mouseX mouseY st)).
  unfold handleMouseDown. rewrite Hn.
  set (st1 := mkClient _ _ _ _ _ _ _ _ _ _ _ _ _ _ _).
  destruct (dragNode st) as [i|] eqn:Hd.
  - assert (Hd1 : dragNode st1 = Some i) by reflexivity.
    destruct path as [|q0 path0] eqn:Epath.
    + cbn. repeat split; auto. intros H. now destruct H.
    + destruct (@exists_last _ (q0 :: path0)) as (path' & q & Eq); [discriminate|].
      assert (Hp : p = q) by (unfold p; rewrite Eq; apply last_last).
      rewrite Eq.
      destruct (drag_moves random path' st1 i q Hd1) as (H1 & H2 & H3 & H4).
      split; [exact H1|]. split; [exact H2|]. split; [exact H3|]. split.
      * intros j Hj. rewrite H4. apply Nat.eqb_neq in Hj. now rewrite Hj.
      * intros _. rewrite H4, Nat.eqb_refl, Hp. reflexivity.
  - destruct (pan_moves random path st1 eq_refl eq_refl) as (H1 & H2 & H3 & H4).
    split; [exact H3|]. repeat split; assumption.
Qed.

Lemma press_on_empty_canvas_witness :
  let st := loaded [] 800 600 in
  let st' := run (fun _ => 0) (MouseDown 10 20 :: pointer_path [(15, 25); (30, 5)]) st in
  let held := handleMouseDown 400 300 (loaded [gene_at_origin] 800 600) in
  let held' := run (fun _ => 0) (MouseDown 10 20 :: pointer_path [(15, 25); (30, 5)])
                   held in
  (offsetX st' = offsetX st + (30 - 10) /\ offsetY st' = offsetY st + (5 - 20))
  /\ dragNode held = Some 0%nat
  /\ offsetX held' = offsetX held
  /\ nth_error (nodesData held') 0
     = Some (set_xy gene_at_origin ((30 - 800 / 2) / 1 - ((400 - 800 / 2) / 1 - 0))
                                   ((5 - 600 / 2) / 1 - ((300 - 600 / 2) / 1 - 0))).
Proof.
  intros st st' held held'.
  destruct (press_on_empty_canvas (fun _ => 0) st 10 20 [(15, 25); (30, 5)] eq_refl)
    as (_ & H1 & H2 & _).
  split; [split; [exact H1 | exact H2]|].
  assert (Hhit : getNodeAtPosition (loaded [gene_at_origin] 800 600) 400 300
                 = Some (0%nat, gene_at_origin)).
  { unfold getNodeAtPosition. cbn [loaded nodesData List.length scan_down nth_error].
    unfold on_disc.
    destruct (Rle_dec _ _) as [H|H]; [reflexivity|].
    exfalso. apply H. cbn.
    replace ((400 - (0 * 1 + 800 / 2)) * ((400 - (0 * 1 + 800 / 2)) * 1)
             + (300 - (0 * 1 + 600 / 2)) * ((300 - (0 * 1 + 600 / 2)) * 1))
      with 0 by field.
    rewrite sqrt_0. lra. }
  assert (Eheld : held = mkClient [gene_at_origin] 800 600 1 (800 / 2) (600 / 2)
                           (Some 0%nat) ((400 - 800 / 2) / 1 - 0)
                           ((300 - 600 / 2) / 1 - 0) false 0 0
                           CursorGrabbing None 0).
  { unfold held, handleMouseDown. rewrite Hhit. reflexivity. }
  assert (Hmiss : getNodeAtPosition held 10 20 = None).
  { rewrite Eheld. unfold getNodeAtPosition.
    cbn [nodesData List.length scan_down nth_error].
    rewrite on_disc_false; [reflexivity | cbn; lra | cbn; lra]. }
  pose proof (press_on_empty_canvas (fun _ => 0) held 10 20 [(15, 25); (30, 5)] Hmiss)
    as Hpress.
  cbn zeta in Hpress. fold held' in Hpress.
  assert (Hd : dragNode held = Some 0%nat) by (rewrite Eheld; reflexivity).
  rewrite Hd in Hpress. destruct Hpress as (_ & H3 & _ & _ & H4).
  split; [exact Hd|]. split; [exact H3|].
  rewrite H4 by discriminate. rewrite Eheld. reflexivity.
Defined.

(** X16.  Pressing the button on a disc and moving the pointer moves that
    record, and no other, by the way the pointer has gone since the
    press, divided by the zoom factor; the view stays as it is. *)
Theorem drag_follows_pointer :
  forall (random : RandomNumbers) (st : State) (mouseX mouseY : R)
         (i : nat) (node : NodeData) (path : list (R * R)) (q : R * R),
    scale st <> 0 ->
    getNodeAtPosition st mouseX mouseY = Some (i, node) ->
    let st' := run random (MouseDown mouseX mouseY :: pointer_path (path ++ [q])) st in
    nth_error (nodesData st') i
    = Some (set_xy node (nd_x node + (fst q - mouseX) / scale st)
                        (nd_y node + (snd q - mouseY) / scale st))
    /\ (forall j, j <> i -> nth_error (nodesData st') j = nth_error (nodesData st) j)
    /\ scale st' = scale st /\ offsetX st' = offsetX st /\ offsetY st' = offsetY st.
Proof.
  intros random st mouseX mouseY i node path q Hs Hn st'.
  assert (Hi : nth_error (nodesData st) i = Some node).
  { pose proof (scan_down_spec (on_disc st mouseX mouseY) (nodesData st)
                  (List.length (nodesData st))) as Hhit.
    unfold getNodeAtPosition in Hn. rewrite Hn in Hhit. tauto. }
  unfold st'.
  change (run random (MouseDown mouseX mouseY :: pointer_path (path ++ [q])) st)
    with (run random (pointer_path (path ++ [q])) (handleMouseDown mouseX mouseY st)).
  unfold handleMouseDown. rewrite Hn.
  set (st1 := mkClient _ _ _ _ _ _ _ _ _ _ _ _ _ _ _).
  destruct (drag_moves random path st1 i q eq_refl) as (H1 & H2 & H3 & H4).
  rewrite H1, H2, H3.
  assert (H5 : forall j, nth_error (nodesData (run random (pointer_path (path ++ [q])) st1)) j
                 = if Nat.eqb j i
                   then option_map
                          (fun n => set_xy n
                             ((fst q - offsetX st) / scale st
                              - ((mouseX - offsetX st) / scale st - nd_x node))
                             ((snd q - offsetY st) / scale st
                              - ((mouseY - offsetY st) / scale st - nd_y node)))
                          (nth_error (nodesData st) j)
                   else nth_error (nodesData st) j)
    by exact H4.
  clear H4. rename H5 into H4.
  assert (E1 : scale st1 = scale st) by reflexivity.
  assert (E2 : offsetX st1 = offsetX st) by reflexivity.
  assert (E3 : offsetY st1 = offsetY st) by reflexivity.
  clearbody st1.
  repeat split; auto.
  - rewrite H4, Nat.eqb_refl, Hi. cbn [option_map]. f_equal.
    unfold set_xy. f_equal; field; exact Hs.
  - intros j Hj. rewrite H4. apply Nat.eqb_neq in Hj. now rewrite Hj.
Qed.

Lemma drag_follows_pointer_witness :
  let st := loaded [gene_at_origin] 800 600 in
  let st' := run (fun _ => 0) (MouseDown 400 300 :: pointer_path ([] ++ [(410, 320)])) st in
  scale st <> 0
  /\ getNodeAtPosition st 400 300 = Some (0%nat, gene_at_origin)
  /\ nth_error (nodesData st') 0
     = Some (set_xy gene_at_origin (0 + (410 - 400) / 1) (0 + (320 - 300) / 1)).
Proof.
  intros st st'.
  assert (Hs : scale st <> 0) by (simpl; lra).
  assert (Hn : getNodeAtPosition st 400 300 = Some (0%nat, gene_at_origin)).
  { unfold getNodeAtPosition. cbn [st loaded nodesData List.length scan_down nth_error].
    unfold on_disc.
    destruct (Rle_dec _ _) as [H|H]; [reflexivity|].
    exfalso. apply H. cbn.
    replace ((400 - (0 * 1 + 800 / 2)) * ((400 - (0 * 1 + 800 / 2)) * 1)
             + (300 - (0 * 1 + 600 / 2)) * ((300 - (0 * 1 + 600 / 2)) * 1))
      with 0 by field.
    rewrite sqrt_0. lra. }
  split; [exact Hs|]. split; [exact Hn|].
  destruct (drag_follows_pointer (fun _ => 0) st 400 300 0%nat gene_at_origin []
              (410, 320) Hs Hn) as (H & _).
  exact H.
Defined.

(** ** The layout of the genes *)

Lemma in_combine_seq {A : Type} (l : list A) : forall s i (a : A),
  In (i, a) (combine (seq s (List.length l)) l)
  <-> (s <= i)%nat /\ nth_error l (i - s) = Some a.
Proof.
  induction l as [|b l IH]; intros s i a; simpl.
  - split; [tauto|]. intros [_ H]. now destruct (i - s)%nat.
  - rewrite IH. split.
    + intros [E|[H1 H2]].
      * injection E as -> ->. rewrite Nat.sub_diag. auto.
      * split; [lia|]. replace (i - s)%nat with (S (i - S s)) by lia. exact H2.
    + intros [H1 H2]. destruct (Nat.eq_dec s i) as [->|Hne].
      * rewrite Nat.sub_diag in H2. simpl in H2. injection H2 as ->. now left.
      * right. split; [lia|].
        replace (i - s)%nat with (S (i - S s)) in H2 by lia. exact H2.
Qed.

Lemma in_enumerate {A : Type} (l : list A) i (a : A) :
  In (i, a) (enumerate l) <-> nth_error l i = Some a.
Proof.
  unfold enumerate. rewrite in_combine_seq, Nat.sub_0_r.
  split; [tauto | split; [lia | assumption]].
Qed.

Lemma map_snd_combine_seq {A : Type} (l : list A) s :
  map snd (combine (seq s (List.length l)) l) = l.
Proof.
  revert s. induction l as [|a l IH]; intros s; simpl; auto. now rewrite IH.
Qed.

Lemma in_insert_gene g h l : In g (insert_gene h l) <-> g = h \/ In g l.
Proof.
  induction l as [|x l IH]; simpl.
  - intuition.
  - destruct (Qle_bool _ _); simpl; [intuition|]. rewrite IH. intuition.
Qed.

Lemma in_sort_genes g l : In g (sort_genes l) <-> In g l.
Proof.
  induction l as [|x l IH]; simpl; [tauto|].
  rewrite in_insert_gene, IH. intuition.
Qed.

Lemma nth_static l1 l2 j b :
  map static l1 = map static l2 -> nth_error l2 j = Some b ->
  exists a, nth_error l1 j = Some a /\ static a = static b.
Proof.
  intros Hm Hb. apply (map_nth_error static) in Hb. rewrite <- Hm in Hb.
  rewrite nth_error_map in Hb.
  destruct (nth_error l1 j) as [a|]; [|discriminate].
  exists a. split; auto. simpl in Hb. congruence.
Qed.

Lemma static_fields a b :
  static a = static b ->
  nd_node_type a = nd_node_type b /\ nd_tissue a = nd_tissue b
  /\ nd_name a = nd_name b /\ nd_pcc a = nd_pcc b.
Proof.
  intros H.
  pose proof (f_equal nd_node_type H). pose proof (f_equal nd_tissue H).
  pose proof (f_equal nd_name H). pose proof (f_equal nd_pcc H). auto.
Qed.

Lemma gene_of_static tissue a b : static a = static b -> gene_of tissue a = gene_of tissue b.
Proof.
  intros H. apply static_fields in H. destruct H as (H1 & H2 & _).
  unfold gene_of. now rewrite H1, H2.
Qed.

Lemma gene_of_is_gene tissue node : gene_of tissue node = true -> nd_node_type node = Gene.
Proof.
  unfold gene_of. destruct (nd_node_type node); simpl; auto; discriminate.
Qed.

Lemma place_genes_placed random t len tissue : forall its acc,
  nth_error (fst acc) t = Some tissue -> nd_node_type tissue = Tissue ->
  (forall it, In it its ->
     (fst it < len)%nat
     /\ exists gene, nth_error (fst acc) (snd it) = Some gene
                     /\ nd_node_type gene = Gene) ->
  let acc' := fold_left (place_gene random t len) its acc in
  nth_error (fst acc') t = Some tissue
  /\ (forall j, ~ In j (map snd its) -> nth_error (fst acc') j = nth_error (fst acc) j)
  /\ (forall j, In j (map snd its) ->
        exists gene', nth_error (fst acc') j = Some gene'
                      /\ placed_around random tissue gene').
Proof.
  induction its as [|[idx gi] its IH]; intros acc Ht Hty Hits; cbn zeta.
  - simpl. repeat split; auto. intros j [].
  - cbn [fold_left].
    destruct (Hits (idx, gi) (or_introl eq_refl)) as (Hidx & gene & Hg & Hgty).
    cbn [fst snd] in Hidx, Hg.
    assert (Hne : t <> gi) by (intros ->; congruence).
    set (acc1 := place_gene random t len acc (idx, gi)).
    assert (E : exists x y,
               fst acc1 = update_at gi (fun node => set_xy node x y) (fst acc)
               /\ x = nd_x tissue + cloud_distance random (snd acc) gene
                                    * cos (cloud_angle random (snd acc) len idx gene)
               /\ y = nd_y tissue + cloud_distance random (snd acc) gene
                                    * sin (cloud_angle random (snd acc) len idx gene)).
    { unfold acc1, place_gene. cbn [fst snd]. rewrite Ht, Hg. cbn [fst].
      eexists. eexists. split; [reflexivity|]. split; reflexivity. }
    destruct E as (x & y & E & Hx & Hy).
    destruct (IH acc1) as (H1 & H2 & H3).
    + rewrite E, nth_error_update_at. apply Nat.eqb_neq in Hne. now rewrite Hne.
    + exact Hty.
    + intros it Hin. destruct (Hits it (or_intror Hin)) as (Hi & g' & Hg' & Hgty').
      split; auto. rewrite E, nth_error_update_at.
      destruct (Nat.eqb (snd it) gi); [|eauto].
      rewrite Hg'. simpl. eexists. split; [reflexivity | exact Hgty'].
    + split; [exact H1|]. split.
      * intros j Hj. rewrite H2 by (intros Hin; apply Hj; now right).
        rewrite E, nth_error_update_at.
        destruct (Nat.eqb_spec j gi) as [->|]; [|reflexivity].
        exfalso. apply Hj. now left.
      * intros j Hj.
        destruct (in_dec Nat.eq_dec j (map snd its)) as [Hin|Hnin]; [now apply H3|].
        destruct Hj as [<-|Hj]; [|contradiction]. cbn [snd] in *.
        rewrite (H2 gi Hnin), E, nth_error_update_at, Nat.eqb_refl, Hg. simpl.
        eexists. split; [reflexivity|].
        exists (snd acc), len, idx. split; [exact Hidx|]. split; [exact Hx | exact Hy].
Qed.

Lemma enumerate_fst_lt {A : Type} (l : list A) it :
  In it (enumerate l) -> (fst it < List.length l)%nat.
Proof.
  destruct it as [i a]. rewrite in_enumerate. intros H. apply nth_error_Some.
  simpl. congruence.
Qed.

(** One turn of the loop over the tissues: the genes of the tissue are
    placed around it, every other record stays. *)
Lemma turn_placed random acc t tissue :
  nth_error (fst acc) t = Some tissue -> nd_node_type tissue = Tissue ->
  let acc' := place_tissue_genes random acc t in
  (forall j node, nth_error (fst acc) j = Some node -> gene_of tissue node = false ->
                  nth_error (fst acc') j = Some node)
  /\ (forall j node, nth_error (fst acc) j = Some node -> gene_of tissue node = true ->
                     exists node', nth_error (fst acc') j = Some node'
                                   /\ placed_around random tissue node').
Proof.
  intros Ht Hty. cbn zeta. unfold place_tissue_genes. rewrite Ht.
  set (tissueGenes := sort_genes (filter (fun g => gene_of tissue (snd g))
                                         (enumerate (fst acc)))).
  assert (Hin : forall j, In j (map fst tissueGenes)
                          <-> exists node, nth_error (fst acc) j = Some node
                                           /\ gene_of tissue node = true).
  { intros j. rewrite in_map_iff. split.
    - intros ([j' node] & <- & H). apply in_sort_genes, filter_In in H.
      destruct H as [H1 H2]. apply in_enumerate in H1. eauto.
    - intros (node & H1 & H2). exists (j, node). split; auto.
      apply in_sort_genes, filter_In. split; auto. now apply in_enumerate. }
  destruct (place_genes_placed random t (List.length tissueGenes) tissue
              (enumerate (map fst tissueGenes)) acc Ht Hty) as (_ & H2 & H3).
  { intros it Hit. split.
    - apply enumerate_fst_lt in Hit. now rewrite length_map in Hit.
    - assert (Hs : In (snd it) (map fst tissueGenes)).
      { destruct it as [i g]. apply in_enumerate, nth_error_In in Hit. exact Hit. }
      apply Hin in Hs. destruct Hs as (node & Hn & Hg). exists node. split; auto.
      now apply gene_of_is_gene in Hg. }
  unfold enumerate in H2, H3. rewrite map_snd_combine_seq in H2, H3.
  fold (enumerate (map fst tissueGenes)) in H2, H3.
  split.
  - intros j node Hn Hg. rewrite H2; auto. intros Hj. apply Hin in Hj.
    destruct Hj as (node' & Hn' & Hg'). congruence.
  - intros j node Hn Hg. apply H3. apply Hin. eauto.
Qed.

Lemma gene_of_tissue_false tissue node :
  nd_node_type node <> Gene -> gene_of tissue node = false.
Proof.
  intros H. unfold gene_of. destruct (nd_node_type node); simpl; auto. congruence.
Qed.

(** The loop over the tissues: a record that is no gene of any of them
    stays; a gene of one of them ends up placed around one of them. *)
Lemma layout_placed random : forall ts acc,
  (forall t, In t ts -> exists tissue, nth_error (fst acc) t = Some tissue
                                       /\ nd_node_type tissue = Tissue) ->
  let acc' := fold_left (place_tissue_genes random) ts acc in
  forall j node, nth_error (fst acc) j = Some node ->
    ((forall t tissue, In t ts -> nth_error (fst acc) t = Some tissue ->
                       gene_of tissue node = false) ->
     nth_error (fst acc') j = Some node)
    /\ (forall t tissue, In t ts -> nth_error (fst acc) t = Some tissue ->
          gene_of tissue node = true ->
          exists t' tissue' node',
            In t' ts /\ nth_error (fst acc) t' = Some tissue'
            /\ gene_of tissue' node = true
            /\ nth_error (fst acc') j = Some node'
            /\ placed_around random tissue' node').
Proof.
  induction ts as [|t1 ts IH]; intros acc Hts; cbn zeta; intros j node Hj.
  - simpl. split; [auto|]. intros t tissue [].
  - cbn [fold_left].
    destruct (Hts t1 (or_introl eq_refl)) as (tis1 & Ht1 & Hty1).
    destruct (turn_placed random acc t1 tis1 Ht1 Hty1) as [Hb1 Hc1].
    set (acc1 := place_tissue_genes random acc t1) in *.
    assert (Hsame : forall t, In t ts -> nth_error (fst acc1) t = nth_error (fst acc) t).
    { intros t Ht. destruct (Hts t (or_intror Ht)) as (tissue & Hn & Hty).
      rewrite Hn. apply Hb1; auto. apply gene_of_tissue_false. congruence. }
    assert (Hts1 : forall t, In t ts ->
              exists tissue, nth_error (fst acc1) t = Some tissue
                             /\ nd_node_type tissue = Tissue).
    { intros t Ht. rewrite (Hsame t Ht). apply Hts. now right. }
    pose proof (place_tissue_genes_static random acc t1) as Hst. fold acc1 in Hst.
    destruct (nth_static _ _ j node Hst Hj) as (node1 & Hj1 & Hs1).
    destruct (IH acc1 Hts1 j node1 Hj1) as [HB HC].
    split.
    + intros Hno.
      assert (E : node1 = node).
      { pose proof (Hb1 j node Hj (Hno t1 tis1 (or_introl eq_refl) Ht1)). congruence. }
      subst node1. apply HB. intros t tissue Ht Hn.
      rewrite (Hsame t Ht) in Hn. apply (Hno t tissue); auto. now right.
    + intros t tissue Ht Hn Hg.
      destruct (existsb (fun t => match nth_error (fst acc) t with
                                  | Some tissue => gene_of tissue node
                                  | None => false
                                  end) ts) eqn:Ex.
      * apply existsb_exists in Ex. destruct Ex as (t2 & Ht2 & Hm).
        destruct (nth_error (fst acc) t2) as [tis2|] eqn:Hn2; [|discriminate].
        destruct (HC t2 tis2 Ht2) as (t' & tissue' & node' & H1 & H2 & H3 & H4 & H5).
        -- now rewrite (Hsame t2 Ht2).
        -- now rewrite (gene_of_static tis2 _ _ Hs1).
        -- exists t', tissue', node'. split; [now right|].
           split; [now rewrite <- (Hsame t' H1)|].
           split; [now rewrite <- (gene_of_static tissue' _ _ Hs1)|]. auto.
      * assert (Hnone : forall t tissue, In t ts -> nth_error (fst acc) t = Some tissue ->
                                         gene_of tissue node = false).
        { intros t0 tissue0 Ht0 Hn0.
          destruct (gene_of tissue0 node) eqn:E; auto.
          assert (Ex' : existsb (fun t => match nth_error (fst acc) t with
                                          | Some tissue => gene_of tissue node
                                          | None => false
                                          end) ts = true).
          { apply existsb_exists. exists t0. split; auto. now rewrite Hn0. }
          congruence. }
        destruct Ht as [<-|Ht]; [|rewrite (Hnone t tissue Ht Hn) in Hg; discriminate].
        assert (tissue = tis1) by congruence. subst tissue.
        destruct (Hc1 j node Hj Hg) as (node' & Hn' & Hp).
        assert (node1 = node') by congruence. subst node'.
        exists t1, tis1, node1. split; [now left|]. split; [exact Ht1|].
        split; [exact Hg|]. split; [|exact Hp].
        apply HB. intros t0 tissue0 Ht0 Hn0. rewrite (Hsame t0 Ht0) in Hn0.
        rewrite (gene_of_static tissue0 _ _ Hs1). now apply (Hnone t0).
Qed.

Lemma in_tissueNodes nodes t :
  In t (map fst (filter (fun t => NodeType_eqb Tissue (nd_node_type (snd t)))
                        (enumerate nodes)))
  <-> exists tissue, nth_error nodes t = Some tissue /\ nd_node_type tissue = Tissue.
Proof.
  rewrite in_map_iff. split.
  - intros ([t' tissue] & <- & H). apply filter_In in H. destruct H as [H1 H2].
    apply in_enumerate in H1. exists tissue. split; auto.
    simpl in H2. now destruct (nd_node_type tissue).
  - intros (tissue & H1 & H2). exists (t, tissue). split; auto.
    apply filter_In. split; [now apply in_enumerate|]. simpl. now rewrite H2.
Qed.

(** [optimizeLayout], record by record. *)
Lemma optimizeLayout_nth random st j node :
  nth_error (nodesData st) j = Some node ->
  let nodes' := nodesData (optimizeLayout random st) in
  ((forall t tissue, nth_error (nodesData st) t = Some tissue ->
                     nd_node_type tissue = Tissue -> gene_of tissue node = false) ->
   nth_error nodes' j = Some node)
  /\ (forall t tissue, nth_error (nodesData st) t = Some tissue ->
        nd_node_type tissue = Tissue -> gene_of tissue node = true ->
        exists t' tissue' node',
          nth_error (nodesData st) t' = Some tissue'
          /\ nth_error nodes' t' = Some tissue'
          /\ nd_node_type tissue' = Tissue
          /\ gene_of tissue' node = true
          /\ nth_error nodes' j = Some node'
          /\ placed_around random tissue' node').
Proof.
  intros Hj. cbn zeta. unfold optimizeLayout. cbn [with_nodes nodesData].
  set (ts := map fst (filter (fun t => NodeType_eqb Tissue (nd_node_type (snd t)))
                             (enumerate (nodesData st)))).
  set (acc := (nodesData st, random_calls st)).
  assert (Hts : forall t, In t ts ->
            exists tissue, nth_error (fst acc) t = Some tissue
                           /\ nd_node_type tissue = Tissue).
  { intros t Ht. now apply in_tissueNodes in Ht. }
  pose proof (layout_placed random ts acc Hts) as HL. cbn zeta in HL.
  destruct (HL j node Hj) as [HB HC].
  split.
  - intros Hno. apply HB. intros t tissue Ht Hn.
    apply in_tissueNodes in Ht. destruct Ht as (tissue0 & Hn0 & Hty0).
    apply (Hno t); auto. cbn [acc fst] in Hn. congruence.
  - intros t tissue Hn Hty Hg.
    destruct (HC t tissue) as (t' & tissue' & node' & H1 & H2 & H3 & H4 & H5); auto.
    { apply in_tissueNodes. eauto. }
    apply in_tissueNodes in H1. destruct H1 as (tissue0 & Hn0 & Hty0).
    cbn [acc fst] in H2.
    assert (tissue0 = tissue') by congruence. subst tissue0.
    exists t', tissue', node'. repeat split; auto.
    destruct (HL t' tissue' H2) as [HB' _]. apply HB'.
    intros t0 tis0 _ _. apply gene_of_tissue_false. congruence.
Qed.

Lemma Forall2_nth_error {A B : Type} (P : A -> B -> Prop) (l : list A) (l' : list B) :
  List.length l = List.length l' ->
  (forall i a b, nth_error l i = Some a -> nth_error l' i = Some b -> P a b) ->
  Forall2 P l l'.
Proof.
  revert l'. induction l as [|a l IH]; intros [|b l'] Hlen H; try discriminate.
  - constructor.
  - constructor.
    + apply (H 0%nat); reflexivity.
    + apply IH; [simpl in Hlen; lia|]. intros i. apply (H (S i)).
Qed.

(** X17.  [optimizeLayout] changes positions of gene records only.  A
    record that is not a gene keeps its position, and so does a gene whose
    [tissue] names no tissue record; a gene that names a tissue record
    lands around one it names, at the distance and the angle of lines
    626-642.  The view stays as it is. *)
Theorem optimize_layout_moves_genes_only :
  forall (random : RandomNumbers) (st : State),
    let st' := optimizeLayout random st in
    let tissue_of node tissue :=
      nd_node_type tissue = Tissue /\ gene_of tissue node = true in
    scale st' = scale st /\ offsetX st' = offsetX st /\ offsetY st' = offsetY st
    /\ Forall2
         (fun old new =>
            static new = static old
            /\ (nd_node_type old <> Gene -> new = old)
            /\ ((forall tissue, In tissue (nodesData st) -> ~ tissue_of old tissue) ->
                new = old)
            /\ ((exists tissue, In tissue (nodesData st) /\ tissue_of old tissue) ->
                exists tissue,
                  In tissue (nodesData st) /\ In tissue (nodesData st')
                  /\ tissue_of old tissue /\ placed_around random tissue new))
         (nodesData st) (nodesData st').
Proof.
  intros random st st' tissue_of.
  split; [reflexivity|]. split; [reflexivity|]. split; [reflexivity|].
  pose proof (optimizeLayout_static random st) as Hst. fold st' in Hst.
  apply Forall2_nth_error.
  - rewrite <- (length_map static (nodesData st)), <- Hst. apply length_map.
  - intros i old new Ho Hn.
    destruct (optimizeLayout_nth random st i old Ho) as [HB HC]. fold st' in HB, HC.
    destruct (nth_static _ _ i old Hst Ho) as (new' & Hn' & Hs).
    assert (new' = new) by congruence. subst new'.
    assert (Hkeep : (forall tissue, In tissue (nodesData st) -> ~ tissue_of old tissue) ->
                    new = old).
    { intros Hno.
      assert (E : nth_error (nodesData st') i = Some old).
      { apply HB. intros t tissue Ht Hty.
        destruct (gene_of tissue old) eqn:Eg; auto.
        exfalso. apply (Hno tissue); [eapply nth_error_In; eauto|]. split; auto. }
      congruence. }
    split; [exact Hs|]. split; [|split; [exact Hkeep|]].
    + intros Hty. apply Hkeep. intros tissue _ [_ Hg].
      rewrite gene_of_tissue_false in Hg by exact Hty. discriminate.
    + intros (tissue & Hin & Hty & Hg).
      apply In_nth_error in Hin. destruct Hin as (t & Ht).
      destruct (HC t tissue Ht Hty Hg)
        as (t' & tissue' & node' & H1 & H2 & H3 & H4 & H5 & H6).
      assert (node' = new) by congruence. subst node'.
      exists tissue'. split; [eapply nth_error_In; eauto|].
      split; [eapply nth_error_In; eauto|]. split; [split; auto | exact H6].
Qed.

(** ** The payload when the page has loaded *)

Lemma cloud_distance_bounds random k gene :
  0.8 <= Q2R (pcc_of gene) -> 0 <= random (S k) < 1 ->
  20 <= cloud_distance random k gene <= 78.
Proof.
  intros Hp [Hr0 Hr1]. unfold cloud_distance. cbn zeta.
  set (p := Q2R (pcc_of gene)) in *. set (r := random (S k)) in *.
  split; [apply Rmax_l|].
  apply Rmax_lub; [lra|].
  destruct (Rle_dec 0 (0.2 + 0.5 * (1 - p))) as [Hns|Hns].
  - assert (H : (r * 2 - 1) * (0.2 + 0.5 * (1 - p)) <= 0.2 + 0.5 * (1 - p)) by nra.
    lra.
  - assert (H : (r * 2 - 1) * (0.2 + 0.5 * (1 - p)) <= - (0.2 + 0.5 * (1 - p))) by nra.
    lra.
Qed.

Lemma payload_name_id {sorter : SortValues} normal df c nd :
  In nd (nodes_data normal df c) ->
  nd_name nd = nd_id nd /\ (nd_node_type nd = Tissue -> nd_id nd <> c).
Proof.
  intros Hin. unfold nodes_data in Hin. apply in_nodes_data_of in Hin.
  destruct Hin as [->|(n & _ & Hin)]; [split; [reflexivity | discriminate]|].
  unfold node_data in Hin. destruct (String.eqb_spec n c) as [|Hne]; [destruct Hin|].
  destruct (node_type (node_attrs n _)) as [[| |]|]; try (now destruct Hin);
    destruct Hin as [<-|[]]; simpl; auto.
Qed.

Lemma threshold_real (q : Q) : (threshold <= q)%Q -> 0.8 <= Q2R q.
Proof.
  intros H. apply Qle_Rle in H. unfold threshold in H.
  replace (Q2R 0.8) with 0.8 in H; [exact H|].
  unfold Q2R. simpl. lra.
Qed.

(** X18.  When the page has loaded (with [Math.random] in [0, 1)), the
    records are those of [nodes_data] with the central and the tissue
    records where the script put them, and every gene record laid out
    anew at a distance between 20 and 78 from the record of its tissue,
    whatever its position in the payload was; only a gene whose tissue
    bears the central node's name, and so has no tissue record, stays. *)
Theorem genes_laid_out_anew_at_load :
  forall (sorter : SortValues) (normal : RandomSource) (df : list Row) (c : string)
         (random : RandomNumbers) (clientWidth clientHeight : R),
    (forall k, 0 <= random k < 1) ->
    let payload := nodes_data normal df c in
    let st := initialize random payload clientWidth clientHeight in
    Forall2
      (fun old new =>
         static new = static old
         /\ match nd_node_type old with
            | Gene =>
                (nd_tissue old = Some c /\ new = old)
                \/ (exists tissue d a,
                      In tissue payload /\ In tissue (nodesData st)
                      /\ nd_node_type tissue = Tissue
                      /\ nd_tissue old = Some (nd_name tissue)
                      /\ 20 <= d <= 78
                      /\ nd_x new = nd_x tissue + d * cos a
                      /\ nd_y new = nd_y tissue + d * sin a)
            | _ => new = old
            end)
      payload (nodesData st).
Proof.
  intros sorter normal df c random cw ch Hr payload st.
  set (st0 := resizeCanvas cw ch (loaded payload cw ch)).
  assert (E0 : nodesData st0 = payload) by reflexivity.
  assert (Est : st = optimizeLayout random st0) by reflexivity.
  pose proof (optimizeLayout_static random st0) as Hst. rewrite <- Est, E0 in Hst.
  apply Forall2_nth_error.
  - rewrite <- (length_map static payload), <- Hst. apply length_map.
  - intros i old new Ho Hn.
    assert (Ho0 : nth_error (nodesData st0) i = Some old) by now rewrite E0.
    destruct (optimizeLayout_nth random st0 i old Ho0) as [HB HC].
    rewrite <- Est, E0 in HB, HC.
    destruct (nth_static _ _ i old Hst Ho) as (new' & Hn' & Hs).
    assert (new' = new) by congruence. subst new'.
    split; [exact Hs|].
    assert (Hin : In old payload) by (eapply nth_error_In; eauto).
    assert (Hkeep : nd_node_type old <> Gene -> new = old).
    { intros Hty.
      assert (E : nth_error (nodesData st) i = Some old).
      { apply HB. intros t tissue _ _. now apply gene_of_tissue_false. }
      congruence. }
    destruct (nd_node_type old) eqn:Hty; try (apply Hkeep; discriminate).
    pose proof (nodes_data_provenance normal df c old Hin) as Hp. rewrite Hty in Hp.
    destruct Hp as (r & Hr1 & Hr2 & _ & Hpcc & Htis).
    destruct (String.eqb_spec (tumor r) c) as [Hc|Hc].
    + left. split; [now rewrite Htis, Hc|].
      assert (E : nth_error (nodesData st) i = Some old).
      { apply HB. intros t tissue Ht Htty.
        apply nth_error_In in Ht.
        destruct (payload_name_id normal df c tissue Ht) as [Hname Hid].
        unfold gene_of. rewrite Htis, Hname.
        destruct (String.eqb_spec (tumor r) (nd_id tissue)) as [E|]; [|apply andb_false_r].
        exfalso. apply (Hid Htty). congruence. }
      congruence.
    + right.
      assert (Ht : In (tumor r) (unique (map tumor (filter_pcc df)))).
      { apply unique_In, in_map, filter_pcc_In. auto. }
      destruct (tissue_record_exists normal (filter_pcc df) c (tumor r) Ht Hc)
        as (tis & Htin & Htid & Htty).
      fold (nodes_data normal df c) in Htin. fold payload in Htin.
      destruct (payload_name_id normal df c tis Htin) as [Hname _].
      assert (Hg : gene_of tis old = true).
      { unfold gene_of. rewrite Hty, Htis, Hname, Htid. simpl. apply String.eqb_refl. }
      apply In_nth_error in Htin. destruct Htin as (t & Htn).
      destruct (HC t tis Htn Htty Hg)
        as (t' & tissue' & node' & H1 & H2 & H3 & H4 & H5 & k & len & idx & _ & Hx & Hy).
      assert (node' = new) by congruence. subst node'.
      exists tissue', (cloud_distance random k new), (cloud_angle random k len idx new).
      split; [eapply nth_error_In; eauto|]. split; [eapply nth_error_In; eauto|].
      split; [exact H3|]. split.
      * unfold gene_of in H4. rewrite Hty, Htis in H4. simpl in H4.
        apply String.eqb_eq in H4. now rewrite Htis, H4.
      * split; [|split; [exact Hx | exact Hy]].
        apply cloud_distance_bounds; [|apply Hr].
        apply static_fields in Hs. destruct Hs as (_ & _ & _ & Hsp).
        unfold pcc_of. rewrite Hsp, Hpcc. now apply threshold_real.
Qed.

Lemma genes_laid_out_anew_at_load_witness :
  (forall k : nat, 0 <= (fun _ : nat => 0) k < 1)
  /\ List.length
       (nodesData (initialize (fun _ => 0)
                     (@nodes_data stable_sorter no_noise table_two "GCH1") 800 600))
     = List.length (@nodes_data stable_sorter no_noise table_two "GCH1").
Proof.
  assert (H : forall k : nat, 0 <= (fun _ : nat => 0) k < 1) by (intros k; lra).
  split; [exact H|].
  pose proof (genes_laid_out_anew_at_load stable_sorter no_noise table_two "GCH1"
                (fun _ => 0) 800 600 H) as HF.
  symmetry. exact (Forall2_length HF).
Defined.

(** ** The legends *)

Lemma tissue_record_item {sorter : SortValues} normal df c nd :
  In nd (nodes_data normal df c) -> nd_node_type nd = Tissue ->
  nd_label nd = Some (legend_text (tissue_item nd)).
Proof.
  intros Hin Hty. unfold nodes_data in Hin. apply in_nodes_data_of in Hin.
  destruct Hin as [->|(n & _ & Hin)]; [discriminate|].
  unfold node_data in Hin. destruct (String.eqb n c); [destruct Hin|].
  destruct (node_type (node_attrs n _)) as [[| |]|]; try (now destruct Hin);
    destruct Hin as [<-|[]]; try discriminate.
  reflexivity.
Qed.

(** X19.  The legends.  The picture that is exported names the central
    node [GCH1] whatever its name is; the legend of the page has its
    central entry, named [GCH1] too, exactly when some node of the graph is
    called [GCH1]; both go on with one entry for every tissue record, in
    the colour of the record and with the text of its label. *)
Theorem legends_name_GCH1 :
  forall (sorter : SortValues) (normal : RandomSource) (df : list Row) (c : string),
    let payload := nodes_data normal df c in
    let central_item := mkLegendItem "red" "GCH1 (central)" in
    drawLegendToContext payload
    = central_item :: map tissue_item (tissue_records payload)
    /\ createLegend payload
       = (if has_node "GCH1" (graph_of normal df c) then [central_item] else [])
         ++ map tissue_item (tissue_records payload)
    /\ Forall (fun nd => nd_label nd = Some (legend_text (tissue_item nd))
                         /\ legend_color (tissue_item nd) = nd_color nd)
              (tissue_records payload)
    /\ nd_label (central_data c (fixed_positions_of normal df c))
       = Some (c ++ " (central)")%string.
Proof.
  intros sorter normal df c payload central_item.
  split; [reflexivity|]. split; [|split; [|reflexivity]].
  - unfold createLegend. f_equal.
    assert (E : existsb (fun node => String.eqb (nd_id node) "GCH1") payload
                = has_node "GCH1" (graph_of normal df c)).
    { transitivity (existsb (String.eqb "GCH1") (map nd_id payload)).
      - clear. induction payload as [|nd l IH]; simpl; auto.
        now rewrite IH, (String.eqb_sym (nd_id nd)).
      - unfold payload. rewrite nodes_data_ids. apply mem_In_keys_bool. }
    now rewrite E.
  - apply Forall_forall. intros nd Hin. unfold tissue_records in Hin.
    apply filter_In in Hin. destruct Hin as [Hin Hty].
    split; [|reflexivity].
    apply (tissue_record_item normal df c); auto.
    now destruct (nd_node_type nd).
Qed.

(** ** After the button is released *)

Lemma hover_moves random path : forall st,
  dragNode st = None -> isDraggingCanvas st = false ->
  let st' := run random (pointer_path path) st in
  nodesData st' = nodesData st /\ scale st' = scale st
  /\ offsetX st' = offsetX st /\ offsetY st' = offsetY st
  /\ dragNode st' = None /\ isDraggingCanvas st' = false.
Proof.
  induction path as [|q path IH]; intros st Hd Hc.
  - simpl. repeat split; assumption.
  - cbn zeta.
    change (run random (pointer_path (q :: path)) st)
      with (run random (pointer_path path)
              (handleMouseMove (fst q) (snd q) (fst q) (snd q) st)).
    set (st1 := handleMouseMove (fst q) (snd q) (fst q) (snd q) st).
    assert (E : nodesData st1 = nodesData st /\ scale st1 = scale st
                /\ offsetX st1 = offsetX st /\ offsetY st1 = offsetY st
                /\ dragNode st1 = None /\ isDraggingCanvas st1 = false).
    { unfold st1, handleMouseMove. rewrite Hd, Hc.
      destruct (getNodeAtPosition st (fst q) (snd q)) as [[i n]|]; cbn;
        repeat split; assumption. }
    destruct E as (E1 & E2 & E3 & E4 & E5 & E6).
    destruct (IH st1 E5 E6) as (H1 & H2 & H3 & H4 & H5 & H6).
    rewrite H1, H2, H3, H4. repeat split; assumption.
Qed.

(** X20.  Once the button is released, moving the pointer changes neither
    a record nor the view, whatever was being dragged before. *)
Theorem release_ends_drag_and_pan :
  forall (random : RandomNumbers) (st : State) (path : list (R * R)),
    let st' := run random (MouseUp :: pointer_path path) st in
    nodesData st' = nodesData st /\ scale st' = scale st
    /\ offsetX st' = offsetX st /\ offsetY st' = offsetY st.
Proof.
  intros random st path st'. unfold st'.
  change (run random (MouseUp :: pointer_path path) st)
    with (run random (pointer_path path) (handleMouseUp st)).
  destruct (hover_moves random path (handleMouseUp st) eq_refl eq_refl)
    as (H1 & H2 & H3 & H4 & _).
  rewrite H1, H2, H3, H4. repeat split.
Qed.

(** ** The record picked and the disc seen *)

Lemma run_static random events : forall st,
  map static (nodesData (run random events st)) = map static (nodesData st).
Proof.
  induction events as [|e events IH]; intros st; [reflexivity|].
  change (run random (e :: events) st) with (run random events (handle random st e)).
  rewrite IH. apply handle_static.
Qed.

Lemma map_type_static l1 l2 :
  map static l1 = map static l2 -> map nd_node_type l1 = map nd_node_type l2.
Proof.
  intros H. apply (f_equal (map nd_node_type)) in H.
  rewrite !map_map in H. exact H.
Qed.

(** The types of the records of the payload: the central one, the
    tissues, the genes. *)
Lemma payload_types {sorter : SortValues} normal df c :
  exists n m,
    map nd_node_type (nodes_data normal df c)
    = Central :: repeat Tissue n ++ repeat Gene m.
Proof.
  destruct (build_shape normal (filter_pcc df) c) as (genes & Hn & Hg & _).
  set (colors := tissue_colors_of (unique (map tumor (filter_pcc df)))).
  set (G := st_G (build_graph normal (filter_pcc df) c)) in *.
  set (pos := st_positions (build_graph normal (filter_pcc df) c)).
  set (ts' := filter (fun t => negb (String.eqb t c))
                     (unique (map tumor (filter_pcc df)))) in *.
  assert (Hts : Forall (fun n => n <> c /\ is_node_type Tissue G n = true) ts').
  { apply Forall_forall. intros t Ht. apply filter_In in Ht. destruct Ht as [Ht Hc].
    split; [apply String.eqb_neq; now destruct (String.eqb t c)|].
    now apply (proj2 (is_tissue_build normal _ _ _)). }
  assert (Hgs : Forall (fun n => n <> c /\ is_node_type Gene G n = true) genes).
  { apply Forall_forall. intros g Hin. rewrite Forall_forall in Hg.
    split; [|now apply Hg]. pose proof (Hg g Hin) as Hgg.
    apply (proj1 (is_gene_build normal _ _ _)) in Hgg. tauto. }
  destruct (node_data_one_kind Tissue c colors G pos ts') as [_ Ht2];
    [discriminate | exact Hts |].
  destruct (node_data_one_kind Gene c colors G pos genes) as [_ Hg2];
    [discriminate | exact Hgs |].
  assert (Hrep : forall ty (l : list NodeData),
             Forall (fun nd => nd_node_type nd = ty) l ->
             map nd_node_type l = repeat ty (List.length l)).
  { intros ty l H. induction H as [|nd l E _ IH]; simpl; auto. now rewrite E, IH. }
  exists (List.length (flat_map (node_data c colors G pos) ts')),
         (List.length (flat_map (node_data c colors G pos) genes)).
  unfold nodes_data, nodes_data_of. fold colors G pos.
  rewrite Hn. cbn [flat_map map central_data nd_node_type]. f_equal.
  unfold node_data at 1. rewrite String.eqb_refl. cbn [app].
  rewrite flat_map_app, map_app. f_equal; now apply Hrep.
Qed.

Lemma nth_error_types n m i :
  nth_error (Central :: repeat Tissue n ++ repeat Gene m) i = Some Gene ->
  forall j ty, (i <= j)%nat ->
    nth_error (Central :: repeat Tissue n ++ repeat Gene m) j = Some ty -> ty = Gene.
Proof.
  intros Hi j ty Hij Hj.
  destruct i as [|i]; [discriminate|]. destruct j as [|j]; [lia|].
  simpl in Hi, Hj.
  destruct (Nat.lt_ge_cases i n) as [Hlt|Hge].
  - rewrite nth_error_app1 in Hi by now rewrite repeat_length.
    apply nth_error_In, repeat_spec in Hi. discriminate.
  - rewrite nth_error_app2 in Hj by (rewrite repeat_length; lia).
    apply nth_error_In, repeat_spec in Hj. exact Hj.
Qed.

(** X22.  The pointer acts on the gene under it, the eye sees the disc
    over it.  In every state the page reaches with the payload of the
    script, at a point that lies on the disc of a gene the record picked
    is a gene, and at a point that lies on the disc of a tissue or of the
    central node the disc painted on top is none of a gene. *)
Theorem gene_picked_under_painted_disc :
  forall (sorter : SortValues) (normal : RandomSource) (df : list Row) (c : string)
         (random : RandomNumbers) (clientWidth clientHeight : R)
         (events : list Event) (x y : R),
    let st := run random events
                (initialize random (nodes_data normal df c) clientWidth clientHeight) in
    ((exists g, In g (nodesData st) /\ nd_node_type g = Gene
                /\ on_disc st x y g = true) ->
     exists i picked, getNodeAtPosition st x y = Some (i, picked)
                      /\ nd_node_type picked = Gene)
    /\ ((exists t, In t (nodesData st) /\ nd_node_type t <> Gene
                   /\ on_disc st x y t = true) ->
        exists shown, top_disc st x y = Some shown /\ nd_node_type shown <> Gene).
Proof.
  intros sorter normal df c random cw ch events x y st.
  destruct (payload_types normal df c) as (n & m & HT).
  assert (Hty : map nd_node_type (nodesData st)
                = Central :: repeat Tissue n ++ repeat Gene m).
  { rewrite <- HT. apply map_type_static. unfold st. rewrite run_static.
    unfold initialize. now rewrite optimizeLayout_static. }
  clearbody st. clear HT. split.
  - intros (g & Hin & Hg & Hhit).
    apply In_nth_error in Hin. destruct Hin as (ig & Hig).
    pose proof (scan_down_spec (on_disc st x y) (nodesData st)
                  (List.length (nodesData st))) as Hs.
    unfold getNodeAtPosition.
    assert (Hlt : (ig < List.length (nodesData st))%nat)
      by (apply nth_error_Some; congruence).
    destruct (scan_down _ _ _) as [[i picked]|].
    + destruct Hs as (H1 & H2 & H3 & H4).
      exists i, picked. split; [reflexivity|].
      assert (Hle : (ig <= i)%nat).
      { destruct (Nat.le_gt_cases ig i) as [|Hgt]; auto.
        rewrite (H4 ig g) in Hhit by (auto; lia). discriminate. }
      apply (nth_error_types n m ig) with (j := i); auto.
      * rewrite <- Hty, nth_error_map, Hig. simpl. now rewrite Hg.
      * rewrite <- Hty, nth_error_map, H2. reflexivity.
    + rewrite (Hs ig g Hlt Hig) in Hhit. discriminate.
  - intros (t & Hin & Ht & Hhit).
    destruct (nodesData st) as [|n0 rest] eqn:En; [discriminate|].
    cbn [map] in Hty. injection Hty as Hn0 Hrest.
    unfold top_disc. rewrite En. unfold paint_order.
    set (genes := filter (fun node => NodeType_eqb Gene (nd_node_type node))
                         (n0 :: rest)).
    set (tissues := filter (fun node => NodeType_eqb Tissue (nd_node_type node))
                           (n0 :: rest)).
    assert (Hc : find (fun node => NodeType_eqb Central (nd_node_type node)) (n0 :: rest)
                 = Some n0) by (simpl; now rewrite Hn0).
    rewrite Hc, !rev_app_distr, !find_app. cbn [rev app find].
    destruct (on_disc st x y n0) eqn:E0.
    { exists n0. split; [reflexivity|]. rewrite Hn0. discriminate. }
    assert (Htis : In t tissues).
    { apply filter_In. split; [exact Hin|].
      destruct Hin as [<-|Hin]; [congruence|].
      apply (in_map nd_node_type) in Hin. rewrite Hrest in Hin.
      apply in_app_or in Hin. destruct Hin as [Hin|Hin]; apply repeat_spec in Hin.
      - now rewrite Hin.
      - contradiction. }
    destruct (find (on_disc st x y) (rev tissues)) as [shown|] eqn:Ef.
    + exists shown. split; [reflexivity|].
      apply find_some in Ef. destruct Ef as [Ef _].
      apply in_rev, filter_In in Ef. destruct Ef as [_ Ef].
      destruct (nd_node_type shown); discriminate.
    + apply in_rev in Htis. rewrite (find_none _ _ Ef t Htis) in Hhit. discriminate.
Qed.

(** A gene as close to its tissue as the layout allows: the two discs
    touch the point (825, 300) of the canvas. *)

Lemma on_disc_true st x y node :
  0 <= INR (nd_size node) * scale st ->
  (x - (nd_x node * scale st + offsetX st)) ^ 2
  + (y - (nd_y node * scale st + offsetY st)) ^ 2
  <= (INR (nd_size node) * scale st) ^ 2 ->
  on_disc st x y node = true.
Proof.
  intros H0 H. unfold on_disc.
  destruct (Rle_dec _ _) as [|Hn]; [reflexivity|].
  exfalso. apply Hn. rewrite <- (sqrt_pow2 (INR (nd_size node) * scale st)) by exact H0.
  now apply sqrt_le_1_alt.
Qed.

Lemma closest_distance gene :
  nd_pcc gene = Some 1%Q -> cloud_distance random_closest 0 gene = 28.
Proof.
  intros H. unfold cloud_distance, pcc_of, random_closest. rewrite H.
  replace (Q2R 1) with 1 by (unfold Q2R; simpl; lra).
  replace (40 + (1 - 1) * 100 + (0 * 2 - 1) * (0.2 + 0.5 * (1 - 1)) * 60) with 28 by lra.
  apply Rmax_right. lra.
Qed.

Lemma closest_angle gene :
  nd_pcc gene = Some 1%Q -> cloud_angle random_closest 0 1 0 gene = 0.
Proof.
  intros H. unfold cloud_angle, pcc_of, random_closest. rewrite H.
  replace (Q2R 1) with 1 by (unfold Q2R; simpl; lra).
  simpl INR. field.
Qed.

Lemma first_tissue_position : tissue_position 0 = (400, 0).
Proof.
  unfold tissue_position, radius. simpl INR.
  replace (0 * golden_angle) with 0 by ring.
  rewrite cos_0, sin_0. f_equal; ring.
Qed.

Lemma gene_picked_under_painted_disc_witness :
  let st := run random_closest []
              (initialize random_closest
                 (@nodes_data stable_sorter no_noise table_score_one "GCH1") 800 600) in
  (exists g, In g (nodesData st) /\ nd_node_type g = Gene
             /\ on_disc st 825 300 g = true)
  /\ (exists t, In t (nodesData st) /\ nd_node_type t <> Gene
                /\ on_disc st 825 300 t = true)
  /\ (exists i picked, getNodeAtPosition st 825 300 = Some (i, picked)
                       /\ nd_node_type picked = Gene)
  /\ (exists shown, top_disc st 825 300 = Some shown /\ nd_node_type shown <> Gene).
Proof.
  intros st.
  assert (Hg : exists g, In g (nodesData st) /\ nd_node_type g = Gene
                         /\ on_disc st 825 300 g = true).
  { eexists. split; [|split].
    - unfold st.
      cbn -[Rplus Rmult Rminus Rdiv Rinv cos sin PI Rmax sqrt INR Q2R cloud_distance
            cloud_angle cloud_position tissue_position golden_angle].
      right. right. left. reflexivity.
    - reflexivity.
    - apply on_disc_true;
        cbn -[Rplus Rmult Rminus Rdiv Rinv cos sin PI Rmax sqrt Q2R cloud_distance
              cloud_angle cloud_position tissue_position golden_angle pow];
        rewrite ?closest_distance, ?closest_angle by reflexivity;
        rewrite ?first_tissue_position, ?cos_0, ?sin_0; cbn [fst snd]; simpl; lra. }
  assert (Ht : exists t, In t (nodesData st) /\ nd_node_type t <> Gene
                         /\ on_disc st 825 300 t = true).
  { eexists. split; [|split].
    - unfold st.
      cbn -[Rplus Rmult Rminus Rdiv Rinv cos sin PI Rmax sqrt INR Q2R cloud_distance
            cloud_angle cloud_position tissue_position golden_angle].
      right. left. reflexivity.
    - discriminate.
    - apply on_disc_true;
        cbn -[Rplus Rmult Rminus Rdiv Rinv cos sin PI Rmax sqrt Q2R cloud_distance
              cloud_angle cloud_position tissue_position golden_angle pow];
        rewrite ?first_tissue_position; cbn [fst snd]; simpl; lra. }
  destruct (gene_picked_under_painted_disc stable_sorter no_noise table_score_one
              "GCH1" random_closest 800 600 [] 825 300) as [H1 H2].
  split; [exact Hg|]. split; [exact Ht|].
  split; [exact (H1 Hg) | exact (H2 Ht)].
Defined.

(** ** Zooming in and out again *)

Lemma wheel_step st mouseX mouseY deltaY factor :
  factor = (if Rlt_dec deltaY 0 then 1.1 else 0.9) ->
  MIN_SCALE <= scale st * factor <= MAX_SCALE -> scale st <> 0 ->
  let st' := handleWheel mouseX mouseY deltaY st in
  scale st' = scale st * factor
  /\ (mouseX - offsetX st') / scale st' = (mouseX - offsetX st) / scale st
  /\ (mouseY - offsetY st') / scale st' = (mouseY - offsetY st) / scale st.
Proof.
  intros Hf [H1 H2] Hs. cbn zeta. unfold handleWheel. cbn [scale offsetX offsetY].
  set (s1 := if Rlt_dec deltaY 0 then scale st * 1.1 else scale st * 0.9).
  assert (E1 : s1 = scale st * factor)
    by (unfold s1; rewrite Hf; now destruct (Rlt_dec deltaY 0)).
  assert (E2 : Rmax MIN_SCALE (Rmin MAX_SCALE s1) = s1).
  { rewrite Rmin_right by now rewrite E1. apply Rmax_right. now rewrite E1. }
  rewrite E2. clearbody s1. unfold MIN_SCALE in H1.
  split; [exact E1|]. split; field; split; auto; lra.
Qed.

(** X23.  A step of the wheel in and a step out at the same point, both
    within the bounds, do not undo each other: the zoom factor ends at
    0.99 of what it was, while the point under the pointer is where it
    was. *)
Theorem zoom_in_and_out_drifts :
  forall (st : State) (mouseX mouseY : R),
    MIN_SCALE <= scale st * 0.99 ->
    scale st * 1.1 <= MAX_SCALE ->
    let st' := handleWheel mouseX mouseY 1 (handleWheel mouseX mouseY (-1) st) in
    scale st' = scale st * 0.99
    /\ scale st' <> scale st
    /\ (mouseX - offsetX st') / scale st' = (mouseX - offsetX st) / scale st
    /\ (mouseY - offsetY st') / scale st' = (mouseY - offsetY st) / scale st.
Proof.
  intros st mouseX mouseY Hlo Hhi st'.
  assert (Hlo' : 0.1 <= scale st * 0.99) by exact Hlo.
  assert (Hhi' : scale st * 1.1 <= 5) by exact Hhi.
  destruct (wheel_step st mouseX mouseY (-1) 1.1) as (A1 & A2 & A3).
  { destruct (Rlt_dec (-1) 0); [reflexivity | lra]. }
  { unfold MIN_SCALE, MAX_SCALE. lra. }
  { lra. }
  set (st1 := handleWheel mouseX mouseY (-1) st) in *.
  destruct (wheel_step st1 mouseX mouseY 1 0.9) as (B1 & B2 & B3).
  { destruct (Rlt_dec 1 0); [lra | reflexivity]. }
  { rewrite A1. unfold MIN_SCALE, MAX_SCALE. lra. }
  { rewrite A1. lra. }
  fold st' in B1, B2, B3.
  split; [rewrite B1, A1; lra|]. split; [rewrite B1, A1; lra|].
  split; [now rewrite B2 | now rewrite B3].
Qed.

Lemma zoom_in_and_out_drifts_witness :
  let st := loaded [] 800 600 in
  scale (handleWheel 10 20 1 (handleWheel 10 20 (-1) st)) = scale st * 0.99.
Proof.
  intros st.
  destruct (zoom_in_and_out_drifts st 10 20) as (H & _).
  - unfold MIN_SCALE. simpl. lra.
  - unfold MAX_SCALE. simpl. lra.
  - exact H.
Defined.

End ClientView.
